(** * linkedin-agent: the synchronization engine and the credential layer

    A shallow embedding of [src/scraper.ts], [src/auth.ts] and
    [src/poster.ts], and the properties of the record extractor, the
    accumulator, the pagination loop, the merge with the persisted collection,
    the credential store, the token authority and the retrying executor;
    then the first authorization, the three operations on posts and the
    delete command of [src/cli.ts].

    Conventions of the embedding:
    - a value obtained from [JSON.parse] or [response.json()] and used at type
      [any] is a [JSON] tree; a property read that finds nothing is JavaScript's
      [undefined], written [None];
    - JavaScript exceptions are explicit: a computation that may throw returns
      a [Completion];
    - a JavaScript [Map] is an association list in insertion order;
    - network, clock and file system are explicit oracles and state. *)

From Stdlib Require Import ZArith Lia Bool Ascii DecimalString.
From stdpp Require Import gmap strings list.

Local Open Scope Z_scope.

(* ===================================================================== *)
(** ** JavaScript values and helpers *)
(* ===================================================================== *)

Module Js.

(** A parsed JSON document.  Numbers are the integers: the code below only
    tests numbers for truthiness, copies them and compares them. *)
#[warnings="-register-all"]
Inductive JSON : Type :=
  | JNull
  | JBool (b : bool)
  | JNum (n : Z)
  | JStr (s : string)
  | JArr (items : list JSON)
  | JObj (props : list (string * JSON)).

(** The errors the modelled code throws or lets through. *)
Inductive JsError : Type :=
  | TypeError (what : string)
  | SyntaxError
  | NetworkError
  | Error (message : string).

(** Outcome of evaluating a JavaScript expression or block. *)
Inductive Completion (A : Type) : Type :=
  | Normal (a : A)
  | Thrown (e : JsError).
Arguments Normal {A} a.
Arguments Thrown {A} e.

Definition str_truthy (s : string) : bool :=
  match s with EmptyString => false | String _ _ => true end.

(** [ToBoolean] on a possibly undefined JSON value. *)
Definition truthy (v : option JSON) : bool :=
  match v with
  | None => false
  | Some JNull => false
  | Some (JBool b) => b
  | Some (JNum n) => negb (n =? 0)
  | Some (JStr s) => str_truthy s
  | Some (JArr _) => true
  | Some (JObj _) => true
  end.

(** [a || d] where [d] is a defined value. *)
Definition js_or (a : option JSON) (d : JSON) : JSON :=
  match a with
  | Some v => if truthy a then v else d
  | None => d
  end.

(** [a || b] where [b] may be undefined. *)
Definition js_or_undef (a b : option JSON) : option JSON :=
  if truthy a then a else b.

(** The own property [k] of a parsed object, which holds each key once. *)
Fixpoint own_prop (k : string) (props : list (string * JSON)) : option JSON :=
  match props with
  | [] => None
  | (k', v) :: rest => if String.eqb k k' then Some v else own_prop k rest
  end.

(** [v?.k] for the property names the code reads; none of them is defined on
    a prototype, so primitives and arrays answer [undefined]. *)
Definition get (k : string) (v : option JSON) : option JSON :=
  match v with
  | Some (JObj props) => own_prop k props
  | _ => None
  end.

(** [v === s] for a string literal [s]. *)
Definition strict_eq_str (v : option JSON) (s : string) : bool :=
  match v with
  | Some (JStr s') => String.eqb s' s
  | _ => false
  end.

(** SameValueZero, the key equality of [Map].  Arrays and objects are compared
    by reference; every value parsed from JSON is a fresh reference, so two
    of them met as keys are never the same. *)
Definition same_value_zero (a b : JSON) : bool :=
  match a, b with
  | JNull, JNull => true
  | JBool x, JBool y => Bool.eqb x y
  | JNum x, JNum y => x =? y
  | JStr x, JStr y => String.eqb x y
  | _, _ => false
  end.

(** *** Strings *)

Fixpoint strip_prefix (p s : string) : option string :=
  match p with
  | EmptyString => Some s
  | String a p' =>
      match s with
      | EmptyString => None
      | String b s' => if Ascii.eqb a b then strip_prefix p' s' else None
      end
  end.

(** [hay.includes(needle)] *)
Fixpoint includes (needle hay : string) : bool :=
  match strip_prefix needle hay with
  | Some _ => true
  | None =>
      match hay with
      | EmptyString => false
      | String _ hay' => includes needle hay'
      end
  end.

(** The class [\d]. *)
Definition is_digit (c : ascii) : bool :=
  let n := nat_of_ascii c in (48 <=? n)%nat && (n <=? 57)%nat.

(** The longest run of digits at the head of [s]: what a greedy [\d+] or
    [\d*] consumes. *)
Fixpoint take_digits (s : string) : string :=
  match s with
  | EmptyString => EmptyString
  | String c s' => if is_digit c then String c (take_digits s') else EmptyString
  end.

(** *** Map *)

Section JsMap.
Context {K V : Type}.
Variable keq : K -> K -> bool.

(** Entries in insertion order. *)
Definition JsMap : Type := list (K * V).

Definition map_new : JsMap := [].

Fixpoint map_get (k : K) (m : JsMap) : option V :=
  match m with
  | [] => None
  | (k', v) :: rest => if keq k' k then Some v else map_get k rest
  end.

Definition map_has (k : K) (m : JsMap) : bool :=
  match map_get k m with Some _ => true | None => false end.

(** [m.set(k, v)]: an existing key keeps its place and takes the new value,
    a new key goes to the end. *)
Fixpoint map_set (k : K) (v : V) (m : JsMap) : JsMap :=
  match m with
  | [] => [(k, v)]
  | (k', v') :: rest =>
      if keq k' k then (k', v) :: rest else (k', v') :: map_set k v rest
  end.

Definition map_values (m : JsMap) : list V := map snd m.
Definition map_keys (m : JsMap) : list K := map fst m.
Definition map_size (m : JsMap) : nat := length m.
End JsMap.

Arguments JsMap : clear implicits.

End Js.

(* ===================================================================== *)
(** ** A JSON file on disk, as the code reads it *)
(* ===================================================================== *)

Module Fs.
Import Js.

(** The states of a file that [fs.existsSync] and
    [JSON.parse(fs.readFileSync(path, "utf-8"))] tell apart: no file; a file
    whose reading or parsing throws; a file that parses.  [A] is the type at
    which the code uses the parsed value. *)
Inductive FileState (A : Type) : Type :=
  | FileMissing
  | FileUnparseable
  | FileJson (v : A).
Arguments FileMissing {A}.
Arguments FileUnparseable {A}.
Arguments FileJson {A} v.

Definition existsSync {A} (f : FileState A) : bool :=
  match f with FileMissing => false | _ => true end.

(** [JSON.parse(fs.readFileSync(path, "utf-8"))] *)
Definition readJson {A} (f : FileState A) : Completion A :=
  match f with
  | FileMissing => Thrown (Error "ENOENT")
  | FileUnparseable => Thrown SyntaxError
  | FileJson v => Normal v
  end.

End Fs.

(* ===================================================================== *)
(** ** scraper.ts: the record extractor and the interception hook *)
(* ===================================================================== *)

Module Scraper.
Import Js.

Record LinkedInPost : Type := mkPost {
  id : string;
  text : JSON;
  publishedAt : JSON;
  numLikes : JSON;
  numComments : JSON;
  numShares : JSON;
  url : string
}.

(** The value type of [countsMap]. *)
Module Counts.
Record t : Type := mk { numLikes : JSON; numComments : JSON; numShares : JSON }.
Definition zero : t := mk (JNum 0) (JNum 0) (JNum 0).
End Counts.

Definition SocialActivityCounts : string :=
  "com.linkedin.voyager.dash.feed.SocialActivityCounts".

(** The regular expression [/activity:(\d+)/] applied to a string: the
    leftmost place where [activity:] is followed by a digit, and the whole run
    of digits there as capture group 1. *)
Fixpoint match_activity (s : string) : option string :=
  let here :=
    match strip_prefix "activity:" s with
    | Some rest =>
        match take_digits rest with
        | EmptyString => None
        | digits => Some digits
        end
    | None => None
    end in
  match here with
  | Some digits => Some digits
  | None =>
      match s with
      | EmptyString => None
      | String _ s' => match_activity s'
      end
  end.

(** [dashUrn.match(/activity:(\d+)/)]: only a string has a [match] method. *)
Definition dashUrn_match (dashUrn : JSON) : Completion (option string) :=
  match dashUrn with
  | JStr s => Normal (match_activity s)
  | _ => Thrown (TypeError "dashUrn.match is not a function")
  end.

(** Step 1, one item: record the counters of a counts item under its urn. *)
Definition counts_step (countsMap : JsMap JSON Counts.t) (item : JSON)
  : JsMap JSON Counts.t :=
  if strict_eq_str (get "$type" (Some item)) SocialActivityCounts
     && truthy (get "urn" (Some item))
  then
    match get "urn" (Some item) with
    | Some urn =>
        map_set same_value_zero urn
          (Counts.mk (js_or (get "numLikes" (Some item)) (JNum 0))
                     (js_or (get "numComments" (Some item)) (JNum 0))
                     (js_or (get "numShares" (Some item)) (JNum 0)))
          countsMap
    | None => countsMap
    end
  else countsMap.

Definition build_countsMap (included : list JSON) : JsMap JSON Counts.t :=
  fold_left counts_step included map_new.

(** [item?.commentary?.text?.text] *)
Definition commentary_of (item : JSON) : option JSON :=
  get "text" (get "text" (get "commentary" (Some item))).

(** [item?.preDashEntityUrn || item?.entityUrn || ""] *)
Definition dashUrn_of (item : JSON) : JSON :=
  js_or (js_or_undef (get "preDashEntityUrn" (Some item))
                     (get "entityUrn" (Some item)))
        (JStr "").

(** What one turn of the second loop does. *)
Inductive Turn : Type :=
  | Continue
  | Push (post : LinkedInPost)
  | Raise (e : JsError).

Definition commentary_step (countsMap : JsMap JSON Counts.t) (item : JSON) : Turn :=
  match commentary_of item with
  | Some commentary =>
      if negb (truthy (Some commentary)) then Continue else
      match dashUrn_match (dashUrn_of item) with
      | Thrown e => Raise e
      | Normal None => Continue
      | Normal (Some activityId) =>
          let activityUrn := "urn:li:activity:" +:+ activityId in
          let counts :=
            match map_get same_value_zero (JStr activityUrn) countsMap with
            | Some c => c
            | None => Counts.zero
            end in
          let publishedAt :=
            js_or (get "text" (get "subDescription" (get "actor" (Some item))))
                  (JStr "") in
          Push {| id := activityUrn;
                  text := commentary;
                  publishedAt := publishedAt;
                  numLikes := Counts.numLikes counts;
                  numComments := Counts.numComments counts;
                  numShares := Counts.numShares counts;
                  url := "https://www.linkedin.com/feed/update/" +:+ activityUrn +:+ "/" |}
      end
  | None => Continue
  end.

(** Step 2: the loop over [included], threading the array [posts]; a throw
    leaves the loop with what was pushed so far. *)
Fixpoint commentary_loop (countsMap : JsMap JSON Counts.t) (items : list JSON)
    (posts : list LinkedInPost) : list LinkedInPost * Completion unit :=
  match items with
  | [] => (posts, Normal tt)
  | item :: rest =>
      match commentary_step countsMap item with
      | Continue => commentary_loop countsMap rest posts
      | Push post => commentary_loop countsMap rest (posts ++ [post])
      | Raise e => (posts, Thrown e)
      end
  end.

(** The body of the [try] block, on the array [posts]. *)
Definition extractPosts_try (data : JSON) (posts : list LinkedInPost)
  : list LinkedInPost * Completion unit :=
  match get "included" (Some data) with
  | Some (JArr included) =>
      commentary_loop (build_countsMap included) included posts
  | _ => (posts, Normal tt)
  end.

(** [extractPosts]: the early [return posts], the normal end of the [try]
    and the empty [catch] all reach [return posts]. *)
Definition extractPosts (data : JSON) : Completion (list LinkedInPost) :=
  match extractPosts_try data [] with
  | (posts, Normal _) => Normal posts
  | (posts, Thrown _) => Normal posts
  end.

(** *** The interception hook *)

(** What the hook reads of a response: its URL, its [content-type] header
    (absent: [None]) and the outcome of [response.json()]. *)
Record Response : Type := mkResponse {
  resp_url : string;
  resp_contentType : option string;
  resp_json : Completion JSON
}.

(** [post.text.substring(0, 50)] inside the log line: only a string has a
    [substring] method. *)
Definition text_substring (t : JSON) : Completion unit :=
  match t with
  | JStr _ => Normal tt
  | _ => Thrown (TypeError "post.text.substring is not a function")
  end.

(** The [for (const post of posts)] loop on the accumulator [allPosts]. *)
Fixpoint collect (posts : list LinkedInPost) (allPosts : JsMap string LinkedInPost)
  : JsMap string LinkedInPost * Completion unit :=
  match posts with
  | [] => (allPosts, Normal tt)
  | post :: rest =>
      if str_truthy (id post) && truthy (Some (text post))
         && negb (map_has String.eqb (id post) allPosts)
      then
        let allPosts' := map_set String.eqb (id post) post allPosts in
        match text_substring (text post) with
        | Normal _ => collect rest allPosts'
        | Thrown e => (allPosts', Thrown e)
        end
      else collect rest allPosts
  end.

(** The handler registered with [page.on("response", ...)].  After
    [await response.json()] it runs to its end without yielding, so the
    responses are folded one at a time. *)
Definition onResponse (allPosts : JsMap string LinkedInPost) (response : Response)
  : JsMap string LinkedInPost :=
  if includes "/voyager/api" (resp_url response) then
    let contentType :=
      match resp_contentType response with
      | Some s => if str_truthy s then s else EmptyString
      | None => EmptyString
      end in
    if includes "json" contentType then
      match resp_json response with
      | Normal json =>
          match extractPosts json with
          | Normal posts => fst (collect posts allPosts)
          | Thrown _ => allPosts
          end
      | Thrown _ => allPosts
      end
    else allPosts
  else allPosts.

(** The accumulator after the responses of a run, in the order in which
    their bodies became available. *)
Definition accumulate (responses : list Response) : JsMap string LinkedInPost :=
  fold_left onResponse responses map_new.

(** A response of the Voyager API carrying the payload [json]. *)
Definition voyager (json : JSON) : Response :=
  mkResponse "https://www.linkedin.com/voyager/api/graphql"
             (Some "application/vnd.linkedin.normalized+json+2.1")
             (Normal json).

(** *** autoScroll *)

Section AutoScroll.
(** What [page.evaluate(() => document.body.scrollHeight)] resolves to, or
    rejects with, in iteration [i]. *)
Variable scrollHeight : nat -> Completion Z.
(** The same for [page.evaluate(() => window.scrollTo(...))] followed by
    [page.waitForTimeout(2000)]. *)
Variable scrollDown : nat -> Completion unit.
(** [maxScrolls], a non-negative whole number. *)
Variable maxScrolls : nat.
(** [shouldStop]: absent, or what it answers when called in iteration [i]. *)
Variable shouldStop : option (nat -> bool).

Record Loop : Type := mkLoop {
  i : nat;
  previousHeight : Z;
  noChangeCount : nat;
  measured : list Z;      (* the heights read so far, oldest first *)
  scrolled : nat          (* the scrolls done so far *)
}.

Inductive Exit : Type :=
  | ReachedPostLimit      (* "Reached post limit." *)
  | NoMorePosts           (* "No more posts to load." *)
  | ReachedMaxScrolls     (* "Reached max scrolls" *)
  | Failed (e : JsError). (* an evaluation in the page rejected *)

Inductive Outcome : Type :=
  | Running (st : Loop)
  | Finished (st : Loop) (why : Exit).

Definition loop_init : Loop := mkLoop 0 0 0 [] 0.

(** [shouldStop?.()] *)
Definition stop_requested (n : nat) : bool :=
  match shouldStop with Some f => f n | None => false end.

(** One pass of the [for] statement, from its test [i < maxScrolls] to its
    update [i++]. *)
Definition iteration (st : Loop) : Outcome :=
  if (i st <? maxScrolls)%nat then
    if stop_requested (i st) then Finished st ReachedPostLimit
    else
      match scrollHeight (i st) with
      | Thrown e => Finished st (Failed e)
      | Normal currentHeight =>
          let seen := measured st ++ [currentHeight] in
          let next n :=
            match scrollDown (i st) with
            | Normal _ =>
                Running (mkLoop (S (i st)) currentHeight n seen (S (scrolled st)))
            | Thrown e =>
                Finished (mkLoop (i st) currentHeight n seen (scrolled st))
                         (Failed e)
            end in
          if currentHeight =? previousHeight st then
            let n := S (noChangeCount st) in
            if (3 <=? n)%nat
            then Finished (mkLoop (i st) (previousHeight st) n seen (scrolled st))
                          NoMorePosts
            else next n
          else next 0%nat
      end
  else Finished st ReachedMaxScrolls.

(** The loop, run for at most [fuel] passes. *)
Fixpoint loop (fuel : nat) (st : Loop) : option (Loop * Exit) :=
  match fuel with
  | O => None
  | S fuel' =>
      match iteration st with
      | Finished st' why => Some (st', why)
      | Running st' => loop fuel' st'
      end
  end.

Definition autoScroll (fuel : nat) : option (Loop * Exit) := loop fuel loop_init.
End AutoScroll.

(** *** Merging with the persisted collection *)

(** [newPosts]: the accumulator's values, cut to [postLimit] when it is set
    (and not 0). *)
Definition newPosts_of (allPosts : JsMap string LinkedInPost) (postLimit : option nat)
  : list LinkedInPost :=
  match postLimit with
  | Some (S n) => take (S n) (map_values allPosts)
  | _ => map_values allPosts
  end.

Definition set_all (posts : list LinkedInPost) (m : JsMap string LinkedInPost)
  : JsMap string LinkedInPost :=
  fold_left (fun m p => map_set String.eqb (id p) p m) posts m.

(** [merged], as written to the output file and returned. *)
Definition mergePosts (file : Fs.FileState (list LinkedInPost))
    (newPosts : list LinkedInPost) : list LinkedInPost :=
  let merged := newPosts in
  if Fs.existsSync file then
    match Fs.readJson file with
    | Normal existing =>
        let mergedMap := set_all existing map_new in
        let mergedMap := set_all newPosts mergedMap in
        map_values mergedMap
    | Thrown _ => merged
    end
  else merged.

(** [fs.writeFileSync(outputPath, JSON.stringify(merged, null, 2))] *)
Definition persist (file : Fs.FileState (list LinkedInPost))
    (newPosts : list LinkedInPost) : Fs.FileState (list LinkedInPost) :=
  Fs.FileJson (mergePosts file newPosts).

End Scraper.

(* ===================================================================== *)
(** ** auth.ts: the credential store and the token authority *)
(* ===================================================================== *)

Module Auth.
Import Js Fs.

Record Credentials : Type := mkCredentials {
  clientId : string;
  clientSecret : string;
  accessToken : string;
  refreshToken : string;
  personId : string;
  expiresAt : Z
}.

(** A type with JavaScript's [null] among its values. *)
Class Nullable (A : Type) : Type := null : A.

(** The parsed file at type [any]. *)
#[export] Instance JSON_nullable : Nullable JSON := JNull.
(** The parsed file at the declared type [Credentials | null]. *)
#[export] Instance Credentials_nullable : Nullable (option Credentials) := None.

(** [loadCredentials]; [JSON.parse] gives [any], which the signature takes
    for [Credentials | null] without a check. *)
Definition loadCredentials {A} `{Nullable A} (file : FileState A) : Completion A :=
  if negb (existsSync file) then Normal null
  else
    match readJson file with
    | Normal v => Normal v
    | Thrown _ => Normal null
    end.

(** The body of the token endpoint's answer read as [tokens]; a field that
    is absent is the falsy value of its type. *)
Record Tokens : Type := mkTokens {
  access_token : string;
  refresh_token : string;
  expires_in : Z
}.

Record HttpReply : Type := mkReply { status : Z; body : string }.

(** The outside world of the token authority. *)
Record Env : Type := mkEnv {
  (** the [k]-th reading of [Date.now()], in milliseconds *)
  date_now : nat -> Z;
  (** the outcome of the [k]-th [httpsPost], given URL and form fields *)
  httpsPost : nat -> string -> list (string * string) -> Completion HttpReply;
  (** [JSON.parse(resp.body)] followed by the reads of [tokens] *)
  parse_tokens : string -> Completion Tokens
}.

Inductive Event : Type :=
  | EvRefresh (creds : Credentials)            (* refreshAccessToken entered *)
  | EvSave (creds : Credentials)               (* saveCredentials *)
  | EvCall (n : nat) (creds : Credentials).    (* the call-function invoked *)

Definition count_calls (tr : list Event) : nat :=
  length (List.filter (fun ev => match ev with EvCall _ _ => true | _ => false end) tr).

Definition count_refreshes (tr : list Event) : nat :=
  length (List.filter (fun ev => match ev with EvRefresh _ => true | _ => false end) tr).

Record World : Type := mkWorld {
  credentialsFile : FileState (option Credentials);
  clock_reads : nat;
  posts_sent : nat;
  trace : list Event          (* oldest first *)
}.

(** Computations on the world that may throw. *)
Definition M (A : Type) : Type := World -> Completion A * World.

Definition ret {A} (a : A) : M A := fun w => (Normal a, w).
Definition throw {A} (e : JsError) : M A := fun w => (Thrown e, w).
Definition bind {A B} (m : M A) (k : A -> M B) : M B :=
  fun w =>
    match m w with
    | (Normal a, w') => k a w'
    | (Thrown e, w') => (Thrown e, w')
    end.

Notation "x <- m ;; k" := (bind m (fun x => k))
  (at level 100, m at next level, right associativity).

Definition log (ev : Event) : M unit :=
  fun w => (Normal tt,
            mkWorld (credentialsFile w) (clock_reads w) (posts_sent w) (trace w ++ [ev])).

Section WithEnv.
Variable env : Env.

(** [Math.floor(Date.now() / 1000)] *)
Definition now_seconds : M Z :=
  fun w => (Normal (date_now env (clock_reads w) / 1000),
            mkWorld (credentialsFile w) (S (clock_reads w)) (posts_sent w) (trace w)).

Definition post_form (url : string) (form : list (string * string)) : M HttpReply :=
  fun w => (httpsPost env (posts_sent w) url form,
            mkWorld (credentialsFile w) (clock_reads w) (S (posts_sent w)) (trace w)).

(** [saveCredentials]; the directory and the file are taken to be writable. *)
Definition saveCredentials (creds : Credentials) : M unit :=
  fun w => (Normal tt,
            mkWorld (FileJson (Some creds)) (clock_reads w) (posts_sent w)
                    (trace w ++ [EvSave creds])).

Definition load : M (option Credentials) :=
  fun w => (loadCredentials (credentialsFile w), w).

Definition str_or (a b : string) : string := if str_truthy a then a else b.
Definition num_or (a b : Z) : Z := if a =? 0 then b else a.

Definition refreshAccessToken (creds : Credentials) : M Credentials :=
  _ <- log (EvRefresh creds) ;;
  if negb (str_truthy (refreshToken creds)) then
    throw (Error "No refresh token available. Run 'linkedin-agent auth' again.")
  else
    resp <- post_form "https://www.linkedin.com/oauth/v2/accessToken"
              [("grant_type", "refresh_token");
               ("refresh_token", refreshToken creds);
               ("client_id", clientId creds);
               ("client_secret", clientSecret creds)] ;;
    tokens <- (fun w => (parse_tokens env (body resp), w)) ;;
    if negb (str_truthy (access_token tokens)) then
      throw (Error ("Token refresh failed: " +:+ body resp))
    else
      now <- now_seconds ;;
      let updated :=
        mkCredentials (clientId creds) (clientSecret creds)
          (access_token tokens)
          (str_or (refresh_token tokens) (refreshToken creds))
          (personId creds)
          (now + num_or (expires_in tokens) 5184000) in
      _ <- saveCredentials updated ;;
      ret updated.

Definition getValidCredentials : M Credentials :=
  creds <- load ;;
  match creds with
  | None => throw (Error "No credentials found. Run 'linkedin-agent auth' first.")
  | Some creds =>
      now <- now_seconds ;;
      let oneDayFromNow := now + 86400 in
      if expiresAt creds <? oneDayFromNow then refreshAccessToken creds
      else ret creds
  end.
End WithEnv.

End Auth.

(* ===================================================================== *)
(** ** poster.ts: the retrying executor *)
(* ===================================================================== *)

Module Poster.
Import Js Fs Auth.

Record PostResult : Type := mkResult {
  success : bool;
  postId : option string;
  error : option string
}.

(** What a call-function resolves to. *)
Record Response : Type := mkResponse {
  status : Z;
  body : string;
  headers : list (string * string)
}.

(** A call-function: the outcome of its [n]-th invocation (counted from 0)
    on the credentials it is given. *)
Definition CallFn : Type := nat -> Credentials -> Completion Response.

(** [await fn(creds)] *)
Definition call (fn : CallFn) (creds : Credentials) : M Response :=
  fun w =>
    let n := count_calls (trace w) in
    (fn n creds,
     mkWorld (credentialsFile w) (clock_reads w) (posts_sent w)
             (trace w ++ [EvCall n creds])).

(** The decimal text of a status code inside a template literal. *)
Definition show_status (n : Z) : string := NilZero.string_of_int (Z.to_int n).

Definition withRetry (env : Env) (fn : CallFn) (onSuccess : Response -> PostResult)
  : M PostResult :=
  creds <- getValidCredentials env ;;
  resp <- call fn creds ;;
  resp <- (if status resp =? 401 then
             creds <- refreshAccessToken env creds ;;
             call fn creds
           else ret resp) ;;
  if (200 <=? status resp) && (status resp <? 300) then ret (onSuccess resp)
  else ret (mkResult false None
              (Some ("HTTP " +:+ show_status (status resp) +:+ ": " +:+ body resp))).

End Poster.

(* ===================================================================== *)
(** ** Vocabulary of the properties *)
(* ===================================================================== *)

Module Props.
Import Js Fs Scraper.

(** An item of [included] that carries a text body: the test the second loop
    of [extractPosts] applies. *)
Definition is_commentary_item (item : JSON) : bool := truthy (commentary_of item).

(** The items of a payload; a payload that has no [included] array has none. *)
Definition items_of (data : JSON) : list JSON :=
  match get "included" (Some data) with
  | Some (JArr included) => included
  | _ => []
  end.

Definition lacks_commentary (data : JSON) : Prop :=
  Forall (fun item => is_commentary_item item = false) (items_of data).

(** A counts item keyed by the activity reference [urn]. *)
Definition is_counts_item_for (urn : string) (item : JSON) : bool :=
  strict_eq_str (get "$type" (Some item)) SocialActivityCounts
  && match get "urn" (Some item) with
     | Some (JStr u) => String.eqb u urn
     | _ => false
     end.

(** The counters a counts item carries. *)
Definition counts_of (item : JSON) : Counts.t :=
  Counts.mk (js_or (get "numLikes" (Some item)) (JNum 0))
            (js_or (get "numComments" (Some item)) (JNum 0))
            (js_or (get "numShares" (Some item)) (JNum 0)).

(** The accumulator holds exactly one record for [urn], with the text of the
    commentary item and the counters of the counts item. *)
Definition holds_combined_record (allPosts : JsMap string LinkedInPost)
    (urn : string) (countsItem commentaryItem : JSON) : Prop :=
  exists post,
    List.filter (fun p => String.eqb (id p) urn) (map_values allPosts) = [post]
    /\ commentary_of commentaryItem = Some (text post)
    /\ numLikes post = Counts.numLikes (counts_of countsItem)
    /\ numComments post = Counts.numComments (counts_of countsItem)
    /\ numShares post = Counts.numShares (counts_of countsItem).

(** The record [extractPosts] builds for a commentary item of activity
    [activityId] when its payload has no counts for it. *)
Definition text_only_record (activityId : string) (item : JSON) (commentary : JSON)
  : LinkedInPost :=
  let activityUrn := "urn:li:activity:" +:+ activityId in
  {| id := activityUrn;
     text := commentary;
     publishedAt :=
       js_or (get "text" (get "subDescription" (get "actor" (Some item)))) (JStr "");
     numLikes := JNum 0;
     numComments := JNum 0;
     numShares := JNum 0;
     url := "https://www.linkedin.com/feed/update/" +:+ activityUrn +:+ "/" |}.

(** Two payloads of a session: counts for activity 1 in the first,
    its commentary in the second. *)
Definition counts_item_1 : JSON :=
  JObj [("$type", JStr SocialActivityCounts);
        ("urn", JStr "urn:li:activity:1");
        ("numLikes", JNum 5); ("numComments", JNum 2); ("numShares", JNum 1)].

Definition commentary_item_1 : JSON :=
  JObj [("entityUrn", JStr "urn:li:fsd_update:(urn:li:activity:1,MEMBER_SHARES)");
        ("commentary", JObj [("text", JObj [("text", JStr "hello")])]);
        ("actor", JObj [("subDescription", JObj [("text", JStr "2d")])])].

Definition counts_payload : JSON := JObj [("included", JArr [counts_item_1])].
Definition commentary_payload : JSON := JObj [("included", JArr [commentary_item_1])].

(** *** The pagination loop, seen from its measurements *)

(** [previousHeight] and [noChangeCount] after one more measurement [h]. *)
Definition observe (pn : Z * nat) (h : Z) : Z * nat :=
  if h =? fst pn then (h, S (snd pn)) else (h, 0%nat).

(** [previousHeight] and [noChangeCount] after the measurements [ms], from
    their initial values 0 and 0. *)
Definition track (ms : list Z) : Z * nat := fold_left observe ms (0, 0%nat).

(** Measurement number [j] (from 0) found the same height as the one before
    it; the one before the first is the initial [previousHeight], 0. *)
Definition no_change_at (ms : list Z) (j : nat) : Prop :=
  exists a, ms !! j = Some a /\ (0 :: ms) !! j = Some a.

(** C2 read literally: three measurements in a row with one value, and the
    third is the last of the run. *)
Definition stops_at_third_equal_measurement (st : Loop) : Prop :=
  forall j a,
    measured st !! j = Some a ->
    measured st !! S j = Some a ->
    measured st !! S (S j) = Some a ->
    length (measured st) = S (S (S j)).

(** No prefix of the measurements [ms] has driven [noChangeCount] to 3. *)
Definition quiet (ms : list Z) : Prop :=
  forall k, (k <= length ms)%nat -> (snd (track (take k ms)) < 3)%nat.

(** What holds of the loop state at the head of every pass. *)
Definition loop_invariant (st : Loop) : Prop :=
  i st = length (measured st)
  /\ scrolled st = length (measured st)
  /\ track (measured st) = (previousHeight st, noChangeCount st)
  /\ quiet (measured st).

(** *** The merge, seen entry by entry *)

(** What [mergedMap.set(p.id, p)] does to an entry of a map that has the key. *)
Definition overwrite1 (e : string * LinkedInPost) (p : LinkedInPost)
  : string * LinkedInPost :=
  if String.eqb (fst e) (id p) then (fst e, p) else e.

Definition overwrite (posts : list LinkedInPost) (e : string * LinkedInPost)
  : string * LinkedInPost :=
  fold_left overwrite1 posts e.

(** Every entry sits under the identifier of its record. *)
Definition keyed (m : JsMap string LinkedInPost) : Prop :=
  forall e, In e m -> fst e = id (snd e).

(** The identifiers of a collection, as a set. *)
Definition id_set (posts : list LinkedInPost) : gset string :=
  list_to_set (map id posts).

(** The scenario of two runs on one day: the first run stored activity 1
    with 5 likes, the second finds it with 9 likes and finds activity 2. *)
Definition post_of (activityId : string) (likes : Z) : LinkedInPost :=
  {| id := "urn:li:activity:" +:+ activityId;
     text := JStr "hello";
     publishedAt := JStr "2d";
     numLikes := JNum likes;
     numComments := JNum 0;
     numShares := JNum 0;
     url := "https://www.linkedin.com/feed/update/urn:li:activity:"
              +:+ activityId +:+ "/" |}.

Definition first_run : list LinkedInPost := [post_of "1" 5].
Definition second_run : list LinkedInPost := [post_of "1" 9; post_of "2" 0].

(** *** Credentials *)

Import Auth Poster.

Definition is_string (v : option JSON) : bool :=
  match v with Some (JStr _) => true | _ => false end.

Definition is_number (v : option JSON) : bool :=
  match v with Some (JNum _) => true | _ => false end.

(** A parsed file that holds all six fields of [Credentials], each of its
    declared type. *)
Definition fully_populated (v : JSON) : bool :=
  is_string (get "clientId" (Some v))
  && is_string (get "clientSecret" (Some v))
  && is_string (get "accessToken" (Some v))
  && is_string (get "refreshToken" (Some v))
  && is_string (get "personId" (Some v))
  && is_number (get "expiresAt" (Some v)).

(** C9 read literally: [loadCredentials] answers [null] or a record with all
    its fields. *)
Definition loads_none_or_full (file : FileState JSON) : Prop :=
  exists v, loadCredentials file = Normal v
            /\ (v = JNull \/ fully_populated v = true).

(** A credentials file that holds an object with one field. *)
Definition partial_file : FileState JSON :=
  FileJson (JObj [("accessToken", JStr "AQX-stale")]).


(** Invocation number [n] of the call-function resolves with status [code]. *)
Definition returns_status (fn : CallFn) (n : nat) (code : Z) : Prop :=
  forall creds, exists resp, fn n creds = Normal resp /\ Poster.status resp = code.



(** A world for examples: the clock stands at 1 700 000 000 s and the token
    endpoint grants a token valid for 60 days. *)
Definition granting_env : Env :=
  mkEnv (fun _ => 1700000000000)
        (fun _ _ _ => Normal (mkReply 200 "{}"))
        (fun _ => Normal (mkTokens "AQX-new" "" 5184000)).

Definition creds_expiring (at_ : Z) (refresh : string) : Credentials :=
  mkCredentials "client" "secret" "AQX-old" refresh "person" at_.

(** Expiry ten days ahead, and one hour ahead. *)
Definition creds_fresh : Credentials := creds_expiring 1700864000 "AQR".
Definition creds_near : Credentials := creds_expiring 1700003600 "AQR".
(** Expiry ten days ahead and no refresh token. *)
Definition creds_no_refresh : Credentials := creds_expiring 1700864000 "".

Definition world_of (creds : Credentials) : World :=
  mkWorld (FileJson (Some creds)) 0 0 [].

(** A call-function rejected as unauthorized once, then accepted. *)
Definition unauthorized_once : CallFn :=
  fun n _ => Normal (Poster.mkResponse (if (n =? 0)%nat then 401 else 200) "" []).

Definition report_ok (resp : Poster.Response) : PostResult :=
  mkResult true (Some "urn:li:share:1") None.

(** C10 read literally: the executor throws after its first call, and what
    throws is the refresh that the 401 of that call forces. *)
Definition forced_refresh_raises (env : Env) (fn : CallFn)
    (onSuccess : Poster.Response -> PostResult) (w : World) : Prop :=
  exists e creds,
    fst (withRetry env fn onSuccess w) = Thrown e
    /\ trace (snd (withRetry env fn onSuccess w))
       = trace w ++ [EvCall (count_calls (trace w)) creds; EvRefresh creds].

(** Expiry one hour ahead and no refresh token. *)
Definition creds_near_no_refresh : Credentials := creds_expiring 1700003600 "".

End Props.


(* ===================================================================== *)
(** ** Further vocabulary: records, payloads and runs *)
(* ===================================================================== *)

Module MoreProps.
Import Js Fs Scraper Props.

Fixpoint all_digits (s : string) : bool :=
  match s with
  | EmptyString => true
  | String c s' => is_digit c && all_digits s'
  end.

(** The shape of a record that [extractPosts] emits: the identifier and the
    URL are built from one non-empty run of digits, and the text is truthy. *)
Definition emitted_record (p : LinkedInPost) : Prop :=
  exists digits,
    str_truthy digits = true
    /\ all_digits digits = true
    /\ id p = "urn:li:activity:" +:+ digits
    /\ url p = "https://www.linkedin.com/feed/update/urn:li:activity:"
                 +:+ digits +:+ "/"
    /\ truthy (Some (text p)) = true.

(** The regular expression [/activity:(\d+)/] tried at the head of [s]. *)
Definition activity_here (s : string) : option string :=
  match strip_prefix "activity:" s with
  | Some rest =>
      match take_digits rest with
      | EmptyString => None
      | digits => Some digits
      end
  | None => None
  end.

(** [s] is empty or begins with a character that is no digit. *)
Definition no_leading_digit (s : string) : bool :=
  match s with
  | EmptyString => true
  | String c _ => negb (is_digit c)
  end.

(** The record for a commentary item of activity [activityId] whose payload
    carries the counters [counts] for it. *)
Definition joined_record (activityId : string) (item commentary : JSON)
    (counts : Counts.t) : LinkedInPost :=
  let activityUrn := "urn:li:activity:" +:+ activityId in
  {| id := activityUrn;
     text := commentary;
     publishedAt :=
       js_or (get "text" (get "subDescription" (get "actor" (Some item)))) (JStr "");
     numLikes := Counts.numLikes counts;
     numComments := Counts.numComments counts;
     numShares := Counts.numShares counts;
     url := "https://www.linkedin.com/feed/update/" +:+ activityUrn +:+ "/" |}.

(** The text of every record is a string. *)
Definition texts_are_strings (posts : list LinkedInPost) : Prop :=
  Forall (fun p => exists t, text p = JStr t) posts.

(** What [extractPosts] returns, outside [Completion]. *)
Definition extracted (data : JSON) : list LinkedInPost :=
  match extractPosts data with
  | Normal posts => posts
  | Thrown _ => []
  end.

(** A second counts item for activity 1, and a payload with two of them. *)
Definition counts_item_1_later : JSON :=
  JObj [("$type", JStr SocialActivityCounts);
        ("urn", JStr "urn:li:activity:1");
        ("numLikes", JNum 7); ("numComments", JNum 3)].

(** *** Runs of the pagination loop *)

(** The first [n] passes went through: [shouldStop] answered false, the
    height was read and is the one recorded, and the scroll was done. *)
Definition passes_done (scrollHeight : nat -> Completion Z)
    (scrollDown : nat -> Completion unit) (shouldStop : option (nat -> bool))
    (n : nat) (ms : list Z) : Prop :=
  forall k, (k < n)%nat ->
    stop_requested shouldStop k = false
    /\ (exists h, ms !! k = Some h /\ scrollHeight k = Normal h)
    /\ scrollDown k = Normal tt.

(** What the state at the exit says about the pass in which the loop ended. *)
Definition exit_explained (scrollHeight : nat -> Completion Z)
    (scrollDown : nat -> Completion unit) (shouldStop : option (nat -> bool))
    (maxScrolls : nat) (st : Loop) (why : Exit) : Prop :=
  match why with
  | ReachedMaxScrolls =>
      i st = maxScrolls /\ length (measured st) = i st
  | ReachedPostLimit =>
      (i st < maxScrolls)%nat
      /\ stop_requested shouldStop (i st) = true
      /\ length (measured st) = i st
  | NoMorePosts =>
      (i st < maxScrolls)%nat
      /\ stop_requested shouldStop (i st) = false
      /\ length (measured st) = S (i st)
      /\ exists h, measured st !! i st = Some h /\ scrollHeight (i st) = Normal h
  | Failed e =>
      (i st < maxScrolls)%nat
      /\ stop_requested shouldStop (i st) = false
      /\ ((scrollHeight (i st) = Thrown e /\ length (measured st) = i st)
          \/ (exists h, measured st !! i st = Some h
                        /\ scrollHeight (i st) = Normal h
                        /\ scrollDown (i st) = Thrown e
                        /\ length (measured st) = S (i st)))
  end.

End MoreProps.

(* ===================================================================== *)
(** ** Vocabulary for payloads that carry several posts *)
(* ===================================================================== *)

Module PayloadProps.
Import Js Fs Scraper Props MoreProps.

(** What the second loop of [extractPosts] makes of an item, before the
    counts are looked up: it passes over it, it pushes a record of an
    activity with a text, or [match] throws. *)
Inductive Kind : Type :=
  | KSkip
  | KRecord (activityId : string) (commentary : JSON)
  | KThrow.

Definition kind_of (item : JSON) : Kind :=
  match commentary_of item with
  | Some commentary =>
      if negb (truthy (Some commentary)) then KSkip
      else
        match dashUrn_of item with
        | JStr s =>
            match match_activity s with
            | Some activityId => KRecord activityId commentary
            | None => KSkip
            end
        | _ => KThrow
        end
  | None => KSkip
  end.

(** The item gives a record of activity [A]. *)
Definition is_commentary_item_of (A : string) (item : JSON) : bool :=
  match kind_of item with
  | KRecord a _ => String.eqb a A
  | _ => false
  end.

(** The loop of [extractPosts] gets past the item. *)
Definition no_throw (item : JSON) : bool :=
  match kind_of item with KThrow => false | _ => true end.

(** Extractor and hook get past the item without a record of [A]: it is
    passed over, or it gives a record of another activity whose text is a
    string, so that the log line of the hook does not throw on it. *)
Definition leads_on (A : string) (item : JSON) : bool :=
  match kind_of item with
  | KSkip => true
  | KRecord a t =>
      negb (String.eqb a A) && match t with JStr _ => true | _ => false end
  | KThrow => false
  end.

(** The counters that [countsMap] holds for activity [A]. *)
Definition counts_in (countsMap : JsMap JSON Counts.t) (A : string) : Counts.t :=
  match map_get same_value_zero (JStr ("urn:li:activity:" +:+ A)) countsMap with
  | Some c => c
  | None => Counts.zero
  end.

(** The entries that a map holds under [k]. *)
Definition entries_for (k : string) (m : JsMap string LinkedInPost)
  : list (string * LinkedInPost) :=
  List.filter (fun e => String.eqb (fst e) k) m.

Definition counters_zero (p : LinkedInPost) : Prop :=
  numLikes p = JNum 0 /\ numComments p = JNum 0 /\ numShares p = JNum 0.

(** What the accumulator [acc] holds for activity [A] when the commentary
    came in the payload [data]: at most one record, with the text of a
    commentary item of [data] for [A] and all counters 0; and exactly the
    record of the first commentary item for [A], when extractor and hook get
    past the items that precede it. *)
Definition holds_uncombined (A : string) (data : JSON)
    (acc : JsMap string LinkedInPost) : Prop :=
  let urn := "urn:li:activity:" +:+ A in
  (entries_for urn acc = []
   \/ exists p item,
        entries_for urn acc = [(urn, p)]
        /\ counters_zero p
        /\ In item (items_of data)
        /\ kind_of item = KRecord A (text p))
  /\ (forall (pre suf : list JSON) (item commentary : JSON) (s : string),
         items_of data = pre ++ item :: suf ->
         Forall (fun it => leads_on A it = true) pre ->
         commentary_of item = Some commentary ->
         truthy (Some commentary) = true ->
         dashUrn_of item = JStr s ->
         match_activity s = Some A ->
         entries_for urn acc = [(urn, text_only_record A item commentary)]).

(** Payloads with several posts: counts for activity 1 together with the
    post of activity 3; the posts of activities 2 and 1 together with counts
    for activity 2. *)
Definition commentary_item (activityId body : string) : JSON :=
  JObj [("entityUrn", JStr ("urn:li:activity:" +:+ activityId));
        ("commentary", JObj [("text", JObj [("text", JStr body)])])].

Definition counts_item_2 : JSON :=
  JObj [("$type", JStr SocialActivityCounts);
        ("urn", JStr "urn:li:activity:2");
        ("numLikes", JNum 4)].

Definition counts_with_other_post : JSON :=
  JObj [("included", JArr [counts_item_1; commentary_item "3" "third"])].

Definition two_posts_payload : JSON :=
  JObj [("included",
         JArr [commentary_item "2" "second"; counts_item_2; commentary_item_1])].

(** Counts for activity 1, twice, around the posts of activities 2 and 1. *)
Definition joined_posts_payload : JSON :=
  JObj [("included",
         JArr [counts_item_1; commentary_item "2" "second"; commentary_item_1;
               counts_item_1_later])].

End PayloadProps.

(* ===================================================================== *)
(** ** auth.ts: the first authorization *)
(* ===================================================================== *)

Module Authorize.
Import Js Fs Auth.

(** What the callback server reads of a request whose target parses: the
    values that [url.searchParams.get] gives for [code], [error] and
    [error_description] ([null]: [None]). *)
Record Query : Type := mkQuery {
  q_code : option string;
  q_error : option string;
  q_error_description : option string
}.

(** A request that reaches the callback server.  [new URL(req.url || "",
    "http://localhost:3000")] gives the query, or it throws, as it does for
    the request target [//]. *)
Inductive CallbackRequest : Type :=
  | Callback (q : Query)
  | BadTarget.

Definition opt_truthy (o : option string) : bool :=
  match o with Some s => str_truthy s | None => false end.

Definition opt_or (a : option string) (b : string) : string :=
  match a with
  | Some s => if str_truthy s then s else b
  | None => b
  end.

(** The promise [authCode]: resolved, rejected, or still pending; and, in
    place of a settlement, the end of the process: what the request listener
    throws is caught by nobody. *)
Inductive Awaited : Type :=
  | Resolved (code : string)
  | Rejected (e : JsError)
  | Pending
  | Crashed (e : JsError).

(** The request listener on one request: the settlement it brings about, if
    any, and the status it answers, if it answers. *)
Definition handle (req : CallbackRequest) : Awaited * list Z :=
  match req with
  | BadTarget => (Crashed (TypeError "Invalid URL"), [])
  | Callback q =>
      if opt_truthy (q_code q) then (Resolved (opt_or (q_code q) ""), [200])
      else if opt_truthy (q_error q)
      then (Rejected (Error ("OAuth error: "
                             +:+ opt_or (q_error_description q)
                                        (opt_or (q_error q) ""))), [400])
      else (Pending, [404])
  end.

(** The server on the requests that reach it, in order: it answers until a
    request settles the promise, and is closed then; a request on which the
    listener throws ends the process.  The result is the settlement and the
    statuses answered. *)
Fixpoint serve (requests : list CallbackRequest) : Awaited * list Z :=
  match requests with
  | [] => (Pending, [])
  | req :: rest =>
      match handle req with
      | (Pending, answered) =>
          let '(settled, statuses) := serve rest in (settled, answered ++ statuses)
      | (settled, answered) => (settled, answered)
      end
  end.

(** The outside world of [authenticate]: that of the token authority, and
    besides it whether the callback server could bind its port ([Some]: the
    message of the error), the userinfo endpoint, and
    [JSON.parse(userResp.body)] followed by the read of [sub] (absent: the
    empty string). *)
Record AuthEnv : Type := mkAuthEnv {
  base : Env;
  listen_error : option string;
  httpsGet : string -> list (string * string) -> Completion HttpReply;
  parse_userinfo : string -> Completion string
}.

(** Step 1: the promise [authCode]. *)
Definition await_code (aenv : AuthEnv) (requests : list CallbackRequest) : Awaited :=
  match listen_error aenv with
  | Some message =>
      Rejected (Error ("Failed to start callback server: " +:+ message))
  | None => fst (serve requests)
  end.

(** Steps 2 to 4, once the code is there. *)
Definition exchange (aenv : AuthEnv) (clientId clientSecret authCode : string)
  : M Credentials :=
  tokenResp <- post_form (base aenv) "https://www.linkedin.com/oauth/v2/accessToken"
                 [("grant_type", "authorization_code");
                  ("code", authCode);
                  ("client_id", clientId);
                  ("client_secret", clientSecret);
                  ("redirect_uri", "http://localhost:3000/callback")] ;;
  tokens <- (fun w => (parse_tokens (base aenv) (body tokenResp), w)) ;;
  if negb (str_truthy (access_token tokens)) then
    throw (Error ("Token exchange failed: " +:+ body tokenResp))
  else
    userResp <- (fun w => (httpsGet aenv "https://api.linkedin.com/v2/userinfo"
                             [("Authorization", "Bearer " +:+ access_token tokens)],
                           w)) ;;
    personId <- (fun w => (parse_userinfo aenv (body userResp), w)) ;;
    if negb (str_truthy personId) then
      throw (Error "Could not retrieve person ID from userinfo.")
    else
      now <- now_seconds (base aenv) ;;
      let credentials :=
        mkCredentials clientId clientSecret (access_token tokens)
                      (refresh_token tokens) personId
                      (now + num_or (expires_in tokens) 5184000) in
      _ <- saveCredentials credentials ;;
      ret credentials.

(** [authenticate]; [None] when the function never returns: no request
    ever settles the promise, or the process ends while it is awaited. *)
Definition authenticate (aenv : AuthEnv) (clientId clientSecret : string)
    (requests : list CallbackRequest) (w : World)
  : option (Completion Credentials * World) :=
  match await_code aenv requests with
  | Pending => None
  | Crashed _ => None
  | Rejected e => Some (Thrown e, w)
  | Resolved authCode => Some (exchange aenv clientId clientSecret authCode w)
  end.

End Authorize.

(* ===================================================================== *)
(** ** poster.ts: the three operations *)
(* ===================================================================== *)

Module Operations.
Import Js Fs Auth Poster.

(** A request as [httpsRequest] sends it.  [req_url] is the address that is
    requested: scheme and host, then [urlObj.pathname + urlObj.search] of
    the parsed URL.  The body is the value that [JSON.stringify] is applied
    to ([None]: the empty string, nothing is written); [Content-Length] is
    set exactly when there is a body. *)
Record HttpRequest : Type := mkRequest {
  req_url : string;
  req_method : string;
  req_headers : list (string * string);
  req_data : option JSON
}.

(** *** new URL(url), for the URLs of the operations

    The URLs that the operations hand to [httpsRequest] are [https://], a
    host in lower case, and a path in which only [/], unreserved characters
    and percent escapes occur; there is no query and no fragment.  On such a
    URL the parser leaves every character as it is and resolves the dot
    segments of the path. *)

(** [s.split(sep)] *)
Fixpoint split_on (sep : ascii) (s : string) : list string :=
  match s with
  | EmptyString => [EmptyString]
  | String c s' =>
      if Ascii.eqb c sep then EmptyString :: split_on sep s'
      else
        match split_on sep s' with
        | seg :: rest => String c seg :: rest
        | [] => [String c EmptyString]
        end
  end.

Fixpoint join_with (sep : string) (l : list string) : string :=
  match l with
  | [] => EmptyString
  | [x] => x
  | x :: rest => x +:+ sep +:+ join_with sep rest
  end.

(** A single-dot and a double-dot path segment: [.] and [..], with [%2e]
    in either case in place of a dot. *)
Definition is_single_dot (seg : string) : bool :=
  existsb (String.eqb seg) ["."; "%2e"; "%2E"].

Definition is_double_dot (seg : string) : bool :=
  existsb (String.eqb seg)
    [".."; ".%2e"; ".%2E"; "%2e."; "%2E."; "%2e%2e"; "%2e%2E"; "%2E%2e"; "%2E%2E"].

(** The path state of the parser on the segments that are left: a
    double-dot segment removes the last segment of the path, a single-dot
    segment adds nothing, and either of them as the last segment leaves an
    empty segment behind. *)
Fixpoint path_state (segments path : list string) : list string :=
  match segments with
  | [] => path
  | seg :: rest =>
      let is_last := match rest with [] => true | _ => false end in
      if is_double_dot seg then
        path_state rest (if is_last then removelast path ++ [EmptyString]
                         else removelast path)
      else if is_single_dot seg then
        path_state rest (if is_last then path ++ [EmptyString] else path)
      else path_state rest (path ++ [seg])
  end.

(** The address requested for [url]: [https://], [urlObj.hostname] and
    [urlObj.pathname]. *)
Definition requested (url : string) : string :=
  match strip_prefix "https://" url with
  | Some rest =>
      match split_on "/" rest with
      | host :: segments =>
          "https://" +:+ host +:+ "/" +:+ join_with "/" (path_state segments [])
      | [] => url
      end
  | None => url
  end.

Definition httpsRequest (url : string) (data : option JSON)
    (headers : list (string * string)) (method : string) : HttpRequest :=
  mkRequest (requested url) method headers data.

(** The API: what the [n]-th call of [httpsRequest] resolves to or rejects
    with. *)
Definition Net : Type := nat -> HttpRequest -> Completion Response.

Definition makeHeaders (accessToken : string) : list (string * string) :=
  [("Authorization", "Bearer " +:+ accessToken);
   ("Content-Type", "application/json");
   ("X-Restli-Protocol-Version", "2.0.0");
   ("LinkedIn-Version", "202601")].

(** *** encodeURIComponent, on the UTF-8 bytes of a well-formed string *)

Definition is_alnum (c : ascii) : bool :=
  let n := nat_of_ascii c in
  ((48 <=? n) && (n <=? 57) || (65 <=? n) && (n <=? 90)
   || (97 <=? n) && (n <=? 122))%nat.

(** The characters that are left as they are: letters, digits and
    [- _ . ! ~ * ' ( )]. *)
Definition unreserved (c : ascii) : bool :=
  is_alnum c
  || existsb (Ascii.eqb c) ["-"; "_"; "."; "!"; "~"; "*"; "'"; "("; ")"]%char.

Definition hex_digit (n : nat) : ascii :=
  if (n <? 10)%nat then ascii_of_nat (48 + n) else ascii_of_nat (55 + n).

Definition encode_byte (c : ascii) : string :=
  if unreserved c then String c EmptyString
  else String "%" (String (hex_digit (nat_of_ascii c / 16))
                     (String (hex_digit (nat_of_ascii c mod 16)) EmptyString)).

Fixpoint encodeURIComponent (s : string) : string :=
  match s with
  | EmptyString => EmptyString
  | String c s' => encode_byte c +:+ encodeURIComponent s'
  end.

(** *** Create *)

Record PostOptions : Type := mkPostOptions {
  text : string;
  linkUrl : option string
}.

Definition post_body (options : PostOptions) (creds : Credentials) : JSON :=
  JObj ([("author", JStr ("urn:li:person:" +:+ personId creds));
         ("commentary", JStr (text options));
         ("visibility", JStr "PUBLIC");
         ("distribution",
          JObj [("feedDistribution", JStr "MAIN_FEED");
                ("targetEntities", JArr []);
                ("thirdPartyDistributionChannels", JArr [])]);
         ("lifecycleState", JStr "PUBLISHED");
         ("isReshareDisabledByAuthor", JBool false)]
        ++ match linkUrl options with
           | Some link =>
               if str_truthy link
               then [("content", JObj [("article", JObj [("source", JStr link)])])]
               else []
           | None => []
           end).

Definition post_request (options : PostOptions) (creds : Credentials) : HttpRequest :=
  httpsRequest "https://api.linkedin.com/rest/posts"
               (Some (post_body options creds))
               (makeHeaders (accessToken creds))
               "POST".

(** [resp.headers[name] || ""] *)
Fixpoint header_or_empty (name : string) (headers : list (string * string)) : string :=
  match headers with
  | [] => EmptyString
  | (k, v) :: rest => if String.eqb k name then v else header_or_empty name rest
  end.

Definition postToLinkedIn (env : Env) (net : Net) (options : PostOptions)
  : M PostResult :=
  withRetry env
    (fun n creds => net n (post_request options creds))
    (fun resp => mkResult true (Some (header_or_empty "x-restli-id" (headers resp)))
                          None).

(** *** Edit *)

Record EditOptions : Type := mkEditOptions {
  edit_postId : string;
  edit_text : string
}.

Definition edit_request (options : EditOptions) (creds : Credentials) : HttpRequest :=
  let encodedId := encodeURIComponent (edit_postId options) in
  httpsRequest ("https://api.linkedin.com/rest/posts/" +:+ encodedId)
               (Some (JObj [("patch",
                             JObj [("$set",
                                    JObj [("commentary",
                                           JStr (edit_text options))])])]))
               (makeHeaders (accessToken creds))
               "POST".

Definition editLinkedInPost (env : Env) (net : Net) (options : EditOptions)
  : M PostResult :=
  withRetry env
    (fun n creds => net n (edit_request options creds))
    (fun _ => mkResult true (Some (edit_postId options)) None).

(** *** Delete *)

Definition delete_request (postId : string) (creds : Credentials) : HttpRequest :=
  let encodedId := encodeURIComponent postId in
  httpsRequest ("https://api.linkedin.com/rest/posts/" +:+ encodedId)
               None
               (makeHeaders (accessToken creds))
               "DELETE".

Definition deleteLinkedInPost (env : Env) (net : Net) (postId : string)
  : M PostResult :=
  withRetry env
    (fun n creds => net n (delete_request postId creds))
    (fun _ => mkResult true (Some postId) None).

End Operations.

(* ===================================================================== *)
(** ** Vocabulary for the operations *)
(* ===================================================================== *)

Module OperationProps.
Import Js Fs Auth Poster Operations.

(** The result [withRetry] builds from a response outside 200..299. *)
Definition failure_of (resp : Response) : PostResult :=
  mkResult false None
    (Some ("HTTP " +:+ show_status (status resp) +:+ ": " +:+ body resp)).

Definition is_2xx (resp : Response) : bool :=
  (200 <=? status resp) && (status resp <? 300).

(** What [withRetry] makes of the response it ends on. *)
Definition outcome_of (onSuccess : Response -> PostResult) (resp : Response)
  : PostResult :=
  if is_2xx resp then onSuccess resp else failure_of resp.

(** Every character of [s] is unreserved or is [%]. *)
Fixpoint url_safe (s : string) : bool :=
  match s with
  | EmptyString => true
  | String c s' => (unreserved c || Ascii.eqb c "%") && url_safe s'
  end.

Definition hex_value (c : ascii) : nat :=
  let n := nat_of_ascii c in
  if (n <=? 57)%nat then (n - 48)%nat else (n - 55)%nat.

(** Percent-decoding, the inverse of [encodeURIComponent]. *)
Fixpoint percent_decode (s : string) : string :=
  match s with
  | EmptyString => EmptyString
  | String c rest =>
      if Ascii.eqb c "%" then
        match rest with
        | String h (String l rest') =>
            String (ascii_of_nat (16 * hex_value h + hex_value l))
                   (percent_decode rest')
        | _ => String c (percent_decode rest)
        end
      else String c (percent_decode rest)
  end.

End OperationProps.

(* ===================================================================== *)
(** ** cli.ts: the delete command *)
(* ===================================================================== *)

Module Cli.
Import Js Fs Auth Poster Operations.

(** What the command writes. *)
Inductive Line : Type :=
  | Out (s : string)            (* console.log(s) *)
  | OutJson (v : JSON)          (* console.log(JSON.stringify(v)) *)
  | Err (s : string)            (* console.error(s) *)
  | ErrThrown (e : JsError)     (* console.error("❌ Error:", err) *)
  | DeleteHelp.                 (* printDeleteHelp() *)

(** How a handler ends: [process.exit(code)], a normal return, or a throw. *)
Inductive Ended : Type :=
  | Exits (code : Z)
  | Returns
  | Throws (e : JsError).

Record DeleteArgs : Type := mkDeleteArgs {
  del_postId : option string;
  del_json : bool
}.

(** A parser returns its options, or ends the process after some lines. *)
Inductive Parse (A : Type) : Type :=
  | Parsed (a : A)
  | Stopped (code : Z) (lines : list Line).
Arguments Parsed {A} a.
Arguments Stopped {A} code lines.

(** The loop of [parseDeleteArgs] from the argument at [i] on; [args[++i]]
    past the end is [undefined]. *)
Fixpoint parseDeleteArgs_from (args : list string) (postId : option string)
    (json : bool) : Parse DeleteArgs :=
  match args with
  | [] => Parsed (mkDeleteArgs postId json)
  | a :: rest =>
      if String.eqb a "-h" || String.eqb a "--help" then Stopped 0 [DeleteHelp]
      else if String.eqb a "--id" then
        match rest with
        | v :: rest' =>
            if negb (str_truthy v)
            then Stopped 1 [Err "Error: --id requires a post ID"]
            else parseDeleteArgs_from rest' (Some v) json
        | [] => Stopped 1 [Err "Error: --id requires a post ID"]
        end
      else if String.eqb a "--json" then parseDeleteArgs_from rest postId true
      else Stopped 1 [Err ("Unknown option: " +:+ a); DeleteHelp]
  end.

Definition parseDeleteArgs (args : list string) : Parse DeleteArgs :=
  parseDeleteArgs_from args None false.

(** The properties [JSON.stringify] finds on a result. *)
Definition result_json (result : PostResult) : JSON :=
  JObj ([("success", JBool (success result))]
        ++ match postId result with Some p => [("postId", JStr p)] | None => [] end
        ++ match error result with Some e => [("error", JStr e)] | None => [] end).

(** An optional string inside a template literal. *)
Definition show_optional (s : option string) : string :=
  match s with Some s => s | None => "undefined" end.

Definition newline : string := String (ascii_of_nat 10) EmptyString.

Definition outputResult (result : PostResult) (json : bool) (action : string)
  : Ended * list Line :=
  if json then
    (if negb (success result) then Exits 1 else Returns,
     [OutJson (result_json result)])
  else if success result then
    (Returns,
     if String.eqb action "post" then
       [Out (newline +:+ "✅ Posted successfully!")]
       ++ match postId result with
          | Some p => if str_truthy p then [Out ("   Post ID: " +:+ p)] else []
          | None => []
          end
     else if String.eqb action "edit" then
       [Out (newline +:+ "✅ Post updated successfully!")]
     else if String.eqb action "delete" then
       [Out (newline +:+ "✅ Post deleted successfully!")]
     else [])
  else
    (Exits 1,
     [Err (newline +:+ "❌ Failed to " +:+ action +:+ ": "
           +:+ show_optional (error result))]).

Definition fail (message : string) (json : bool) : Ended * list Line :=
  (Exits 1,
   [if json
    then OutJson (JObj [("success", JBool false); ("error", JStr message)])
    else Err message]).

Definition handleDelete (env : Env) (net : Net) (args : list string) (w : World)
  : (Ended * list Line) * World :=
  match parseDeleteArgs args with
  | Stopped code lines => ((Exits code, lines), w)
  | Parsed opts =>
      match loadCredentials (credentialsFile w) with
      | Thrown e => ((Throws e, []), w)
      | Normal None =>
          (fail "❌ Authentication required. Run 'linkedin-agent auth' first."
                (del_json opts), w)
      | Normal (Some _) =>
          match del_postId opts with
          | None => (fail "Error: --id is required." (del_json opts), w)
          | Some id =>
              if negb (str_truthy id)
              then (fail "Error: --id is required." (del_json opts), w)
              else
                let announced :=
                  if negb (del_json opts)
                  then [Out (newline +:+ "🗑️ Deleting post " +:+ id +:+ "...")]
                  else [] in
                match deleteLinkedInPost env net id w with
                | (Thrown e, w') => ((Throws e, announced), w')
                | (Normal result, w') =>
                    let '(ended, lines) :=
                      outputResult result (del_json opts) "delete" in
                    ((ended, announced ++ lines), w')
                end
          end
      end
  end.

(** The [delete] case of the command switch: the handler, and the [catch]
    that reports what it throws.  A handler that returns leaves nothing to
    run, and the process ends with status 0. *)
Definition main_delete (env : Env) (net : Net) (commandArgs : list string)
    (w : World) : (Z * list Line) * World :=
  match handleDelete env net commandArgs w with
  | ((Exits code, lines), w') => ((code, lines), w')
  | ((Returns, lines), w') => ((0, lines), w')
  | ((Throws e, lines), w') => ((1, lines ++ [ErrThrown e]), w')
  end.

End Cli.

(* ===================================================================== *)
(** ** Vocabulary for the delete command *)
(* ===================================================================== *)

Module CliProps.
Import Js Fs Auth Poster Operations Cli.

(** The argument lists that name a post: anything, then [--id] and its
    value, then only [--json]. *)
Definition names_post (args : list string) (id : string) : Prop :=
  exists (pre : list string) (k : nat),
    args = pre ++ ["--id"; id] ++ repeat "--json" k.

(** The parser gives an identifier to delete. *)
Definition parsed_id (args : list string) : option string :=
  match parseDeleteArgs args with
  | Parsed opts => del_postId opts
  | Stopped _ _ => None
  end.

(** The API that answers every request with a given status. *)
Definition net_always (code : Z) : Net :=
  fun _ _ => Normal (mkResponse code "" []).

End CliProps.

(* ===================================================================== *)
(** ** scraper.ts: profile URLs and the collection phase of a run *)
(* ===================================================================== *)

Module Sync.
Import Js Fs Scraper.

(** The class [[^/?]]. *)
Definition is_name_char (c : ascii) : bool :=
  negb (Ascii.eqb c "/" || Ascii.eqb c "?").

(** What a greedy [[^/?]+] or [[^/?]*] consumes at the head of [s]. *)
Fixpoint take_name (s : string) : string :=
  match s with
  | EmptyString => EmptyString
  | String c s' => if is_name_char c then String c (take_name s') else EmptyString
  end.

(** The regular expression [/linkedin\.com\/in\/([^/?]+)/] tried at the head
    of [s]. *)
Definition profile_here (s : string) : option string :=
  match strip_prefix "linkedin.com/in/" s with
  | Some rest =>
      match take_name rest with
      | EmptyString => None
      | name => Some name
      end
  | None => None
  end.

(** The same regular expression applied to a string: its leftmost match. *)
Fixpoint match_profile (s : string) : option string :=
  match profile_here s with
  | Some name => Some name
  | None =>
      match s with
      | EmptyString => None
      | String _ s' => match_profile s'
      end
  end.

(** [s.replace(/\/$/, "")]: a slash at the very end is dropped. *)
Fixpoint drop_final_slash (s : string) : string :=
  match s with
  | EmptyString => EmptyString
  | String c EmptyString => if Ascii.eqb c "/" then EmptyString else s
  | String c s' => String c (drop_final_slash s')
  end.

Definition extractUsernameFromUrl (profileUrl : string) : Completion string :=
  match match_profile profileUrl with
  | None => Thrown (Error ("Invalid LinkedIn profile URL: " +:+ profileUrl))
  | Some name => Normal (drop_final_slash name)
  end.

(** [activityUrl] in [getLinkedInPosts]. *)
Definition activityUrl (username : string) : string :=
  "https://www.linkedin.com/in/" +:+ username +:+ "/recent-activity/all/".

(** *** The collection phase: hook and scroll loop side by side *)

(** The responses whose handler ran before [newPosts] is taken, in the order
    in which their bodies became available, and how many of them had been
    folded into [allPosts] when [shouldStop] is called in pass [i]. *)
Record Arrivals : Type := mkArrivals {
  processed : list Response;
  seen_by : nat -> nat
}.

(** [allPosts] as [shouldStop] finds it in pass [i]. *)
Definition allPosts_at (a : Arrivals) (i : nat) : JsMap string LinkedInPost :=
  accumulate (take (seen_by a i) (processed a)).

(** [postLimit ? () => allPosts.size >= postLimit : undefined] *)
Definition shouldStop_of (a : Arrivals) (postLimit : option nat)
  : option (nat -> bool) :=
  match postLimit with
  | Some (S n) => Some (fun i => (S n <=? map_size (allPosts_at a i))%nat)
  | _ => None
  end.

(** [options.maxScrolls || 100] *)
Definition maxScrolls_of (maxScrolls : option nat) : nat :=
  match maxScrolls with
  | Some (S n) => S n
  | _ => 100%nat
  end.

(** From [const allPosts = new Map()] to [newPosts]: the scroll loop runs
    while the hook folds responses; a rejection of the loop leaves
    [getLinkedInPosts] through its [finally]; otherwise [newPosts] is taken
    from all that was folded. *)
Definition collectNewPosts (scrollHeight : nat -> Completion Z)
    (scrollDown : nat -> Completion unit) (maxScrolls postLimit : option nat)
    (a : Arrivals) (fuel : nat)
  : option (Completion (list LinkedInPost) * Loop * Exit) :=
  match autoScroll scrollHeight scrollDown (maxScrolls_of maxScrolls)
                   (shouldStop_of a postLimit) fuel with
  | None => None
  | Some (st, Failed e) => Some (Thrown e, st, Failed e)
  | Some (st, why) =>
      Some (Normal (newPosts_of (accumulate (processed a)) postLimit), st, why)
  end.

End Sync.

(* ===================================================================== *)
(** ** Vocabulary for URLs and runs *)
(* ===================================================================== *)

Module RunProps.
Import Js Fs Scraper Sync.

Fixpoint all_name_chars (s : string) : bool :=
  match s with
  | EmptyString => true
  | String c s' => is_name_char c && all_name_chars s'
  end.

(** [s] is empty or begins with [/] or [?]. *)
Definition no_leading_name_char (s : string) : bool :=
  match s with
  | EmptyString => true
  | String c _ => negb (is_name_char c)
  end.


(** A world in which everything is granted: the port is free, the token
    endpoint and the userinfo endpoint answer. *)
Definition granting_auth_env : Authorize.AuthEnv :=
  Authorize.mkAuthEnv Props.granting_env None
    (fun _ _ => Normal (Auth.mkReply 200 "{}"))
    (fun _ => Normal "person-1").

Definition fresh_world : Auth.World := Auth.mkWorld FileMissing 0 0 [].

(** A run in which one response, carrying one commentary item, had been
    folded before the first pass of the scroll loop. *)
Definition one_arrival : Arrivals :=
  mkArrivals [voyager Props.commentary_payload] (fun _ => 1%nat).

End RunProps.

(* ===================================================================== *)
(** ** Maps in insertion order, keyed by strings *)
(* ===================================================================== *)

Section StringMaps.
Import Js Fs Scraper Props.
Context {V : Type}.
Implicit Types (m : JsMap string V) (k : string) (v : V).

Lemma map_set_absent k v m :
  ~ In k (map_keys m) -> map_set String.eqb k v m = m ++ [(k, v)].
Proof.
  induction m as [|[k' v'] rest IH]; cbn; intros Hk; [reflexivity|].
  destruct (String.eqb_spec k' k) as [->|Hne]; [tauto|].
  rewrite IH; tauto.
Qed.

Lemma map_set_keys_present k v m :
  In k (map_keys m) -> map_keys (map_set String.eqb k v m) = map_keys m.
Proof.
  induction m as [|[k' v'] rest IH]; cbn; intros Hk; [tauto|].
  destruct (String.eqb_spec k' k) as [->|Hne]; [reflexivity|].
  cbn. f_equal. apply IH. destruct Hk as [Hk|Hk]; [congruence|exact Hk].
Qed.

Lemma map_set_keys_in k v m k0 :
  In k0 (map_keys (map_set String.eqb k v m)) <-> In k0 (map_keys m) \/ k0 = k.
Proof.
  destruct (in_dec String.string_dec k (map_keys m)) as [Hin|Hout].
  - rewrite map_set_keys_present by exact Hin. split; [tauto|].
    intros [?| ->]; assumption.
  - rewrite map_set_absent by exact Hout. unfold map_keys.
    rewrite map_app, in_app_iff. cbn. intuition congruence.
Qed.

Lemma map_set_NoDup k v m :
  List.NoDup (map_keys m) -> List.NoDup (map_keys (map_set String.eqb k v m)).
Proof.
  intros Hnd. destruct (in_dec String.string_dec k (map_keys m)) as [Hin|Hout].
  - now rewrite map_set_keys_present.
  - rewrite map_set_absent by exact Hout. unfold map_keys. rewrite map_app. cbn.
    apply List.NoDup_app; [exact Hnd | repeat constructor; intros [] |].
    intros a Ha [<-|[]]. exact (Hout Ha).
Qed.

(** With the key present, [set] rewrites the entry in place. *)
Lemma map_set_present k v m :
  List.NoDup (map_keys m) -> In k (map_keys m) ->
  map_set String.eqb k v m
  = map (fun e => if String.eqb (fst e) k then (fst e, v) else e) m.
Proof.
  induction m as [|[k' v'] rest IH]; cbn; intros Hnd Hk; [tauto|].
  apply List.NoDup_cons_iff in Hnd as [Hk' Hnd].
  destruct (String.eqb_spec k' k) as [->|Hne].
  - f_equal. symmetry. rewrite <- (map_id rest) at 2. apply map_ext_in.
    intros [k1 v1] Hin. cbn.
    destruct (String.eqb_spec k1 k) as [->|]; [|reflexivity].
    exfalso. apply Hk'. change k with (fst (k, v1)). now apply in_map.
  - f_equal. apply IH; [exact Hnd|]. destruct Hk as [Hk|Hk]; [congruence|exact Hk].
Qed.

(** The entries of a map after [set]. *)
Lemma map_set_entries k v m e :
  List.NoDup (map_keys m) -> In e (map_set String.eqb k v m) ->
  e = (k, v) \/ (In e m /\ fst e <> k).
Proof.
  induction m as [|[k' v'] rest IH]; cbn; intros Hnd He.
  - destruct He as [<-|[]]. now left.
  - apply List.NoDup_cons_iff in Hnd as [Hk' Hnd].
    destruct (String.eqb_spec k' k) as [->|Hne].
    + destruct He as [<-|He]; [now left|]. right. split; [now right|].
      intros <-. apply Hk'. now apply in_map.
    + destruct He as [<-|He]; [right; split; [now left|exact Hne]|].
      destruct (IH Hnd He) as [->|[Hin Hfst]]; [now left|].
      right. split; [now right|exact Hfst].
Qed.

Lemma map_has_false k m :
  map_has String.eqb k m = false -> ~ In k (map_keys m).
Proof.
  unfold map_has. induction m as [|[k' v'] rest IH]; cbn; [tauto|].
  destruct (String.eqb_spec k' k) as [->|Hne]; [discriminate|].
  intros Hrest [Heq|Hin]; [congruence|]. now apply IH.
Qed.

End StringMaps.

(* ===================================================================== *)
(** ** The record extractor *)
(* ===================================================================== *)

Section Extractor.
Import Js Fs Scraper Props.

Lemma commentary_step_skip countsMap item :
  is_commentary_item item = false -> commentary_step countsMap item = Continue.
Proof.
  unfold is_commentary_item, commentary_step.
  destruct (commentary_of item) as [c|]; [intros ->|]; reflexivity.
Qed.

Lemma commentary_loop_skip countsMap items posts :
  Forall (fun item => is_commentary_item item = false) items ->
  commentary_loop countsMap items posts = (posts, Normal tt).
Proof.
  induction 1 as [|item rest Hitem _ IH]; simpl; [reflexivity|].
  now rewrite (commentary_step_skip _ _ Hitem).
Qed.

Lemma extractPosts_total data : exists posts, extractPosts data = Normal posts.
Proof.
  unfold extractPosts.
  destruct (extractPosts_try data []) as [posts [u|e]]; eauto.
Qed.

Lemma extractPosts_lacking data :
  lacks_commentary data -> extractPosts data = Normal [].
Proof.
  unfold lacks_commentary, items_of, extractPosts, extractPosts_try.
  destruct (get "included" (Some data)) as [[| | | |included|]|]; try reflexivity.
  intros H. now rewrite (commentary_loop_skip _ _ _ H).
Qed.

(** C8.  Whatever the payload, [extractPosts] completes normally: nothing
    escapes its [try]/[catch].  And a payload without a commentary item (one
    that is not an object, has no [included] array, or whose items carry no
    text body) yields no record. *)
Theorem extractPosts_never_raises_and_empty_without_commentary :
  forall data : JSON,
    (exists posts, extractPosts data = Normal posts)
    /\ (lacks_commentary data -> extractPosts data = Normal []).
Proof.
  intros data. split; [apply extractPosts_total | apply extractPosts_lacking].
Qed.

(** Payloads that are no objects, or have no [included] array. *)
Example extractPosts_not_an_object :
  extractPosts (JNum 5) = Normal [] /\ extractPosts JNull = Normal []
  /\ extractPosts (JArr [commentary_item_1]) = Normal []
  /\ extractPosts (JObj [("included", JStr "none")]) = Normal [].
Proof. repeat split. Qed.

(** A commentary item whose entity reference names no activity is skipped. *)
Example extractPosts_no_activity :
  extractPosts (JObj [("included",
      JArr [JObj [("entityUrn", JStr "urn:li:comment:(activity:,42)");
                  ("commentary", JObj [("text", JObj [("text", JStr "x")])])]])])
  = Normal [].
Proof. reflexivity. Qed.

Lemma extractPosts_never_raises_and_empty_without_commentary_witness :
  lacks_commentary counts_payload /\ extractPosts counts_payload = Normal [].
Proof.
  assert (H : lacks_commentary counts_payload).
  { unfold lacks_commentary. simpl. repeat constructor. }
  split; [exact H|].
  exact (proj2 (extractPosts_never_raises_and_empty_without_commentary counts_payload) H).
Defined.

End Extractor.

(* ===================================================================== *)
(** ** The accumulator across payloads *)
(* ===================================================================== *)

Section Accumulator.
Import Js Fs Scraper Props.

(** Commentary and counts in one payload are combined. *)
Example extractPosts_same_payload :
  extractPosts (JObj [("included", JArr [commentary_item_1; counts_item_1])])
  = Normal [ {| id := "urn:li:activity:1"; text := JStr "hello";
                publishedAt := JStr "2d";
                numLikes := JNum 5; numComments := JNum 2; numShares := JNum 1;
                url := "https://www.linkedin.com/feed/update/urn:li:activity:1/" |} ].
Proof. reflexivity. Qed.

(** A commentary item whose entity reference is not a string makes [match]
    throw; the records pushed before it are returned. *)
Example extractPosts_throw_keeps_earlier :
  extractPosts (JObj [("included",
      JArr [commentary_item_1;
            JObj [("entityUrn", JNum 7);
                  ("commentary", JObj [("text", JObj [("text", JStr "x")])])];
            commentary_item_1])])
  = Normal [text_only_record "1" commentary_item_1 (JStr "hello")].
Proof. reflexivity. Qed.

Lemma map_get_set_other {K V} (keq : K -> K -> bool) (q u : K) (v : V) m :
  map_get keq q m = None -> keq u q = false ->
  map_get keq q (map_set keq u v m) = None.
Proof.
  induction m as [|[k' v'] rest IH]; simpl; intros Hget Hne.
  - now rewrite Hne.
  - destruct (keq k' q) eqn:Hq; [discriminate|].
    destruct (keq k' u); simpl; rewrite Hq; auto.
Qed.

Lemma counts_step_other urn countsMap item :
  is_counts_item_for urn item = false ->
  map_get same_value_zero (JStr urn) countsMap = None ->
  map_get same_value_zero (JStr urn) (counts_step countsMap item) = None.
Proof.
  unfold is_counts_item_for, counts_step.
  generalize (get "urn" (Some item)) as ou.
  generalize (strict_eq_str (get "$type" (Some item)) SocialActivityCounts) as b.
  intros [|] [u|] Hnot Hget; cbn [andb] in *; try exact Hget.
  destruct (truthy (Some u)); [|exact Hget].
  apply map_get_set_other; [exact Hget|].
  destruct u; simpl; auto.
Qed.

Lemma build_countsMap_other urn items :
  Forall (fun item => is_counts_item_for urn item = false) items ->
  map_get same_value_zero (JStr urn) (build_countsMap items) = None.
Proof.
  unfold build_countsMap. intros H.
  assert (Hm : map_get same_value_zero (JStr urn) (@map_new JSON Counts.t) = None)
    by reflexivity.
  revert Hm. generalize (@map_new JSON Counts.t).
  induction H as [|item rest Hitem _ IH]; simpl; intros m Hm.
  - exact Hm.
  - apply IH. now apply counts_step_other.
Qed.

(** The second loop on a commentary item of activity [A] whose payload has no
    counts for it. *)
Lemma commentary_step_text_only countsMap item commentary s A :
  commentary_of item = Some commentary ->
  truthy (Some commentary) = true ->
  dashUrn_of item = JStr s ->
  match_activity s = Some A ->
  map_get same_value_zero (JStr ("urn:li:activity:" +:+ A)) countsMap = None ->
  commentary_step countsMap item = Push (text_only_record A item commentary).
Proof.
  intros Hc Ht Hd Hm Hget. unfold commentary_step.
  rewrite Hc, Ht, Hd. cbn [negb dashUrn_match]. rewrite Hm, Hget. reflexivity.
Qed.

Lemma commentary_loop_app_skip countsMap pre rest posts :
  Forall (fun item => is_commentary_item item = false) pre ->
  commentary_loop countsMap (pre ++ rest) posts = commentary_loop countsMap rest posts.
Proof.
  induction 1 as [|item pre' Hitem _ IH]; simpl; [reflexivity|].
  now rewrite (commentary_step_skip _ _ Hitem).
Qed.

Lemma onResponse_voyager allPosts data :
  onResponse allPosts (voyager data)
  = match extractPosts data with
    | Normal posts => fst (collect posts allPosts)
    | Thrown _ => allPosts
    end.
Proof. reflexivity. Qed.

Lemma collect_nil allPosts : fst (collect [] allPosts) = allPosts.
Proof. reflexivity. Qed.

Lemma collect_single post allPosts :
  str_truthy (id post) = true -> truthy (Some (text post)) = true ->
  map_has String.eqb (id post) allPosts = false ->
  fst (collect [post] allPosts) = allPosts ++ [(id post, post)].
Proof.
  intros Hid Ht Hnew. cbn [collect]. rewrite Hid, Ht, Hnew. cbn [andb negb].
  rewrite (map_set_absent _ _ _ (map_has_false _ _ Hnew)).
  destruct (text_substring (text post)); reflexivity.
Qed.

Lemma extractPosts_text_only data pre suf item commentary s A :
  get "included" (Some data) = Some (JArr (pre ++ item :: suf)) ->
  Forall (fun it => is_commentary_item it = false) pre ->
  Forall (fun it => is_commentary_item it = false) suf ->
  Forall (fun it => is_counts_item_for ("urn:li:activity:" +:+ A) it = false)
         (pre ++ item :: suf) ->
  commentary_of item = Some commentary ->
  truthy (Some commentary) = true ->
  dashUrn_of item = JStr s ->
  match_activity s = Some A ->
  extractPosts data = Normal [text_only_record A item commentary].
Proof.
  intros Hinc Hpre Hsuf Hcounts Hc Ht Hd Hm.
  unfold extractPosts, extractPosts_try. rewrite Hinc.
  rewrite (commentary_loop_app_skip _ _ _ _ Hpre). cbn [commentary_loop].
  rewrite (commentary_step_text_only _ _ _ _ _ Hc Ht Hd Hm
             (build_countsMap_other _ _ Hcounts)).
  now rewrite (commentary_loop_skip _ _ _ Hsuf).
Qed.

(** *** Payloads that carry several posts *)

Import MoreProps PayloadProps.

Lemma commentary_step_kind countsMap item :
  commentary_step countsMap item
  = match kind_of item with
    | KSkip => Continue
    | KRecord a t => Push (joined_record a item t (counts_in countsMap a))
    | KThrow => Raise (TypeError "dashUrn.match is not a function")
    end.
Proof.
  unfold commentary_step, kind_of, counts_in, joined_record.
  destruct (commentary_of item) as [commentary|]; [|reflexivity].
  destruct (truthy (Some commentary)); cbn [negb]; [|reflexivity].
  destruct (dashUrn_of item); cbn [dashUrn_match]; try reflexivity.
  destruct (match_activity s); reflexivity.
Qed.

Lemma kind_of_record item commentary s A :
  commentary_of item = Some commentary ->
  truthy (Some commentary) = true ->
  dashUrn_of item = JStr s ->
  match_activity s = Some A ->
  kind_of item = KRecord A commentary.
Proof.
  intros Hc Ht Hd Hm. unfold kind_of. now rewrite Hc, Ht, Hd, Hm.
Qed.

Lemma kind_of_record_truthy item a t :
  kind_of item = KRecord a t -> truthy (Some t) = true.
Proof.
  unfold kind_of. destruct (commentary_of item) as [c|]; [|discriminate].
  destruct (truthy (Some c)) eqn:Ht; cbn [negb]; [|discriminate].
  destruct (dashUrn_of item); try discriminate.
  destruct (match_activity s); [|discriminate].
  now intros [= _ <-].
Qed.

(** The records of a payload, as the loop pushes them. *)
Lemma extractPosts_items data :
  extractPosts data
  = Normal (fst (commentary_loop (build_countsMap (items_of data))
                   (items_of data) [])).
Proof.
  unfold extractPosts, extractPosts_try, items_of.
  destruct (get "included" (Some data)) as [[| | | |included|]|]; try reflexivity.
  now destruct (commentary_loop _ included []) as [posts [u|e]].
Qed.

(** Every record the loop pushes is the record of one of its items. *)
Lemma commentary_loop_records countsMap items : forall posts,
  exists more,
    fst (commentary_loop countsMap items posts) = posts ++ more
    /\ Forall (fun p => exists item a t,
                 In item items /\ kind_of item = KRecord a t
                 /\ p = joined_record a item t (counts_in countsMap a)) more.
Proof.
  induction items as [|item items IH]; intros posts; cbn [commentary_loop].
  - exists []. rewrite app_nil_r. split; [reflexivity|constructor].
  - rewrite commentary_step_kind. destruct (kind_of item) as [|a t|] eqn:Hk.
    + destruct (IH posts) as (more & -> & Hmore). exists more.
      split; [reflexivity|].
      eapply List.Forall_impl; [|exact Hmore].
      intros p (it & a & t & Hin & Hkind & ->). exists it, a, t. now split; [right|].
    + destruct (IH (posts ++ [joined_record a item t (counts_in countsMap a)]))
        as (more & -> & Hmore).
      exists (joined_record a item t (counts_in countsMap a) :: more).
      rewrite <- app_assoc. split; [reflexivity|].
      constructor.
      * exists item, a, t. now split; [left|].
      * eapply List.Forall_impl; [|exact Hmore].
        intros p (it & a' & t' & Hin & Hkind & ->). exists it, a', t'.
        now split; [right|].
    + exists []. rewrite app_nil_r. split; [reflexivity|constructor].
Qed.

(** The loop gets past items that do not throw, and pushes their records. *)
Lemma commentary_loop_reaches countsMap (P : LinkedInPost -> Prop) pre :
  Forall (fun it => kind_of it <> KThrow
                    /\ forall a t, kind_of it = KRecord a t ->
                                   P (joined_record a it t (counts_in countsMap a)))
         pre ->
  forall rest posts,
    exists mid,
      commentary_loop countsMap (pre ++ rest) posts
      = commentary_loop countsMap rest (posts ++ mid)
      /\ Forall P mid /\ (length mid <= length pre)%nat.
Proof.
  induction 1 as [|it pre [Hnt HP] _ IH]; intros rest posts.
  - exists []. rewrite app_nil_r. cbn. repeat split; [constructor|lia].
  - cbn [app commentary_loop]. rewrite commentary_step_kind.
    destruct (kind_of it) as [|a t|] eqn:Hk; [| |now contradiction Hnt].
    + destruct (IH rest posts) as (mid & -> & Hmid & Hlen).
      exists mid. cbn [length]. repeat split; [exact Hmid|lia].
    + destruct (IH rest (posts ++ [joined_record a it t (counts_in countsMap a)]))
        as (mid & -> & Hmid & Hlen).
      exists (joined_record a it t (counts_in countsMap a) :: mid).
      rewrite <- app_assoc. cbn [length app]. repeat split; [|lia].
      constructor; [now apply HP|exact Hmid].
Qed.

Lemma commentary_loop_reaches_item countsMap (P : LinkedInPost -> Prop)
    pre item suf A commentary :
  Forall (fun it => kind_of it <> KThrow
                    /\ forall a t, kind_of it = KRecord a t ->
                                   P (joined_record a it t (counts_in countsMap a)))
         pre ->
  kind_of item = KRecord A commentary ->
  exists before after,
    fst (commentary_loop countsMap (pre ++ item :: suf) [])
    = before ++ joined_record A item commentary (counts_in countsMap A) :: after
    /\ Forall P before /\ (length before <= length pre)%nat.
Proof.
  intros Hpre Hitem.
  destruct (commentary_loop_reaches countsMap P pre Hpre (item :: suf) [])
    as (mid & -> & Hmid & Hlen).
  cbn [commentary_loop app]. rewrite commentary_step_kind, Hitem.
  destruct (commentary_loop_records countsMap suf
              (mid ++ [joined_record A item commentary (counts_in countsMap A)]))
    as (more & -> & _).
  exists mid, more. rewrite <- app_assoc. repeat split; assumption.
Qed.

Lemma activity_urn_inj a b :
  "urn:li:activity:" +:+ a = "urn:li:activity:" +:+ b -> a = b.
Proof. cbv [String.append]. now intros [= ->]. Qed.

Lemma counts_in_none urn_items A :
  Forall (fun it => is_counts_item_for ("urn:li:activity:" +:+ A) it = false)
         urn_items ->
  counts_in (build_countsMap urn_items) A = Counts.zero.
Proof.
  intros H. unfold counts_in. now rewrite (build_countsMap_other _ _ H).
Qed.

(** *** What the hook stores under one identifier *)

Lemma entries_for_app k (m added : JsMap string LinkedInPost) :
  entries_for k (m ++ added) = entries_for k m ++ entries_for k added.
Proof. apply List.filter_app. Qed.

Lemma entries_for_none k (m : JsMap string LinkedInPost) :
  map_has String.eqb k m = false <-> entries_for k m = [].
Proof.
  unfold map_has, entries_for.
  induction m as [|[k' v] rest IH]; cbn [map_get List.filter fst]; [tauto|].
  destruct (String.eqb k' k); [|exact IH]. split; discriminate.
Qed.

Lemma entries_for_other k k' p (m : JsMap string LinkedInPost) :
  k' <> k -> entries_for k (m ++ [(k', p)]) = entries_for k m.
Proof.
  intros Hne. rewrite entries_for_app. cbn.
  apply String.eqb_neq in Hne. rewrite Hne. apply app_nil_r.
Qed.

Lemma entries_for_new k p (m : JsMap string LinkedInPost) :
  entries_for k m = [] -> entries_for k (m ++ [(k, p)]) = [(k, p)].
Proof.
  intros Hm. rewrite entries_for_app, Hm. cbn. now rewrite String.eqb_refl.
Qed.

(** A key that is held is never stored again. *)
Lemma collect_entries_kept k posts : forall allPosts,
  entries_for k allPosts <> [] ->
  entries_for k (fst (collect posts allPosts)) = entries_for k allPosts.
Proof.
  induction posts as [|post posts IH]; intros allPosts Hheld; cbn [collect];
    [reflexivity|].
  destruct (str_truthy (id post) && truthy (Some (text post))
            && negb (map_has String.eqb (id post) allPosts)) eqn:Hcond;
    [|now apply IH].
  apply andb_prop in Hcond as [_ Hnew]. apply negb_true_iff in Hnew.
  rewrite (map_set_absent _ _ _ (map_has_false _ _ Hnew)).
  assert (Hne : id post <> k).
  { intros E. rewrite E in Hnew. apply entries_for_none in Hnew.
    now contradiction Hheld. }
  pose proof (entries_for_other k (id post) post allPosts Hne) as Hsame.
  destruct (text_substring (text post)); cbn [fst]; [|exact Hsame].
  rewrite IH; [exact Hsame|now rewrite Hsame].
Qed.

(** A key that is not held is stored at most once, with a record that
    carries it. *)
Lemma collect_entries_new k posts : forall allPosts,
  entries_for k allPosts = [] ->
  entries_for k (fst (collect posts allPosts)) = []
  \/ exists p, In p posts /\ id p = k
               /\ entries_for k (fst (collect posts allPosts)) = [(k, p)].
Proof.
  induction posts as [|post posts IH]; intros allPosts Hnone; cbn [collect];
    [now left|].
  assert (Hrest : forall m, entries_for k m = [] ->
            entries_for k (fst (collect posts m)) = []
            \/ exists p, In p (post :: posts) /\ id p = k
                         /\ entries_for k (fst (collect posts m)) = [(k, p)]).
  { intros m Hm. destruct (IH m Hm) as [H|(p & Hin & Hid & H)]; [now left|].
    right. exists p. repeat split; auto. now right. }
  destruct (str_truthy (id post) && truthy (Some (text post))
            && negb (map_has String.eqb (id post) allPosts)) eqn:Hcond;
    [|now apply Hrest].
  apply andb_prop in Hcond as [_ Hnew]. apply negb_true_iff in Hnew.
  rewrite (map_set_absent _ _ _ (map_has_false _ _ Hnew)).
  destruct (String.eq_dec (id post) k) as [Hid|Hne].
  - right. exists post. split; [now left|]. split; [exact Hid|].
    assert (Hone : entries_for k (allPosts ++ [(id post, post)]) = [(k, post)])
      by (rewrite Hid; now apply entries_for_new).
    destruct (text_substring (text post)); cbn [fst]; [|exact Hone].
    rewrite collect_entries_kept; [exact Hone|now rewrite Hone].
  - pose proof (entries_for_other k (id post) post allPosts Hne) as Hsame.
    rewrite Hnone in Hsame.
    destruct (text_substring (text post)); cbn [fst]; [now apply Hrest|now left].
Qed.

Lemma collect_entries_absent k posts allPosts :
  entries_for k allPosts = [] ->
  Forall (fun p => id p <> k) posts ->
  entries_for k (fst (collect posts allPosts)) = [].
Proof.
  intros Hnone Hposts.
  destruct (collect_entries_new k posts allPosts Hnone)
    as [H|(p & Hin & Hid & _)]; [exact H|].
  rewrite List.Forall_forall in Hposts. now contradiction (Hposts p Hin).
Qed.

(** The hook reaches a record when those before it carry other identifiers
    and texts that are strings, and stores it when its identifier is new. *)
Lemma collect_entries_reached k record before after : forall allPosts,
  entries_for k allPosts = [] ->
  Forall (fun p => id p <> k /\ exists t, text p = JStr t) before ->
  id record = k -> str_truthy k = true -> truthy (Some (text record)) = true ->
  entries_for k (fst (collect (before ++ record :: after) allPosts))
  = [(k, record)].
Proof.
  intros allPosts Hnone Hbefore Hid Hk Ht. revert allPosts Hnone.
  induction Hbefore as [|post before [Hne [t Htext]] _ IH]; intros allPosts Hnone;
    cbn [app collect].
  - apply entries_for_none in Hnone as Hnew.
    rewrite Hid, Hk, Ht, Hnew. cbn [andb negb].
    rewrite (map_set_absent _ _ _ (map_has_false _ _ Hnew)).
    pose proof (entries_for_new k record allPosts Hnone) as Hone.
    destruct (text_substring (text record)); cbn [fst]; [|exact Hone].
    rewrite collect_entries_kept; [exact Hone|now rewrite Hone].
  - destruct (str_truthy (id post) && truthy (Some (text post))
              && negb (map_has String.eqb (id post) allPosts)) eqn:Hcond;
      [|now apply IH].
    apply andb_prop in Hcond as [_ Hnew]. apply negb_true_iff in Hnew.
    rewrite (map_set_absent _ _ _ (map_has_false _ _ Hnew)), Htext.
    cbn [text_substring]. apply IH.
    now rewrite (entries_for_other k (id post) post allPosts Hne).
Qed.

(** The records of a payload that has no commentary item of [A]. *)
Lemma records_of_other_activities data A :
  Forall (fun it => is_commentary_item_of A it = false) (items_of data) ->
  exists posts,
    extractPosts data = Normal posts
    /\ Forall (fun p => id p <> "urn:li:activity:" +:+ A) posts.
Proof.
  intros Hother. rewrite extractPosts_items.
  destruct (commentary_loop_records (build_countsMap (items_of data))
              (items_of data) []) as (more & Hloop & Hmore).
  eexists. split; [reflexivity|]. rewrite Hloop. cbn [app].
  eapply List.Forall_impl; [|exact Hmore].
  intros p (item & a & t & Hin & Hkind & ->) Hid.
  apply activity_urn_inj in Hid. subst a.
  rewrite List.Forall_forall in Hother. specialize (Hother item Hin).
  unfold is_commentary_item_of in Hother. rewrite Hkind in Hother.
  now rewrite String.eqb_refl in Hother.
Qed.

(** The records of a payload that has no counts item of [A]: a record of [A]
    has the text of a commentary item of [A] and all counters 0. *)
Lemma records_without_counts data A :
  Forall (fun it => is_counts_item_for ("urn:li:activity:" +:+ A) it = false)
         (items_of data) ->
  exists posts,
    extractPosts data = Normal posts
    /\ Forall (fun p => id p = "urn:li:activity:" +:+ A ->
                 counters_zero p
                 /\ exists item, In item (items_of data)
                                 /\ kind_of item = KRecord A (text p)) posts.
Proof.
  intros Hcounts. rewrite extractPosts_items.
  destruct (commentary_loop_records (build_countsMap (items_of data))
              (items_of data) []) as (more & Hloop & Hmore).
  eexists. split; [reflexivity|]. rewrite Hloop. cbn [app].
  eapply List.Forall_impl; [|exact Hmore].
  intros p (item & a & t & Hin & Hkind & ->) Hid.
  apply activity_urn_inj in Hid. subst a.
  rewrite (counts_in_none _ _ Hcounts).
  split; [repeat split|]. exists item. now split.
Qed.

(** The records of such a payload up to its first commentary item of [A]. *)
Lemma records_reach_commentary data A pre item suf commentary :
  Forall (fun it => is_counts_item_for ("urn:li:activity:" +:+ A) it = false)
         (items_of data) ->
  items_of data = pre ++ item :: suf ->
  Forall (fun it => leads_on A it = true) pre ->
  kind_of item = KRecord A commentary ->
  exists before after,
    extractPosts data
    = Normal (before ++ text_only_record A item commentary :: after)
    /\ Forall (fun p => id p <> "urn:li:activity:" +:+ A
                        /\ exists t, text p = JStr t) before.
Proof.
  intros Hcounts Hitems Hpre Hitem. rewrite extractPosts_items.
  pose proof (counts_in_none _ _ Hcounts) as Hzero.
  destruct (commentary_loop_reaches_item (build_countsMap (items_of data))
              (fun p => id p <> "urn:li:activity:" +:+ A
                        /\ exists t, text p = JStr t)
              pre item suf A commentary) as (before & after & Hloop & Hbefore & _).
  { eapply List.Forall_impl; [|exact Hpre].
    intros it Hlead. unfold leads_on in Hlead.
    destruct (kind_of it) as [|a t|]; [split; [discriminate|discriminate]
                                      | |discriminate Hlead].
    apply andb_prop in Hlead as [Hne Hstr]. split; [discriminate|].
    intros a' t' [= <- <-]. split.
    - intros Hid. apply activity_urn_inj in Hid. subst a.
      now rewrite String.eqb_refl in Hne.
    - destruct t; try discriminate Hstr. now eexists. }
  { exact Hitem. }
  exists before, after. split; [|exact Hbefore].
  rewrite <- Hitems in Hloop. rewrite Hloop, Hzero. reflexivity.
Qed.

Lemma holds_uncombined_after allPosts data1 data2 A acc :
  map_has String.eqb ("urn:li:activity:" +:+ A) allPosts = false ->
  Forall (fun it => is_commentary_item_of A it = false) (items_of data1) ->
  Forall (fun it => is_counts_item_for ("urn:li:activity:" +:+ A) it = false)
         (items_of data2) ->
  acc = fold_left onResponse [voyager data1; voyager data2] allPosts
  \/ acc = fold_left onResponse [voyager data2; voyager data1] allPosts ->
  holds_uncombined A data2 acc.
Proof.
  intros Hnew Hother Hcounts Hacc.
  apply entries_for_none in Hnew.
  destruct (records_of_other_activities data1 A Hother) as (posts1 & E1 & H1).
  destruct (records_without_counts data2 A Hcounts) as (posts2 & E2 & H2).
  cbn [fold_left] in Hacc. rewrite !onResponse_voyager, E1, E2 in Hacc.
  split.
  - destruct Hacc as [-> | ->].
    + pose proof (collect_entries_absent _ posts1 allPosts Hnew H1) as Hm1.
      destruct (collect_entries_new _ posts2 _ Hm1) as [H|(p & Hin & Hid & H)];
        [now left|].
      right. rewrite List.Forall_forall in H2.
      destruct (H2 p Hin Hid) as (Hzero & item & Hitem & Hkind).
      now exists p, item.
    + destruct (collect_entries_new _ posts2 allPosts Hnew)
        as [H|(p & Hin & Hid & H)].
      * left. now apply collect_entries_absent.
      * right. rewrite List.Forall_forall in H2.
        destruct (H2 p Hin Hid) as (Hzero & item & Hitem & Hkind).
        exists p, item. split; [|now split].
        rewrite collect_entries_kept; [exact H|now rewrite H].
  - intros pre suf item commentary s Hitems Hpre Hc Ht Hd Hm.
    pose proof (kind_of_record _ _ _ _ Hc Ht Hd Hm) as Hkind.
    destruct (records_reach_commentary data2 A pre item suf commentary
                Hcounts Hitems Hpre Hkind) as (before & after & E2' & Hbefore).
    rewrite E2' in E2. injection E2 as <-.
    assert (Hreach : forall m, entries_for ("urn:li:activity:" +:+ A) m = [] ->
              entries_for ("urn:li:activity:" +:+ A)
                (fst (collect (before ++ text_only_record A item commentary :: after)
                        m))
              = [("urn:li:activity:" +:+ A, text_only_record A item commentary)]).
    { intros m Hm0. apply collect_entries_reached; auto. }
    destruct Hacc as [-> | ->].
    + apply Hreach. now apply collect_entries_absent.
    + rewrite collect_entries_kept; [now apply Hreach|].
      now rewrite (Hreach allPosts Hnew).
Qed.

(** C1, as the code has it.  Let one payload carry no commentary item of
    activity [A] (whatever else it carries, counts items of [A] and posts of
    other activities included) and another carry no counts item of [A].
    After both have passed through [extractPosts] and the hook, in either
    order, an accumulator that had no record for [A] holds at most one record
    for [A]; a record it holds has the text of a commentary item of [A] from
    the second payload, and its three counters are 0: counters are read only
    from the payload that carries the commentary.  It holds exactly the
    record of the first commentary item of [A] in the second payload when
    each item before that one is passed over by the extractor or gives a
    record of another activity whose text is a string. *)
Theorem accumulator_counts_not_joined_across_payloads :
  forall (allPosts : JsMap string LinkedInPost) (data1 data2 : JSON) (A : string),
    map_has String.eqb ("urn:li:activity:" +:+ A) allPosts = false ->
    Forall (fun it => is_commentary_item_of A it = false) (items_of data1) ->
    Forall (fun it => is_counts_item_for ("urn:li:activity:" +:+ A) it = false)
           (items_of data2) ->
    holds_uncombined A data2
      (fold_left onResponse [voyager data1; voyager data2] allPosts)
    /\ holds_uncombined A data2
         (fold_left onResponse [voyager data2; voyager data1] allPosts).
Proof.
  intros allPosts data1 data2 A Hnew Hother Hcounts.
  split; eapply holds_uncombined_after; eauto.
Qed.

Lemma accumulator_counts_not_joined_across_payloads_witness :
  entries_for "urn:li:activity:1"
    (accumulate [voyager counts_with_other_post; voyager two_posts_payload])
  = [("urn:li:activity:1", text_only_record "1" commentary_item_1 (JStr "hello"))]
  /\ entries_for "urn:li:activity:1"
       (accumulate [voyager two_posts_payload; voyager counts_with_other_post])
     = [("urn:li:activity:1", text_only_record "1" commentary_item_1 (JStr "hello"))].
Proof.
  assert (Hother : Forall (fun it => is_commentary_item_of "1" it = false)
                          (items_of counts_with_other_post))
    by (repeat constructor).
  assert (Hcounts : Forall (fun it => is_counts_item_for "urn:li:activity:1" it
                                      = false)
                           (items_of two_posts_payload))
    by (repeat constructor).
  assert (Hpre : Forall (fun it => leads_on "1" it = true)
                        [commentary_item "2" "second"; counts_item_2])
    by (repeat constructor).
  destruct (accumulator_counts_not_joined_across_payloads
              map_new counts_with_other_post two_posts_payload "1"
              eq_refl Hother Hcounts) as [[_ H12] [_ H21]].
  split.
  - exact (H12 [commentary_item "2" "second"; counts_item_2] [] commentary_item_1
             (JStr "hello") "urn:li:fsd_update:(urn:li:activity:1,MEMBER_SHARES)"
             eq_refl Hpre eq_refl eq_refl eq_refl eq_refl).
  - exact (H21 [commentary_item "2" "second"; counts_item_2] [] commentary_item_1
             (JStr "hello") "urn:li:fsd_update:(urn:li:activity:1,MEMBER_SHARES)"
             eq_refl Hpre eq_refl eq_refl eq_refl eq_refl).
Defined.

(** Both posts of the second payload are stored, that of activity 2 with
    the counters its own payload carries for it. *)
Example accumulate_two_posts :
  map_keys (accumulate [voyager counts_with_other_post; voyager two_posts_payload])
  = ["urn:li:activity:3"; "urn:li:activity:2"; "urn:li:activity:1"]
  /\ map_get String.eqb "urn:li:activity:2"
       (accumulate [voyager counts_with_other_post; voyager two_posts_payload])
     = Some (joined_record "2" (commentary_item "2" "second") (JStr "second")
               (Counts.mk (JNum 4) (JNum 0) (JNum 0))).
Proof. split; reflexivity. Qed.

(** What the condition on the items before the commentary is for: a
    commentary item whose entity reference is a number stops the extractor,
    and the post of activity 1 that follows it is never stored. *)
Example accumulate_stopped_before_commentary :
  accumulate
    [voyager counts_payload;
     voyager (JObj [("included",
                     JArr [JObj [("entityUrn", JNum 7);
                                 ("commentary",
                                  JObj [("text", JObj [("text", JStr "x")])])];
                           commentary_item_1])])]
  = [].
Proof. reflexivity. Qed.

(** C1 as stated fails: the counts item of activity 1 arrives in one payload
    with 5 likes, its commentary in the next, and the record the accumulator
    holds for activity 1 does not carry the counters of the counts item. *)
Lemma accumulator_combines_payloads_counterexample :
  ~ holds_combined_record
      (accumulate [voyager counts_payload; voyager commentary_payload])
      "urn:li:activity:1" counts_item_1 commentary_item_1.
Proof.
  intros [post (Hfilter & _ & Hlikes & _)].
  vm_compute in Hfilter. injection Hfilter as <-.
  vm_compute in Hlikes. discriminate Hlikes.
Qed.

End Accumulator.

(* ===================================================================== *)
(** ** The pagination loop *)
(* ===================================================================== *)

Section Pagination.
Import Js Fs Scraper Props.
Local Open Scope nat_scope.

Variable scrollHeight : nat -> Completion Z.
Variable scrollDown : nat -> Completion unit.
Variable maxScrolls : nat.
Variable shouldStop : option (nat -> bool).

(** The shape of one pass. *)
Lemma iteration_cases st :
  (iteration scrollHeight scrollDown maxScrolls shouldStop st
   = Finished st ReachedMaxScrolls
   /\ maxScrolls <= i st)
  \/ (iteration scrollHeight scrollDown maxScrolls shouldStop st
      = Finished st ReachedPostLimit
      /\ i st < maxScrolls)
  \/ (exists e,
        iteration scrollHeight scrollDown maxScrolls shouldStop st
        = Finished st (Failed e)
        /\ i st < maxScrolls)
  \/ (exists h n,
        iteration scrollHeight scrollDown maxScrolls shouldStop st
        = Finished (mkLoop (i st) (previousHeight st) n
                           (measured st ++ [h]) (scrolled st))
                   NoMorePosts
        /\ i st < maxScrolls
        /\ observe (previousHeight st, noChangeCount st) h = (h, n) /\ 3 <= n)
  \/ (exists h n e,
        iteration scrollHeight scrollDown maxScrolls shouldStop st
        = Finished (mkLoop (i st) h n (measured st ++ [h]) (scrolled st))
                   (Failed e)
        /\ i st < maxScrolls
        /\ observe (previousHeight st, noChangeCount st) h = (h, n) /\ n < 3)
  \/ (exists h n,
        iteration scrollHeight scrollDown maxScrolls shouldStop st
        = Running (mkLoop (S (i st)) h n (measured st ++ [h]) (S (scrolled st)))
        /\ i st < maxScrolls
        /\ observe (previousHeight st, noChangeCount st) h = (h, n) /\ n < 3).
Proof.
  unfold iteration, observe. cbn [fst snd].
  destruct (Nat.ltb_spec (i st) maxScrolls) as [Hlt|Hge]; [|left; auto].
  destruct (stop_requested shouldStop (i st)); [right; left; auto|].
  destruct (scrollHeight (i st)) as [h|e]; [|right; right; left; eauto].
  right; right; right.
  assert (Hnext : forall n, n < 3 ->
            (if (h =? previousHeight st)%Z then (h, S (noChangeCount st))
             else (h, 0)) = (h, n) ->
            (exists h' n' e,
                match scrollDown (i st) with
                | Normal _ =>
                    Running (mkLoop (S (i st)) h n (measured st ++ [h])
                                    (S (scrolled st)))
                | Thrown e0 =>
                    Finished (mkLoop (i st) h n (measured st ++ [h]) (scrolled st))
                             (Failed e0)
                end
                = Finished (mkLoop (i st) h' n' (measured st ++ [h']) (scrolled st))
                           (Failed e)
                /\ i st < maxScrolls
                /\ (if (h' =? previousHeight st)%Z
                    then (h', S (noChangeCount st)) else (h', 0)) = (h', n')
                /\ n' < 3)
            \/ (exists h' n',
                  match scrollDown (i st) with
                  | Normal _ =>
                      Running (mkLoop (S (i st)) h n (measured st ++ [h])
                                      (S (scrolled st)))
                  | Thrown e0 =>
                      Finished (mkLoop (i st) h n (measured st ++ [h])
                                       (scrolled st))
                               (Failed e0)
                  end
                  = Running (mkLoop (S (i st)) h' n' (measured st ++ [h'])
                                    (S (scrolled st)))
                  /\ i st < maxScrolls
                  /\ (if (h' =? previousHeight st)%Z
                      then (h', S (noChangeCount st)) else (h', 0)) = (h', n')
                  /\ n' < 3)).
  { intros n Hn Hobs. destruct (scrollDown (i st)) as [u|e].
    - right. exists h, n. auto.
    - left. exists h, n, e. auto. }
  destruct (h =? previousHeight st)%Z eqn:E.
  - destruct (Nat.leb_spec 3 (S (noChangeCount st))) as [H3|H3].
    + left. exists h, (S (noChangeCount st)). rewrite E. auto.
    + right. apply Hnext; [exact H3|reflexivity].
  - right. apply Hnext; [lia|reflexivity].
Qed.

Lemma loop_bounded n : forall st extra,
  i st + n = maxScrolls ->
  exists st' why,
    loop scrollHeight scrollDown maxScrolls shouldStop (S n + extra) st
    = Some (st', why)
    /\ match why with
       | ReachedMaxScrolls => i st' = maxScrolls
       | _ => i st' < maxScrolls
       end
    /\ length (measured st') <= length (measured st) + n
    /\ scrolled st' <= scrolled st + n.
Proof.
  induction n as [|n IH]; intros st extra Hn; cbn [Nat.add loop].
  - destruct (iteration_cases st)
      as [[-> _]|[[-> ?]|[(e&_&?)|[(h&k&_&?&_)|[(h&k&e&_&?&_)|(h&k&_&?&_)]]]]];
      try lia.
    exists st, ReachedMaxScrolls. repeat split; lia.
  - destruct (iteration_cases st)
      as [[-> ?]|[[-> ?]|[(e&->&?)|[(h&k&->&?&_)|[(h&k&e&->&?&_)|(h&k&->&?&_)]]]]];
      try lia.
    + exists st, ReachedPostLimit. repeat split; lia.
    + exists st, (Failed e). repeat split; lia.
    + eexists _, NoMorePosts. split; [reflexivity|]. cbn. rewrite length_app. cbn.
      repeat split; lia.
    + eexists _, (Failed e). split; [reflexivity|]. cbn. rewrite length_app. cbn.
      repeat split; lia.
    + destruct (IH (mkLoop (S (i st)) h k (measured st ++ [h]) (S (scrolled st)))
                   extra) as (st' & why & Hrun & Hwhy & Hm & Hs); [cbn; lia|].
      exists st', why. split; [exact Hrun|]. split; [exact Hwhy|].
      cbn in Hm, Hs. rewrite length_app in Hm. cbn in Hm. lia.
Qed.

Lemma loop_more_fuel fuel : forall st extra r,
  loop scrollHeight scrollDown maxScrolls shouldStop fuel st = Some r ->
  loop scrollHeight scrollDown maxScrolls shouldStop (fuel + extra) st = Some r.
Proof.
  induction fuel as [|fuel IH]; intros st extra r; cbn [Nat.add loop];
    [discriminate|].
  destruct (iteration scrollHeight scrollDown maxScrolls shouldStop st); auto.
Qed.

Lemma autoScroll_comes_to_an_end :
  exists st why,
    forall extra,
      autoScroll scrollHeight scrollDown maxScrolls shouldStop (S maxScrolls + extra)
      = Some (st, why).
Proof.
  destruct (loop_bounded maxScrolls loop_init 0 eq_refl) as (st & why & Hrun & _).
  exists st, why. intros extra. unfold autoScroll.
  rewrite Nat.add_0_r in Hrun. now apply loop_more_fuel.
Qed.

(** C7.  Whatever the page answers to the measurements and to the scrolls
    (a height that grows at every measurement, or a rejection), whatever
    [shouldStop] answers and whatever the cap, [autoScroll] comes to an end:
    [maxScrolls + 1] passes of its [for] statement suffice, and more fuel
    changes nothing.  At its end it has taken at most [maxScrolls]
    measurements and scrolled at most [maxScrolls] times, and the loop body
    was entered at most [maxScrolls] times. *)
Theorem autoScroll_terminates_within_cap :
  exists st why,
    (forall extra,
        autoScroll scrollHeight scrollDown maxScrolls shouldStop (S maxScrolls + extra)
        = Some (st, why))
    /\ match why with
       | ReachedMaxScrolls => i st = maxScrolls
       | _ => i st < maxScrolls
       end
    /\ length (measured st) <= maxScrolls
    /\ scrolled st <= maxScrolls.
Proof.
  destruct (loop_bounded maxScrolls loop_init 0 eq_refl)
    as (st & why & Hrun & Hwhy & Hm & Hs).
  exists st, why. cbn in Hm, Hs. repeat split; auto.
  intros extra. unfold autoScroll.
  rewrite Nat.add_0_r in Hrun. now apply loop_more_fuel.
Qed.

Lemma track_snoc ms h : track (ms ++ [h]) = observe (track ms) h.
Proof. unfold track. now rewrite fold_left_app. Qed.

Lemma fst_observe pn h : fst (observe pn h) = h.
Proof. unfold observe. now destruct (h =? fst pn)%Z. Qed.

Lemma fst_track_take ms : forall j x,
  (0%Z :: ms) !! j = Some x -> fst (track (take j ms)) = x.
Proof.
  intros [|j] x H.
  - cbn in H. injection H as <-. reflexivity.
  - cbn in H. rewrite (take_S_r _ _ _ H), track_snoc. apply fst_observe.
Qed.

Lemma no_change_counts ms j :
  no_change_at ms j ->
  snd (track (take (S j) ms)) = S (snd (track (take j ms))).
Proof.
  intros (a & Hj & Hprev).
  rewrite (take_S_r _ _ _ Hj), track_snoc.
  pose proof (fst_track_take ms j a Hprev) as Hfst.
  unfold observe. rewrite Hfst, Z.eqb_refl. reflexivity.
Qed.

Lemma quiet_snoc ms h :
  quiet ms -> snd (track (ms ++ [h])) < 3 -> quiet (ms ++ [h]).
Proof.
  intros Hq Hlast k Hk. rewrite length_app in Hk. cbn in Hk.
  destruct (Nat.eq_dec k (S (length ms))) as [->|Hne].
  - rewrite take_ge; [exact Hlast|]. rewrite length_app. cbn. lia.
  - rewrite take_app_le by lia. apply Hq. lia.
Qed.

Lemma loop_final fuel : forall st st' why,
  loop_invariant st ->
  loop scrollHeight scrollDown maxScrolls shouldStop fuel st = Some (st', why) ->
  (forall k, k < length (measured st') -> snd (track (take k (measured st'))) < 3)
  /\ match why with
     | NoMorePosts =>
         3 <= snd (track (measured st'))
         /\ length (measured st') = S (i st') /\ scrolled st' = i st'
     | _ => snd (track (measured st')) < 3
     end.
Proof.
  induction fuel as [|fuel IH]; intros st st' why (Hi & Hs & Ht & Hq);
    cbn [loop]; [discriminate|].
  assert (Hwhole : snd (track (measured st)) < 3).
  { specialize (Hq (length (measured st)) (le_n _)). now rewrite take_ge in Hq. }
  destruct (iteration_cases st)
    as [[-> _]|[[-> _]|[(e&->&_)|[(h&n&->&_&Hobs&Hn)
         |[(h&n&e&->&_&Hobs&Hn)|(h&n&->&_&Hobs&Hn)]]]]].
  - intros [= <- <-]. split; [intros k Hk; apply Hq; lia | exact Hwhole].
  - intros [= <- <-]. split; [intros k Hk; apply Hq; lia | exact Hwhole].
  - intros [= <- <-]. split; [intros k Hk; apply Hq; lia | exact Hwhole].
  - intros [= <- <-]. cbn [measured i scrolled]. rewrite length_app. cbn [length].
    split.
    + intros k Hk. rewrite take_app_le by lia. apply Hq. lia.
    + rewrite track_snoc, Ht, Hobs. cbn [snd]. repeat split; lia.
  - intros [= <- <-]. cbn [measured i scrolled]. rewrite length_app. cbn [length].
    split.
    + intros k Hk. rewrite take_app_le by lia. apply Hq. lia.
    + rewrite track_snoc, Ht, Hobs. exact Hn.
  - apply IH. unfold loop_invariant. cbn [measured i scrolled previousHeight
      noChangeCount]. rewrite length_app. cbn [length].
    assert (Htr : track (measured st ++ [h]) = (h, n))
      by now rewrite track_snoc, Ht.
    repeat split; try lia; [exact Htr|].
    apply quiet_snoc; [exact Hq|]. now rewrite Htr.
Qed.

Lemma loop_init_invariant : loop_invariant loop_init.
Proof.
  repeat split. intros k Hk. cbn in Hk. assert (k = 0) as -> by lia. cbn. lia.
Qed.

(** C2, as the code has it.  [autoScroll] always comes to an end, and if in
    its run three measurements in a row each found the height of the
    measurement before it (before the first: the initial 0), then the third of
    them is the run's last measurement: the loop ends there as converged,
    without asking for more content after it.  For a page that is not empty
    this takes four measurements in a row with one value. *)
Theorem autoScroll_stops_at_third_unchanged_measurement :
  exists st why,
    (forall extra,
        autoScroll scrollHeight scrollDown maxScrolls shouldStop (S maxScrolls + extra)
        = Some (st, why))
    /\ forall j,
         no_change_at (measured st) j ->
         no_change_at (measured st) (S j) ->
         no_change_at (measured st) (S (S j)) ->
         why = NoMorePosts
         /\ length (measured st) = S (S (S j))
         /\ i st = S (S j)
         /\ scrolled st = S (S j).
Proof.
  destruct autoScroll_comes_to_an_end as (st & why & Hrun).
  exists st, why. split; [exact Hrun|].
  intros j H0 H1 H2.
  specialize (Hrun 0). unfold autoScroll in Hrun.
  destruct (loop_final _ _ _ _ loop_init_invariant Hrun) as [Hprefix Hend].
  pose proof (no_change_counts _ _ H0) as C0.
  pose proof (no_change_counts _ _ H1) as C1.
  pose proof (no_change_counts _ _ H2) as C2.
  destruct H2 as (a & Hlook & _).
  apply lookup_lt_Some in Hlook.
  destruct (Nat.eq_dec (length (measured st)) (S (S (S j)))) as [Hlen|Hlen].
  - rewrite take_ge in C2 by lia.
    destruct why; try lia. destruct Hend as (_ & Hl & Hsc). repeat split; lia.
  - specialize (Hprefix (S (S (S j)))). lia.
Qed.

End Pagination.

Section PaginationRuns.
Import Js Fs Scraper Props.
Local Open Scope nat_scope.

(** A page that stays at height 100: the loop measures four times and asks
    for more content three times before it gives up. *)
Example autoScroll_constant_page :
  autoScroll (fun _ => Normal 100%Z) (fun _ => Normal tt) 10 None 11
  = Some (mkLoop 3 100 3 [100; 100; 100; 100]%Z 3, NoMorePosts).
Proof. reflexivity. Qed.

(** An empty page, height 0 as [previousHeight] starts: three measurements. *)
Example autoScroll_empty_page :
  autoScroll (fun _ => Normal 0%Z) (fun _ => Normal tt) 10 None 11
  = Some (mkLoop 2 0 3 [0; 0; 0]%Z 2, NoMorePosts).
Proof. reflexivity. Qed.

(** A page that grows at every measurement: the cap ends the loop. *)
Example autoScroll_growing_page :
  autoScroll (fun n => Normal (Z.of_nat (S n) * 100)%Z) (fun _ => Normal tt) 4 None 5
  = Some (mkLoop 4 400 0 [100; 200; 300; 400]%Z 4, ReachedMaxScrolls).
Proof. reflexivity. Qed.

(** The page goes away during the third measurement. *)
Example autoScroll_page_closed :
  autoScroll (fun n => if n =? 2 then Thrown (Error "Target closed")
                       else Normal (Z.of_nat (S n) * 100)%Z)
             (fun _ => Normal tt) 10 None 11
  = Some (mkLoop 2 200 0 [100; 200]%Z 2, Failed (Error "Target closed")).
Proof. reflexivity. Qed.

Lemma autoScroll_stops_at_third_unchanged_measurement_witness :
  exists st why,
    autoScroll (fun _ => Normal 100%Z) (fun _ => Normal tt) 10 None 11 = Some (st, why)
    /\ no_change_at (measured st) 1
    /\ no_change_at (measured st) 2
    /\ no_change_at (measured st) 3
    /\ why = NoMorePosts
    /\ length (measured st) = 4
    /\ scrolled st = 3.
Proof.
  destruct (autoScroll_stops_at_third_unchanged_measurement
              (fun _ => Normal 100%Z) (fun _ => Normal tt) 10 None)
    as (st & why & Hrun & Hstop).
  exists st, why.
  pose proof (Hrun 0) as H0. vm_compute in H0. injection H0 as <- <-.
  assert (N1 : no_change_at [100; 100; 100; 100]%Z 1) by (exists 100%Z; auto).
  assert (N2 : no_change_at [100; 100; 100; 100]%Z 2) by (exists 100%Z; auto).
  assert (N3 : no_change_at [100; 100; 100; 100]%Z 3) by (exists 100%Z; auto).
  destruct (Hstop 1 N1 N2 N3) as (Hwhy & Hlen & _ & Hscrolled).
  split; [reflexivity|]. repeat split; assumption.
Defined.

(** C2 as stated fails: on the page that stays at height 100 the first three
    measurements are equal, and the loop goes on to scroll and to measure a
    fourth time. *)
Lemma autoScroll_third_equal_measurement_counterexample :
  autoScroll (fun _ => Normal 100%Z) (fun _ => Normal tt) 10 None 11
  = Some (mkLoop 3 100 3 [100; 100; 100; 100]%Z 3, NoMorePosts)
  /\ ~ stops_at_third_equal_measurement (mkLoop 3 100 3 [100; 100; 100; 100]%Z 3).
Proof.
  split; [reflexivity|]. intros H.
  specialize (H 0 100%Z eq_refl eq_refl eq_refl). discriminate H.
Qed.

End PaginationRuns.

(* ===================================================================== *)
(** ** The merge with the persisted collection *)
(* ===================================================================== *)

Section Merge.
Import Js Fs Scraper Props.
Implicit Types (m : JsMap string LinkedInPost) (P N posts : list LinkedInPost).

Lemma set_all_snoc posts p m :
  set_all (posts ++ [p]) m = map_set String.eqb (id p) p (set_all posts m).
Proof. unfold set_all. now rewrite fold_left_app. Qed.

Lemma set_all_keys_in posts : forall m k,
  In k (map_keys (set_all posts m)) <-> In k (map_keys m) \/ In k (map id posts).
Proof.
  induction posts as [|p posts IH]; intros m k; cbn; [tauto|].
  change (In k (map_keys (set_all posts (map_set String.eqb (id p) p m)))
          <-> In k (map_keys m) \/ id p = k \/ In k (map id posts)).
  rewrite IH, map_set_keys_in. intuition congruence.
Qed.

Lemma set_all_NoDup posts : forall m,
  List.NoDup (map_keys m) -> List.NoDup (map_keys (set_all posts m)).
Proof.
  induction posts as [|p posts IH]; intros m Hnd; [exact Hnd|].
  apply (IH (map_set String.eqb (id p) p m)). now apply map_set_NoDup.
Qed.

Lemma map_set_keyed p m : keyed m -> keyed (map_set String.eqb (id p) p m).
Proof.
  unfold keyed. induction m as [|[k' v'] rest IH]; cbn; intros Hm e He.
  - destruct He as [<-|[]]. reflexivity.
  - destruct (String.eqb_spec k' (id p)) as [->|Hne].
    + destruct He as [<-|He]; [reflexivity|]. apply Hm. now right.
    + destruct He as [<-|He]; [apply (Hm (k', v')); now left|].
      apply IH; [|exact He]. intros e' He'. apply Hm. now right.
Qed.

Lemma set_all_keyed posts : forall m, keyed m -> keyed (set_all posts m).
Proof.
  induction posts as [|p posts IH]; intros m Hm; [exact Hm|].
  apply (IH (map_set String.eqb (id p) p m)). now apply map_set_keyed.
Qed.

Lemma keyed_ids m : keyed m -> map id (map_values m) = map_keys m.
Proof.
  unfold map_values, map_keys. intros Hm. rewrite map_map. apply map_ext_in.
  intros e He. symmetry. now apply Hm.
Qed.

(** Where every identifier is already a key, [set_all] rewrites entries in
    place. *)
Lemma set_all_present posts : forall m,
  List.NoDup (map_keys m) -> incl (map id posts) (map_keys m) ->
  set_all posts m = map (overwrite posts) m.
Proof.
  induction posts as [|p posts IH]; intros m Hnd Hincl.
  - cbn. now rewrite map_id.
  - change (set_all (p :: posts) m)
      with (set_all posts (map_set String.eqb (id p) p m)).
    assert (Hp : In (id p) (map_keys m)) by (apply Hincl; now left).
    rewrite IH.
    + rewrite (map_set_present _ _ _ Hnd Hp), map_map. reflexivity.
    + now apply map_set_NoDup.
    + intros k Hk. apply map_set_keys_in. left. apply Hincl. now right.
Qed.

Lemma fst_overwrite posts : forall e, fst (overwrite posts e) = fst e.
Proof.
  induction posts as [|p posts IH]; intros e; [reflexivity|].
  change (overwrite (p :: posts) e) with (overwrite posts (overwrite1 e p)).
  rewrite IH. unfold overwrite1. now destruct (String.eqb (fst e) (id p)).
Qed.

(** The entries [set_all posts] leaves are those a second pass of the same
    posts leaves alone. *)
Lemma set_all_settled posts : forall m e,
  List.NoDup (map_keys m) -> In e (set_all posts m) -> overwrite posts e = e.
Proof.
  induction posts as [|p posts IH] using rev_ind; intros m e Hnd He;
    [reflexivity|].
  rewrite set_all_snoc in He. unfold overwrite. rewrite fold_left_app. cbn.
  fold (overwrite posts e).
  destruct (map_set_entries _ _ _ _ (set_all_NoDup posts m Hnd) He)
    as [->|[Hin Hfst]].
  - unfold overwrite1. rewrite fst_overwrite. cbn. now rewrite String.eqb_refl.
  - rewrite (IH m e Hnd Hin). unfold overwrite1.
    now destruct (String.eqb_spec (fst e) (id p)).
Qed.

Lemma set_all_twice posts m :
  List.NoDup (map_keys m) ->
  set_all posts (set_all posts m) = set_all posts m.
Proof.
  intros Hnd. rewrite set_all_present.
  - rewrite <- (map_id (set_all posts m)) at 2. apply map_ext_in.
    intros e He. now apply (set_all_settled posts m).
  - now apply set_all_NoDup.
  - intros k Hk. apply set_all_keys_in. now right.
Qed.

(** Reading a keyed map's values back into a map gives the map again. *)
Lemma set_all_values X : forall m,
  keyed X -> List.NoDup (map_keys X) ->
  (forall k, In k (map_keys X) -> ~ In k (map_keys m)) ->
  set_all (map_values X) m = m ++ X.
Proof.
  induction X as [|[k v] X IH]; intros m Hkeyed Hnd Hdisj; cbn.
  - now rewrite app_nil_r.
  - cbn in Hnd. apply List.NoDup_cons_iff in Hnd as [Hk Hnd].
    assert (Hkv : k = id v) by (apply (Hkeyed (k, v)); now left).
    change (set_all (map_values X) (map_set String.eqb (id v) v m)
            = m ++ (k, v) :: X).
    rewrite map_set_absent by (rewrite <- Hkv; apply Hdisj; now left).
    rewrite IH.
    + rewrite <- Hkv, <- app_assoc. reflexivity.
    + intros e He. apply Hkeyed. now right.
    + exact Hnd.
    + intros k' Hk'. unfold map_keys. rewrite map_app, in_app_iff. cbn.
      intros [Hm|[<-|[]]]; [|rewrite <- Hkv in Hk'; exact (Hk Hk')].
      apply (Hdisj k'); [now right|exact Hm].
Qed.

Lemma set_all_entries posts : forall m e,
  List.NoDup (map_keys m) -> In e (set_all posts m) ->
  (In e m /\ ~ In (fst e) (map id posts))
  \/ (In (snd e) posts /\ fst e = id (snd e)).
Proof.
  induction posts as [|p posts IH]; intros m e Hnd He; [left; split; auto|].
  destruct (IH (map_set String.eqb (id p) p m) e (map_set_NoDup _ _ _ Hnd) He)
    as [[Hin Hout]|[Hin Hid]].
  - destruct (map_set_entries _ _ _ _ Hnd Hin) as [->|[Hm Hne]].
    + right. split; [now left|reflexivity].
    + left. split; [exact Hm|]. cbn. intros [Heq|Hrest]; [congruence|tauto].
  - right. split; [now right|exact Hid].
Qed.

Lemma merged_map_wf P N :
  keyed (set_all N (set_all P map_new))
  /\ List.NoDup (map_keys (set_all N (set_all P map_new))).
Proof.
  split.
  - apply set_all_keyed, set_all_keyed. intros e [].
  - apply set_all_NoDup, set_all_NoDup. constructor.
Qed.

(** C4.  Merging the records [N] of a run into the persisted collection [P]:
    the identifiers of the result are those of [P] together with those of
    [N], the result holds one record per identifier, every record whose
    identifier occurs in [N] is a record of [N], and every other record is a
    record of [P]. *)
Theorem mergePosts_union_new_wins :
  forall P N : list LinkedInPost,
    let merged := mergePosts (FileJson P) N in
    id_set merged = id_set P ∪ id_set N
    /\ List.NoDup (map id merged)
    /\ (forall p, In p merged -> In (id p) (map id N) -> In p N)
    /\ (forall p, In p merged -> ~ In (id p) (map id N) -> In p P).
Proof.
  intros P N merged. subst merged. unfold mergePosts. cbn [existsSync readJson].
  destruct (merged_map_wf P N) as [Hkeyed Hnd].
  assert (Hentry : forall p, In p (map_values (set_all N (set_all P map_new))) ->
            (In p P /\ ~ In (id p) (map id N)) \/ In p N).
  { intros p Hp. apply in_map_iff in Hp as ([k p'] & Hsnd & He). cbn in Hsnd.
    subst p'. pose proof (Hkeyed _ He) as Hk. cbn in Hk.
    destruct (set_all_entries N _ _ (set_all_NoDup P map_new (List.NoDup_nil _)) He)
      as [[Hin Hout]|[Hin _]]; [|now right].
    left. cbn in Hout. rewrite Hk in Hout. split; [|exact Hout].
    destruct (set_all_entries P map_new _ (List.NoDup_nil _) Hin) as [[[] _]|[HP _]].
    exact HP. }
  repeat split.
  - unfold id_set. rewrite (keyed_ids _ Hkeyed). apply set_eq. intros k.
    rewrite elem_of_union, !elem_of_list_to_set, !list_elem_of_In.
    rewrite !set_all_keys_in. cbn. tauto.
  - now rewrite (keyed_ids _ Hkeyed).
  - intros p Hp HN. destruct (Hentry p Hp) as [[_ Hout]|Hin]; tauto.
  - intros p Hp HN. destruct (Hentry p Hp) as [[HP _]|Hin]; [exact HP|].
    exfalso. apply HN. now apply in_map.
Qed.

Lemma mergePosts_union_new_wins_witness :
  In (post_of "1" 9) (mergePosts (FileJson first_run) second_run)
  /\ In (id (post_of "1" 9)) (map id second_run)
  /\ In (post_of "1" 9) second_run.
Proof.
  assert (H1 : In (post_of "1" 9) (mergePosts (FileJson first_run) second_run))
    by (left; reflexivity).
  assert (H2 : In (id (post_of "1" 9)) (map id second_run))
    by (left; reflexivity).
  split; [exact H1|]. split; [exact H2|].
  exact (proj1 (proj2 (proj2 (mergePosts_union_new_wins first_run second_run)))
           _ H1 H2).
Defined.

(** The scenario: the second run's values replace those of activity 1 and
    add activity 2. *)
Example mergePosts_scenario :
  mergePosts (FileJson first_run) second_run = [post_of "1" 9; post_of "2" 0].
Proof. reflexivity. Qed.

(** C5.  Merging the same run twice gives what merging it once gives: the
    collection written after the first merge, merged again with the same
    records, is written back unchanged, in the same order. *)
Theorem mergePosts_idempotent :
  forall P N : list LinkedInPost,
    mergePosts (FileJson (mergePosts (FileJson P) N)) N
    = mergePosts (FileJson P) N.
Proof.
  intros P N. unfold mergePosts. cbn [existsSync readJson].
  destruct (merged_map_wf P N) as [Hkeyed Hnd].
  rewrite (set_all_values _ map_new Hkeyed Hnd) by (intros k _ []).
  cbn [map_new app]. f_equal. apply set_all_twice.
  apply set_all_NoDup. constructor.
Qed.

(** *** The first run of a day, and a file that cannot be read *)

Example mergePosts_no_file N : mergePosts FileMissing N = N.
Proof. reflexivity. Qed.

Example mergePosts_corrupted_file N : mergePosts FileUnparseable N = N.
Proof. reflexivity. Qed.

Lemma collect_wf posts : forall allPosts,
  keyed allPosts -> List.NoDup (map_keys allPosts) ->
  keyed (fst (collect posts allPosts))
  /\ List.NoDup (map_keys (fst (collect posts allPosts))).
Proof.
  induction posts as [|post posts IH]; intros allPosts Hk Hnd; cbn [collect];
    [auto|].
  destruct (_ && _); [|auto].
  destruct (text_substring (text post)).
  - apply IH; [now apply map_set_keyed | now apply map_set_NoDup].
  - cbn [fst]. split; [now apply map_set_keyed | now apply map_set_NoDup].
Qed.

Lemma onResponse_wf allPosts response :
  keyed allPosts -> List.NoDup (map_keys allPosts) ->
  keyed (onResponse allPosts response)
  /\ List.NoDup (map_keys (onResponse allPosts response)).
Proof.
  intros Hk Hnd. unfold onResponse.
  destruct (includes "/voyager/api" _); [|auto].
  destruct (includes "json" _); [|auto].
  destruct (resp_json response) as [json|e]; [|auto].
  destruct (extractPosts json) as [posts|e]; [|auto].
  now apply collect_wf.
Qed.

Lemma accumulate_wf responses :
  keyed (accumulate responses) /\ List.NoDup (map_keys (accumulate responses)).
Proof.
  unfold accumulate.
  assert (H0 : keyed (@map_new string LinkedInPost)
               /\ List.NoDup (map_keys (@map_new string LinkedInPost))).
  { split; [intros e []|constructor]. }
  revert H0. generalize (@map_new string LinkedInPost).
  induction responses as [|r responses IH]; intros m [Hk Hnd]; cbn [fold_left];
    [auto|].
  apply IH. now apply onResponse_wf.
Qed.

Lemma take_wf n m :
  keyed m -> List.NoDup (map_keys m) ->
  keyed (take n m) /\ List.NoDup (map_keys (take n m)).
Proof.
  intros Hk Hnd. split.
  - intros e He. apply Hk. rewrite <- (take_drop n m). apply in_or_app. now left.
  - unfold map_keys in *. rewrite <- (take_drop n m), map_app in Hnd.
    now apply List.NoDup_app_remove_r in Hnd.
Qed.

(** The records of a run are the values of a map keyed by their identifiers. *)
Lemma newPosts_of_values responses postLimit :
  exists X,
    newPosts_of (accumulate responses) postLimit = map_values X
    /\ keyed X /\ List.NoDup (map_keys X).
Proof.
  destruct (accumulate_wf responses) as [Hk Hnd].
  unfold newPosts_of. destruct postLimit as [[|n]|].
  - exists (accumulate responses). auto.
  - exists (take (S n) (accumulate responses)). split.
    + unfold map_values. apply firstn_map.
    + now apply take_wf.
  - exists (accumulate responses). auto.
Qed.

(** X11.  Idempotence on the first run of a day: with no file, or with a
    file that cannot be read, the records of the run are written as they are,
    and merging the same records into what was written changes nothing. *)
Lemma first_run_merge_idempotent responses postLimit file :
  existsSync file = false \/ file = FileUnparseable ->
  let N := newPosts_of (accumulate responses) postLimit in
  mergePosts (FileJson (mergePosts file N)) N = mergePosts file N.
Proof.
  intros Hfile N.
  assert (Hfirst : mergePosts file N = N).
  { destruct Hfile as [Hmissing| ->]; [|reflexivity].
    destruct file; try discriminate Hmissing. reflexivity. }
  rewrite Hfirst. unfold mergePosts. cbn [existsSync readJson].
  rewrite set_all_twice by constructor.
  destruct (newPosts_of_values responses postLimit) as (X & HX & Hk & Hnd).
  fold N in HX. rewrite HX.
  rewrite (set_all_values X map_new Hk Hnd) by (intros k _ []).
  reflexivity.
Qed.

End Merge.

(* ===================================================================== *)
(** ** The credential store and the token authority *)
(* ===================================================================== *)

Section Credentials.
Import Js Fs Auth Props.

(** C9, as the code has it.  Whatever the state of the credentials file,
    [loadCredentials] completes normally.  It answers [null] when the file is
    missing and when it cannot be read or parsed; a file that parses is
    answered with its parsed value as it is, whatever fields it holds. *)
Theorem loadCredentials_never_raises :
  forall (A : Type) (HA : Nullable A) (file : FileState A),
    exists v,
      loadCredentials file = Normal v
      /\ match file with
         | FileMissing | FileUnparseable => v = null
         | FileJson parsed => v = parsed
         end.
Proof.
  intros A HA [| |parsed]; eexists; (split; [reflexivity|]); reflexivity.
Qed.

(** C9 as stated fails: a file whose JSON is an object with a single field
    is returned as that object, neither [null] nor a full record. *)
Lemma loadCredentials_partial_record_counterexample :
  ~ loads_none_or_full partial_file.
Proof.
  intros (v & Hload & Hv). cbv in Hload. injection Hload as <-.
  destruct Hv as [Hnull|Hfull]; [discriminate Hnull|].
  vm_compute in Hfull. discriminate Hfull.
Qed.

Lemma count_refreshes_app tr1 tr2 :
  count_refreshes (tr1 ++ tr2) = (count_refreshes tr1 + count_refreshes tr2)%nat.
Proof. unfold count_refreshes. now rewrite List.filter_app, length_app. Qed.

Lemma count_calls_app tr1 tr2 :
  count_calls (tr1 ++ tr2) = (count_calls tr1 + count_calls tr2)%nat.
Proof. unfold count_calls. now rewrite List.filter_app, length_app. Qed.

(** What a refresh leaves in the trace: its own entry, and on success the
    save of the updated record. *)
Lemma refreshAccessToken_trace env creds w :
  (exists e,
      fst (refreshAccessToken env creds w) = Thrown e
      /\ trace (snd (refreshAccessToken env creds w)) = trace w ++ [EvRefresh creds])
  \/ (exists updated,
        fst (refreshAccessToken env creds w) = Normal updated
        /\ trace (snd (refreshAccessToken env creds w))
           = trace w ++ [EvRefresh creds; EvSave updated]
        /\ credentialsFile (snd (refreshAccessToken env creds w))
           = FileJson (Some updated)).
Proof.
  unfold refreshAccessToken, bind, log, throw, post_form, now_seconds,
    saveCredentials, ret.
  cbn [trace credentialsFile clock_reads posts_sent].
  destruct (str_truthy (refreshToken creds)); cbn [negb];
    [|left; eexists; split; reflexivity].
  destruct (httpsPost env _ _ _) as [resp|e]; [|left; eexists; split; reflexivity].
  destruct (parse_tokens env (body resp)) as [tokens|e];
    [|left; eexists; split; reflexivity].
  destruct (str_truthy (access_token tokens)); cbn [negb];
    [|left; eexists; split; reflexivity].
  right. eexists. cbn [fst snd trace credentialsFile].
  rewrite <- app_assoc. repeat split.
Qed.

Lemma refreshAccessToken_counts env creds w :
  count_refreshes (trace (snd (refreshAccessToken env creds w)))
  = S (count_refreshes (trace w))
  /\ count_calls (trace (snd (refreshAccessToken env creds w)))
     = count_calls (trace w).
Proof.
  destruct (refreshAccessToken_trace env creds w)
    as [(e & _ & ->)|(u & _ & -> & _)];
    rewrite count_refreshes_app, count_calls_app; cbn; lia.
Qed.

(** C6.  With a record stored, [getValidCredentials] refreshes exactly when
    the record's [expiresAt] is less than the current time in whole seconds
    plus 86400: then it is the refresh of the stored record, and otherwise it
    is the stored record, with file and trace untouched.  With no record
    stored it throws. *)
Theorem getValidCredentials_refreshes_iff_within_one_day :
  forall (env : Env) (w : World),
    (forall creds,
        credentialsFile w = FileJson (Some creds) ->
        let now := date_now env (clock_reads w) / 1000 in
        let r := getValidCredentials env w in
        (count_refreshes (trace (snd r)) = S (count_refreshes (trace w))
         <-> expiresAt creds < now + 86400)
        /\ (expiresAt creds < now + 86400 ->
            r = refreshAccessToken env creds (snd (now_seconds env w)))
        /\ (~ expiresAt creds < now + 86400 ->
            fst r = Normal creds
            /\ credentialsFile (snd r) = credentialsFile w
            /\ trace (snd r) = trace w))
    /\ (loadCredentials (credentialsFile w) = Normal None ->
        getValidCredentials env w
        = (Thrown (Error "No credentials found. Run 'linkedin-agent auth' first."), w)).
Proof.
  intros env w. split.
  - intros creds Hfile now r. subst r now.
    unfold getValidCredentials, bind, load. rewrite Hfile.
    cbn [loadCredentials existsSync readJson negb now_seconds].
    destruct (Z.ltb_spec (expiresAt creds)
                (date_now env (clock_reads w) / 1000 + 86400)) as [Hlt|Hge].
    + split; [|split; [reflexivity|lia]].
      split; [intros _; exact Hlt|intros _].
      exact (proj1 (refreshAccessToken_counts env creds _)).
    + cbn [ret fst snd trace credentialsFile].
      split; [split; intros Hc; lia|].
      split; [intros Hc; lia|]. intros _. repeat split; auto.
  - intros Hnone. unfold getValidCredentials, bind, load. now rewrite Hnone.
Qed.

Lemma getValidCredentials_refreshes_iff_within_one_day_witness :
  fst (getValidCredentials granting_env (world_of creds_fresh)) = Normal creds_fresh
  /\ count_refreshes
       (trace (snd (getValidCredentials granting_env (world_of creds_near)))) = 1%nat.
Proof.
  split.
  - destruct (proj1 (getValidCredentials_refreshes_iff_within_one_day
                       granting_env (world_of creds_fresh)) creds_fresh eq_refl)
      as (_ & _ & H).
    apply H. vm_compute. intros Hc. discriminate Hc.
  - destruct (proj1 (getValidCredentials_refreshes_iff_within_one_day
                       granting_env (world_of creds_near)) creds_near eq_refl)
      as (H & _ & _).
    apply (proj2 H). vm_compute. reflexivity.
Defined.

End Credentials.

(* ===================================================================== *)
(** ** The retrying executor *)
(* ===================================================================== *)

Section Executor.
Import Js Fs Auth Poster Props.
Local Open Scope nat_scope.


Lemma getValidCredentials_calls env w :
  count_calls (trace (snd (getValidCredentials env w))) = count_calls (trace w).
Proof.
  unfold getValidCredentials, bind, load, throw, ret, now_seconds.
  destruct (loadCredentials (credentialsFile w)) as [[creds|]|e]; try reflexivity.
  destruct (expiresAt creds <? _)%Z; [|reflexivity].
  exact (proj2 (refreshAccessToken_counts env creds _)).
Qed.


Lemma call_trace fn creds w :
  fst (call fn creds w) = fn (count_calls (trace w)) creds
  /\ trace (snd (call fn creds w)) = trace w ++ [EvCall (count_calls (trace w)) creds].
Proof. split; reflexivity. Qed.





Lemma unauthorized_once_first : returns_status unauthorized_once 0 401.
Proof. intros creds. eexists. split; reflexivity. Qed.




Lemma refreshAccessToken_no_token env creds w :
  refreshToken creds = EmptyString ->
  refreshAccessToken env creds w
  = (Thrown (Error "No refresh token available. Run 'linkedin-agent auth' again."),
     mkWorld (credentialsFile w) (clock_reads w) (posts_sent w)
             (trace w ++ [EvRefresh creds])).
Proof.
  intros Htok. unfold refreshAccessToken, bind, log, throw. now rewrite Htok.
Qed.

(** C10, as the code has it.  With a stored record whose refresh token is
    empty and a call-function whose first invocation resolves with 401,
    [withRetry] does not return a result: a refresh throws and the exception
    leaves [withRetry]; the call-function is invoked at most once.  When the
    stored expiry is a day or more away the trace is one call followed by the
    forced refresh, which is what throws; when it is nearer, the refresh
    inside [getValidCredentials] throws before any call, so that the
    call-function is not invoked at all. *)
Theorem withRetry_refresh_failure_propagates :
  forall (env : Env) (fn : CallFn) (onSuccess : Poster.Response -> PostResult)
         (w : World) (creds : Credentials),
    credentialsFile w = FileJson (Some creds) ->
    refreshToken creds = EmptyString ->
    returns_status fn (count_calls (trace w)) 401 ->
    let r := withRetry env fn onSuccess w in
    fst r = Thrown (Error "No refresh token available. Run 'linkedin-agent auth' again.")
    /\ count_calls (trace (snd r)) <= count_calls (trace w) + 1
    /\ trace (snd r)
       = if (expiresAt creds <? date_now env (clock_reads w) / 1000 + 86400)%Z
         then trace w ++ [EvRefresh creds]
         else trace w ++ [EvCall (count_calls (trace w)) creds; EvRefresh creds].
Proof.
  intros env fn onSuccess w creds Hfile Htok H401 r. subst r.
  destruct (H401 creds) as (r1 & Hr1 & Hs1).
  assert (Hrun : withRetry env fn onSuccess w
    = (Thrown (Error "No refresh token available. Run 'linkedin-agent auth' again."),
       mkWorld (credentialsFile w) (S (clock_reads w)) (posts_sent w)
         (if (expiresAt creds <? date_now env (clock_reads w) / 1000 + 86400)%Z
          then trace w ++ [EvRefresh creds]
          else (trace w ++ [EvCall (count_calls (trace w)) creds])
                 ++ [EvRefresh creds]))).
  { unfold withRetry, getValidCredentials, load, bind.
    rewrite Hfile. cbn [loadCredentials existsSync readJson negb now_seconds].
    destruct (expiresAt creds <? _)%Z.
    - rewrite (refreshAccessToken_no_token _ _ _ Htok).
      cbn [credentialsFile clock_reads posts_sent trace]. now rewrite ?Hfile.
    - unfold ret, call. cbn [trace]. rewrite Hr1, Hs1. cbn [Z.eqb Pos.eqb].
      rewrite (refreshAccessToken_no_token _ _ _ Htok).
      cbn [credentialsFile clock_reads posts_sent trace]. now rewrite ?Hfile. }
  rewrite Hrun. cbn [fst snd trace].
  destruct (expiresAt creds <? _)%Z;
    rewrite <- ?app_assoc, !count_calls_app; cbn; repeat split; lia.
Qed.

Lemma withRetry_refresh_failure_propagates_witness :
  fst (withRetry granting_env unauthorized_once report_ok (world_of creds_no_refresh))
  = Thrown (Error "No refresh token available. Run 'linkedin-agent auth' again.")
  /\ count_calls
       (trace (snd (withRetry granting_env unauthorized_once report_ok
                      (world_of creds_no_refresh)))) <= 1.
Proof.
  destruct (withRetry_refresh_failure_propagates
              granting_env unauthorized_once report_ok
              (world_of creds_no_refresh) creds_no_refresh
              eq_refl eq_refl unauthorized_once_first)
    as (Hthrown & Hcalls & _).
  split; [exact Hthrown|exact Hcalls].
Defined.

(** C10 as stated fails: the stored record has no refresh token and expires
    within the hour, so the refresh inside [getValidCredentials] throws; the
    call-function, whose first invocation would be answered 401, is never
    invoked, and no refresh is forced by a 401. *)
Lemma withRetry_forced_refresh_counterexample :
  ~ forced_refresh_raises granting_env unauthorized_once report_ok
      (world_of creds_near_no_refresh).
Proof.
  intros (e & creds & _ & Htrace).
  vm_compute in Htrace. discriminate Htrace.
Qed.

(** In that world the executor throws without a single call. *)
Example withRetry_throws_before_first_call :
  withRetry granting_env unauthorized_once report_ok
            (world_of creds_near_no_refresh)
  = (Thrown (Error "No refresh token available. Run 'linkedin-agent auth' again."),
     mkWorld (FileJson (Some creds_near_no_refresh)) 1 0
             [EvRefresh creds_near_no_refresh]).
Proof. reflexivity. Qed.

(** A call-function that is always answered 403: one call, no refresh, and a
    failure that carries the status and the body. *)
Example withRetry_forbidden :
  withRetry granting_env (fun _ _ => Normal (Poster.mkResponse 403 "denied" []))
            report_ok (world_of creds_fresh)
  = (Normal (mkResult false None (Some "HTTP 403: denied")),
     mkWorld (FileJson (Some creds_fresh)) 1 0 [EvCall 0 creds_fresh]).
Proof. reflexivity. Qed.

(** Unauthorized twice: the second 401 is final. *)
Example withRetry_unauthorized_twice :
  fst (withRetry granting_env (fun _ _ => Normal (Poster.mkResponse 401 "no" []))
                 report_ok (world_of creds_fresh))
  = Normal (mkResult false None (Some "HTTP 401: no")).
Proof. reflexivity. Qed.

End Executor.

(* ===================================================================== *)
(** ** The records of the extractor *)
(* ===================================================================== *)

Section ExtractorRecords.
Import Js Fs Scraper Props MoreProps PayloadProps.

Lemma match_activity_unfold s :
  match_activity s
  = match activity_here s with
    | Some digits => Some digits
    | None =>
        match s with
        | EmptyString => None
        | String _ s' => match_activity s'
        end
    end.
Proof. destruct s; reflexivity. Qed.

Lemma take_digits_all_digits s : all_digits (take_digits s) = true.
Proof.
  induction s as [|c s IH]; cbn; [reflexivity|].
  destruct (is_digit c) eqn:E; cbn; [now rewrite E|reflexivity].
Qed.

Lemma activity_here_some s digits :
  activity_here s = Some digits ->
  str_truthy digits = true /\ all_digits digits = true.
Proof.
  unfold activity_here. destruct (strip_prefix "activity:" s) as [rest|];
    [|discriminate].
  pose proof (take_digits_all_digits rest) as Hall.
  destruct (take_digits rest) as [|c d]; [discriminate|].
  intros [= <-]. split; [reflexivity|exact Hall].
Qed.

Lemma match_activity_some s : forall digits,
  match_activity s = Some digits ->
  str_truthy digits = true /\ all_digits digits = true.
Proof.
  induction s as [|c s IH]; intros digits; rewrite match_activity_unfold.
  - destruct (activity_here "") eqn:E; [|discriminate].
    intros [= <-]. now apply (activity_here_some _ _ E).
  - destruct (activity_here (String c s)) eqn:E.
    + intros [= <-]. now apply (activity_here_some _ _ E).
    + apply IH.
Qed.

Lemma commentary_step_emits countsMap item post :
  commentary_step countsMap item = Push post -> emitted_record post.
Proof.
  unfold commentary_step.
  destruct (commentary_of item) as [commentary|]; [|discriminate].
  destruct (truthy (Some commentary)) eqn:Ht; cbn [negb]; [|discriminate].
  destruct (dashUrn_match (dashUrn_of item)) as [[digits|]|e] eqn:Hm;
    try discriminate.
  intros [= <-]. exists digits.
  unfold dashUrn_match in Hm. destruct (dashUrn_of item); try discriminate.
  injection Hm as Hm. destruct (match_activity_some _ _ Hm) as [Hne Hall].
  repeat split; assumption.
Qed.

Lemma commentary_loop_emits countsMap items : forall posts,
  Forall emitted_record posts ->
  Forall emitted_record (fst (commentary_loop countsMap items posts)).
Proof.
  induction items as [|item items IH]; intros posts Hposts; cbn [commentary_loop];
    [exact Hposts|].
  destruct (commentary_step countsMap item) as [|post|e] eqn:Hstep.
  - now apply IH.
  - apply IH. apply Forall_app. split; [exact Hposts|].
    constructor; [|constructor]. exact (commentary_step_emits _ _ _ Hstep).
  - exact Hposts.
Qed.

(** X1.  Every record that [extractPosts] returns, for whatever payload, has
    an identifier [urn:li:activity:<digits>] with at least one digit, the feed
    URL of that identifier, and a text that is truthy. *)
Theorem extractPosts_records_wellformed :
  forall data : JSON,
    exists posts,
      extractPosts data = Normal posts /\ Forall emitted_record posts.
Proof.
  intros data. unfold extractPosts, extractPosts_try.
  destruct (get "included" (Some data)) as [[| | | |included|]|];
    try (exists []; split; [reflexivity|constructor]).
  pose proof (commentary_loop_emits (build_countsMap included) included []
                (List.Forall_nil _)) as H.
  destruct (commentary_loop (build_countsMap included) included [])
    as [posts [u|e]]; exists posts; split; auto.
Qed.

Lemma take_digits_run digits rest :
  all_digits digits = true -> no_leading_digit rest = true ->
  take_digits (digits +:+ rest) = digits.
Proof.
  intros Hall Hrest. induction digits as [|c d IH].
  - change ("" +:+ rest) with rest.
    destruct rest as [|r rest']; [reflexivity|].
    cbn [no_leading_digit] in Hrest. cbn [take_digits].
    destruct (is_digit r); [discriminate Hrest|reflexivity].
  - cbn [all_digits] in Hall. apply andb_prop in Hall as [Hc Hd].
    change (String c d +:+ rest) with (String c (d +:+ rest)).
    cbn [take_digits]. rewrite Hc. now rewrite IH.
Qed.

Lemma match_activity_skip_urn_li t :
  match_activity ("urn:li:" +:+ t) = match_activity t.
Proof.
  cbv [String.append].
  do 7 (rewrite match_activity_unfold; cbn [activity_here strip_prefix Ascii.eqb
                                            Bool.eqb]).
  reflexivity.
Qed.

(** X2.  The activity reference in canonical form is read back as it is:
    in [urn:li:activity:<digits>], followed by nothing or by a character that
    is no digit, the regular expression finds exactly [<digits>].  So the
    identifier of a record, met again as an entity reference, gives the same
    identifier. *)
Theorem match_activity_canonical :
  forall digits rest : string,
    str_truthy digits = true ->
    all_digits digits = true ->
    no_leading_digit rest = true ->
    match_activity ("urn:li:activity:" +:+ digits +:+ rest) = Some digits.
Proof.
  intros digits rest Hne Hall Hrest.
  change ("urn:li:activity:" +:+ digits +:+ rest)
    with ("urn:li:" +:+ ("activity:" +:+ (digits +:+ rest))).
  rewrite match_activity_skip_urn_li, match_activity_unfold.
  unfold activity_here.
  change (strip_prefix "activity:" ("activity:" +:+ (digits +:+ rest)))
    with (Some (digits +:+ rest)).
  cbv beta iota. rewrite (take_digits_run _ _ Hall Hrest).
  destruct digits; [discriminate Hne|reflexivity].
Qed.

Lemma match_activity_canonical_witness :
  match_activity ("urn:li:activity:" +:+ "7316" +:+ ",MEMBER_SHARES)") = Some "7316".
Proof.
  apply match_activity_canonical; reflexivity.
Defined.

Lemma map_get_set_same {K V} (keq : K -> K -> bool) (k : K) (v : V) m :
  keq k k = true -> map_get keq k (map_set keq k v m) = Some v.
Proof.
  intros Hrefl. induction m as [|[k' v'] rest IH]; cbn.
  - now rewrite Hrefl.
  - destruct (keq k' k) eqn:E; cbn; now rewrite E.
Qed.

Lemma countsMap_get_kept urn u (v w : Counts.t) m :
  map_get same_value_zero (JStr urn) m = Some w ->
  same_value_zero u (JStr urn) = false ->
  map_get same_value_zero (JStr urn) (map_set same_value_zero u v m) = Some w.
Proof.
  induction m as [|[k' v'] rest IH]; cbn [map_get map_set]; intros Hget Hne;
    [discriminate|].
  destruct (same_value_zero k' (JStr urn)) eqn:Hq.
  - assert (Hu : same_value_zero k' u = false).
    { destruct k'; try discriminate Hq. cbn in Hq. apply String.eqb_eq in Hq.
      subst s. destruct u; try reflexivity. cbn in *.
      now rewrite String.eqb_sym. }
    rewrite Hu. cbn [map_get]. now rewrite Hq.
  - destruct (same_value_zero k' u); cbn [map_get]; rewrite Hq; auto.
Qed.

Lemma counts_step_kept urn countsMap item w :
  is_counts_item_for urn item = false ->
  map_get same_value_zero (JStr urn) countsMap = Some w ->
  map_get same_value_zero (JStr urn) (counts_step countsMap item) = Some w.
Proof.
  unfold is_counts_item_for, counts_step.
  generalize (get "urn" (Some item)) as ou.
  generalize (strict_eq_str (get "$type" (Some item)) SocialActivityCounts) as b.
  intros [|] [u|] Hnot Hget; cbn [andb] in *; try exact Hget.
  destruct (truthy (Some u)); [|exact Hget].
  apply countsMap_get_kept; [exact Hget|].
  destruct u; simpl; auto.
Qed.

Lemma counts_step_sets urn countsMap item :
  str_truthy urn = true ->
  is_counts_item_for urn item = true ->
  counts_step countsMap item
  = map_set same_value_zero (JStr urn) (counts_of item) countsMap.
Proof.
  unfold is_counts_item_for, counts_step, counts_of.
  generalize (get "urn" (Some item)) as ou.
  generalize (strict_eq_str (get "$type" (Some item)) SocialActivityCounts) as b.
  intros [|] [[| | |u| |]|] Hne Hc; cbn [andb] in *; try discriminate Hc.
  apply String.eqb_eq in Hc. subst u. cbn [truthy]. now rewrite Hne.
Qed.

Lemma build_countsMap_last urn l1 c l2 :
  str_truthy urn = true ->
  is_counts_item_for urn c = true ->
  Forall (fun it => is_counts_item_for urn it = false) l2 ->
  map_get same_value_zero (JStr urn) (build_countsMap (l1 ++ c :: l2))
  = Some (counts_of c).
Proof.
  intros Hne Hc Hl2. unfold build_countsMap. rewrite fold_left_app.
  cbn [fold_left]. rewrite (counts_step_sets urn _ _ Hne Hc).
  assert (H0 : map_get same_value_zero (JStr urn)
                 (map_set same_value_zero (JStr urn) (counts_of c)
                    (fold_left counts_step l1 map_new))
               = Some (counts_of c)).
  { apply map_get_set_same. cbn. apply String.eqb_refl. }
  revert H0. generalize (map_set same_value_zero (JStr urn) (counts_of c)
                           (fold_left counts_step l1 map_new)).
  induction Hl2 as [|it l2 Hit _ IH]; cbn [fold_left]; intros m Hm; [exact Hm|].
  apply IH. now apply counts_step_kept.
Qed.

(** X3.  Within one payload counts and commentary are joined, however many
    posts the payload carries.  Let the payload hold a counts item for
    activity [A], and let [c] be the last of them.  Then every record for
    [A] that [extractPosts] returns carries the counters of [c], wherever in
    [included] the counts item stands; and for every commentary item of [A]
    that the loop reaches, that is, with no item before it on which [match]
    throws, the record of that item is returned, with the counters of [c],
    after the records of the items before it. *)
Theorem extractPosts_joins_counts_of_payload :
  forall (data : JSON) (l1 l2 : list JSON) (c : JSON) (A : string),
    items_of data = l1 ++ c :: l2 ->
    is_counts_item_for ("urn:li:activity:" +:+ A) c = true ->
    Forall (fun it => is_counts_item_for ("urn:li:activity:" +:+ A) it = false) l2 ->
    (forall p, In p (extracted data) ->
               id p = "urn:li:activity:" +:+ A ->
               numLikes p = Counts.numLikes (counts_of c)
               /\ numComments p = Counts.numComments (counts_of c)
               /\ numShares p = Counts.numShares (counts_of c))
    /\ (forall (pre suf : list JSON) (item commentary : JSON) (s : string),
           items_of data = pre ++ item :: suf ->
           Forall (fun it => no_throw it = true) pre ->
           commentary_of item = Some commentary ->
           truthy (Some commentary) = true ->
           dashUrn_of item = JStr s ->
           match_activity s = Some A ->
           exists before after,
             extractPosts data
             = Normal (before
                       ++ joined_record A item commentary (counts_of c) :: after)
             /\ (length before <= length pre)%nat).
Proof.
  intros data l1 l2 c A Hsplit Hc Hl2.
  assert (Hcounts : counts_in (build_countsMap (items_of data)) A = counts_of c).
  { unfold counts_in. rewrite Hsplit.
    now rewrite (build_countsMap_last ("urn:li:activity:" +:+ A) l1 c l2
                   eq_refl Hc Hl2). }
  split.
  - intros p Hin Hid. unfold extracted in Hin.
    rewrite extractPosts_items in Hin.
    destruct (commentary_loop_records (build_countsMap (items_of data))
                (items_of data) []) as (more & Hloop & Hmore).
    rewrite Hloop in Hin. cbn [app] in Hin.
    rewrite List.Forall_forall in Hmore.
    destruct (Hmore p Hin) as (item & a & t & _ & _ & ->).
    apply activity_urn_inj in Hid. subst a. rewrite Hcounts.
    repeat split.
  - intros pre suf item commentary s Hitems Hpre Hcom Ht Hd Hm.
    pose proof (kind_of_record _ _ _ _ Hcom Ht Hd Hm) as Hkind.
    destruct (commentary_loop_reaches_item (build_countsMap (items_of data))
                (fun _ => True) pre item suf A commentary)
      as (before & after & Hloop & _ & Hlen).
    { eapply List.Forall_impl; [|exact Hpre].
      intros it Hnt. unfold no_throw in Hnt.
      split; [|trivial]. now destruct (kind_of it). }
    { exact Hkind. }
    exists before, after. split; [|exact Hlen].
    rewrite extractPosts_items. rewrite <- Hitems in Hloop.
    now rewrite Hloop, Hcounts.
Qed.

Lemma extractPosts_joins_counts_of_payload_witness :
  exists before after,
    extractPosts joined_posts_payload
    = Normal (before
              ++ joined_record "1" commentary_item_1 (JStr "hello")
                   (counts_of counts_item_1_later) :: after)
    /\ (length before <= 2)%nat.
Proof.
  assert (Hpre : Forall (fun it => no_throw it = true)
                        [counts_item_1; commentary_item "2" "second"])
    by (repeat constructor).
  exact (proj2 (extractPosts_joins_counts_of_payload
                  joined_posts_payload
                  [counts_item_1; commentary_item "2" "second"; commentary_item_1]
                  [] counts_item_1_later "1" eq_refl eq_refl (List.Forall_nil _))
               [counts_item_1; commentary_item "2" "second"] [counts_item_1_later]
               commentary_item_1 (JStr "hello")
               "urn:li:fsd_update:(urn:li:activity:1,MEMBER_SHARES)"
               eq_refl Hpre eq_refl eq_refl eq_refl eq_refl).
Defined.

(** On that payload: the post of activity 2, which has no counts, and then
    the post of activity 1 with the counters of the later counts item. *)
Example extractPosts_joined_posts :
  extractPosts joined_posts_payload
  = Normal [text_only_record "2" (commentary_item "2" "second") (JStr "second");
            joined_record "1" commentary_item_1 (JStr "hello")
              (Counts.mk (JNum 7) (JNum 3) (JNum 0))].
Proof. reflexivity. Qed.

End ExtractorRecords.

(* ===================================================================== *)
(** ** The accumulator over a run *)
(* ===================================================================== *)

Section AccumulatorRun.
Import Js Fs Scraper Props MoreProps.
Implicit Types (allPosts : JsMap string LinkedInPost) (posts : list LinkedInPost).

Lemma map_get_app_some {V} k (v : V) (m added : JsMap string V) :
  map_get String.eqb k m = Some v -> map_get String.eqb k (m ++ added) = Some v.
Proof.
  induction m as [|[k' v'] rest IH]; cbn; [discriminate|].
  destruct (String.eqb k' k); auto.
Qed.

Lemma map_has_app {V} k (m added : JsMap string V) :
  map_has String.eqb k m = true -> map_has String.eqb k (m ++ added) = true.
Proof.
  unfold map_has. destruct (map_get String.eqb k m) as [v|] eqn:E; [|discriminate].
  now rewrite (map_get_app_some _ _ _ added E).
Qed.

Lemma map_has_last {V} k (v : V) (m : JsMap string V) :
  map_has String.eqb k (m ++ [(k, v)]) = true.
Proof.
  unfold map_has. induction m as [|[k' v'] rest IH]; cbn.
  - now rewrite String.eqb_refl.
  - destruct (String.eqb k' k); auto.
Qed.

Lemma collect_appends posts : forall allPosts,
  exists added, fst (collect posts allPosts) = allPosts ++ added.
Proof.
  induction posts as [|post posts IH]; intros allPosts; cbn [collect].
  - exists []. now rewrite app_nil_r.
  - destruct (str_truthy (id post) && truthy (Some (text post))) eqn:Hcond;
      cbn [andb]; [|apply IH].
    destruct (map_has String.eqb (id post) allPosts) eqn:Hhas; cbn [negb];
      [apply IH|].
    rewrite (map_set_absent _ _ _ (map_has_false _ _ Hhas)).
    destruct (text_substring (text post)).
    + destruct (IH (allPosts ++ [(id post, post)])) as [added ->].
      exists ((id post, post) :: added). now rewrite <- app_assoc.
    + eexists. reflexivity.
Qed.

Lemma onResponse_appends allPosts response :
  exists added, onResponse allPosts response = allPosts ++ added.
Proof.
  assert (Hsame : exists added, allPosts = allPosts ++ added)
    by (exists []; now rewrite app_nil_r).
  unfold onResponse.
  destruct (includes "/voyager/api" _); [|exact Hsame].
  destruct (includes "json" _); [|exact Hsame].
  destruct (resp_json response) as [json|e]; [|exact Hsame].
  destruct (extractPosts json) as [posts|e]; [|exact Hsame].
  apply collect_appends.
Qed.

Lemma fold_onResponse_appends responses : forall allPosts,
  exists added, fold_left onResponse responses allPosts = allPosts ++ added.
Proof.
  induction responses as [|r responses IH]; intros allPosts; cbn [fold_left].
  - exists []. now rewrite app_nil_r.
  - destruct (onResponse_appends allPosts r) as [a1 ->].
    destruct (IH (allPosts ++ a1)) as [a2 ->].
    exists (a1 ++ a2). now rewrite app_assoc.
Qed.

(** X4.  The accumulator only grows at its end: what the hook has stored
    after some responses stays, in place and unchanged, whatever responses
    follow; in particular a record once stored under an identifier is the
    record found under it at the end of the run. *)
Theorem accumulate_append_only :
  forall earlier later : list Response,
    (exists added, accumulate (earlier ++ later) = accumulate earlier ++ added)
    /\ (forall k post,
           map_get String.eqb k (accumulate earlier) = Some post ->
           map_get String.eqb k (accumulate (earlier ++ later)) = Some post).
Proof.
  intros earlier later.
  assert (H : exists added,
             accumulate (earlier ++ later) = accumulate earlier ++ added).
  { unfold accumulate. rewrite fold_left_app. apply fold_onResponse_appends. }
  split; [exact H|].
  intros k post Hget. destruct H as [added ->]. now apply map_get_app_some.
Qed.

Lemma accumulate_append_only_witness :
  map_get String.eqb "urn:li:activity:1"
    (accumulate ([voyager commentary_payload]
                 ++ [voyager (JObj [("included",
                                     JArr [commentary_item_1; counts_item_1])])]))
  = Some (text_only_record "1" commentary_item_1 (JStr "hello")).
Proof.
  apply (proj2 (accumulate_append_only
                  [voyager commentary_payload]
                  [voyager (JObj [("included",
                                   JArr [commentary_item_1; counts_item_1])])])).
  reflexivity.
Defined.

Lemma collect_strings posts : forall allPosts,
  texts_are_strings posts ->
  exists added,
    collect posts allPosts = (allPosts ++ added, Normal tt)
    /\ forall p, In p posts ->
         str_truthy (id p) && truthy (Some (text p)) = true ->
         map_has String.eqb (id p) (allPosts ++ added) = true.
Proof.
  induction posts as [|post posts IH]; intros allPosts Hstr; cbn [collect].
  - exists []. rewrite app_nil_r. split; [reflexivity|intros p []].
  - apply Forall_cons in Hstr as [[t Ht] Hrest].
    destruct (str_truthy (id post) && truthy (Some (text post))) eqn:Hcond;
      cbn [andb].
    + destruct (map_has String.eqb (id post) allPosts) eqn:Hhas; cbn [negb].
      * destruct (IH allPosts Hrest) as (added & -> & Hin).
        exists added. split; [reflexivity|].
        intros p [<-|Hp] Hc; [now apply map_has_app|now apply Hin].
      * rewrite (map_set_absent _ _ _ (map_has_false _ _ Hhas)), Ht.
        cbn [text_substring].
        destruct (IH (allPosts ++ [(id post, post)]) Hrest) as (added & -> & Hin).
        exists ((id post, post) :: added).
        assert (Happ : allPosts ++ (id post, post) :: added
                       = (allPosts ++ [(id post, post)]) ++ added)
          by now rewrite <- app_assoc.
        rewrite Happ. split; [reflexivity|].
        intros p [<-|Hp] Hc.
        -- apply map_has_app, map_has_last.
        -- now apply Hin.
    + destruct (IH allPosts Hrest) as (added & -> & Hin).
      exists added. split; [reflexivity|].
      intros p [<-|Hp] Hc; [congruence|now apply Hin].
Qed.

Lemma collect_present posts : forall allPosts,
  (forall p, In p posts ->
     str_truthy (id p) && truthy (Some (text p)) = true ->
     map_has String.eqb (id p) allPosts = true) ->
  collect posts allPosts = (allPosts, Normal tt).
Proof.
  induction posts as [|post posts IH]; intros allPosts Hall; cbn [collect];
    [reflexivity|].
  destruct (str_truthy (id post) && truthy (Some (text post))) eqn:Hcond;
    cbn [andb].
  - rewrite (Hall post (or_introl eq_refl) Hcond). cbn [negb].
    apply IH. intros p Hp. apply Hall. now right.
  - apply IH. intros p Hp. apply Hall. now right.
Qed.

(** X5.  A response delivered twice counts once: when the texts of its
    records are strings, passing it through the hook a second time leaves the
    accumulator as the first pass left it. *)
Theorem onResponse_twice :
  forall (allPosts : JsMap string LinkedInPost) (response : Response),
    (forall json, resp_json response = Normal json ->
                  texts_are_strings (extracted json)) ->
    onResponse (onResponse allPosts response) response
    = onResponse allPosts response.
Proof.
  intros allPosts response Hstr. unfold onResponse.
  destruct (includes "/voyager/api" _); [|reflexivity].
  destruct (includes "json" _); [|reflexivity].
  destruct (resp_json response) as [json|e]; [|reflexivity].
  specialize (Hstr json eq_refl). unfold extracted in Hstr.
  destruct (extractPosts json) as [posts|e]; [|reflexivity].
  destruct (collect_strings posts allPosts Hstr) as (added & Hfirst & Hin).
  rewrite Hfirst. cbn [fst]. now rewrite (collect_present posts _ Hin).
Qed.

Lemma onResponse_twice_witness :
  onResponse (onResponse map_new (voyager commentary_payload))
             (voyager commentary_payload)
  = onResponse map_new (voyager commentary_payload).
Proof.
  apply onResponse_twice. intros json [= <-].
  repeat constructor. now exists "hello".
Defined.

(** Without that: a record whose text is a number stops the loop of the hook
    at the log line, and the second delivery stores the record after it. *)
Example onResponse_twice_numeric_text :
  let payload :=
    JObj [("included",
           JArr [JObj [("entityUrn", JStr "urn:li:activity:1");
                       ("commentary", JObj [("text", JObj [("text", JNum 5)])])];
                 JObj [("entityUrn", JStr "urn:li:activity:2");
                       ("commentary", JObj [("text", JObj [("text", JStr "b")])])]])] in
  map_keys (onResponse map_new (voyager payload)) = ["urn:li:activity:1"]
  /\ map_keys (onResponse (onResponse map_new (voyager payload)) (voyager payload))
     = ["urn:li:activity:1"; "urn:li:activity:2"].
Proof. split; reflexivity. Qed.

End AccumulatorRun.

(* ===================================================================== *)
(** ** The pagination loop: what its exits mean *)
(* ===================================================================== *)

Section PaginationExits.
Import Js Fs Scraper Props MoreProps.
Local Open Scope nat_scope.

Variable scrollHeight : nat -> Completion Z.
Variable scrollDown : nat -> Completion unit.
Variable maxScrolls : nat.
Variable shouldStop : option (nat -> bool).

Lemma passes_done_snoc st h :
  length (measured st) = i st ->
  passes_done scrollHeight scrollDown shouldStop (i st) (measured st) ->
  stop_requested shouldStop (i st) = false ->
  scrollHeight (i st) = Normal h ->
  scrollDown (i st) = Normal tt ->
  passes_done scrollHeight scrollDown shouldStop (S (i st)) (measured st ++ [h]).
Proof.
  intros Hlen Hdone Hstop Hh Hd k Hk.
  destruct (Nat.eq_dec k (i st)) as [->|Hne].
  - split; [exact Hstop|]. split; [|exact Hd].
    exists h. split; [|exact Hh]. rewrite <- Hlen. apply list_lookup_middle.
    reflexivity.
  - destruct (Hdone k ltac:(lia)) as (Hs & (h' & Hl & Hh') & Hd').
    split; [exact Hs|]. split; [|exact Hd'].
    exists h'. split; [|exact Hh']. now apply lookup_app_l_Some.
Qed.

Lemma passes_done_keep n ms h :
  passes_done scrollHeight scrollDown shouldStop n ms ->
  passes_done scrollHeight scrollDown shouldStop n (ms ++ [h]).
Proof.
  intros Hdone k Hk. destruct (Hdone k Hk) as (Hs & (h' & Hl & Hh') & Hd').
  split; [exact Hs|]. split; [|exact Hd'].
  exists h'. split; [|exact Hh']. now apply lookup_app_l_Some.
Qed.

Lemma loop_exit_explained fuel : forall st st' why,
  i st <= maxScrolls ->
  scrolled st = i st ->
  length (measured st) = i st ->
  passes_done scrollHeight scrollDown shouldStop (i st) (measured st) ->
  loop scrollHeight scrollDown maxScrolls shouldStop fuel st = Some (st', why) ->
  scrolled st' = i st'
  /\ passes_done scrollHeight scrollDown shouldStop (i st') (measured st')
  /\ exit_explained scrollHeight scrollDown shouldStop maxScrolls st' why.
Proof.
  induction fuel as [|fuel IH]; intros st st' why Hle Hsc Hlen Hdone;
    cbn [loop]; [discriminate|].
  unfold iteration.
  destruct (Nat.ltb_spec (i st) maxScrolls) as [Hlt|Hge].
  2:{ intros [= <- <-]. split; [exact Hsc|]. split; [exact Hdone|].
      cbn. split; [lia|exact Hlen]. }
  destruct (stop_requested shouldStop (i st)) eqn:Hstop.
  { intros [= <- <-]. split; [exact Hsc|]. split; [exact Hdone|].
    cbn. auto. }
  destruct (scrollHeight (i st)) as [h|e] eqn:Hh.
  2:{ intros [= <- <-]. split; [exact Hsc|]. split; [exact Hdone|].
      cbn. auto. }
  assert (Hmid : (measured st ++ [h]) !! i st = Some h).
  { rewrite <- Hlen. now apply list_lookup_middle. }
  assert (Hnext : forall n,
    match
      match scrollDown (i st) with
      | Normal _ =>
          Running (mkLoop (S (i st)) h n (measured st ++ [h]) (S (scrolled st)))
      | Thrown e =>
          Finished (mkLoop (i st) h n (measured st ++ [h]) (scrolled st)) (Failed e)
      end
    with
    | Finished st'0 why0 => Some (st'0, why0)
    | Running st'0 => loop scrollHeight scrollDown maxScrolls shouldStop fuel st'0
    end = Some (st', why) ->
    scrolled st' = i st'
    /\ passes_done scrollHeight scrollDown shouldStop (i st') (measured st')
    /\ exit_explained scrollHeight scrollDown shouldStop maxScrolls st' why).
  { intros n. destruct (scrollDown (i st)) as [[]|e] eqn:Hd.
    - apply IH; cbn [scrolled i measured].
      + exact Hlt.
      + now rewrite Hsc.
      + rewrite length_app. cbn. lia.
      + now apply passes_done_snoc.
    - intros [= <- <-]. cbn [scrolled i measured exit_explained].
      split; [exact Hsc|]. split; [now apply passes_done_keep|].
      split; [exact Hlt|]. split; [exact Hstop|]. right.
      exists h. rewrite length_app. cbn. repeat split; auto. lia. }
  destruct (h =? previousHeight st)%Z.
  - destruct (3 <=? S (noChangeCount st)).
    + intros [= <- <-]. cbn [scrolled i measured exit_explained].
      split; [exact Hsc|]. split; [now apply passes_done_keep|].
      split; [exact Hlt|]. split; [exact Hstop|].
      rewrite length_app. cbn. split; [lia|]. now exists h.
    + apply Hnext.
  - apply Hnext.
Qed.

(** X6.  The state in which [autoScroll] ends tells what happened.  Every
    pass before the last read a height, which is recorded in order, and
    scrolled once, with [shouldStop] answering false.  At the post limit
    [shouldStop] has just answered true and nothing was measured in that
    pass; at the cap exactly [maxScrolls] passes were made; at convergence
    the last height was read and no scroll followed it; and a failure is the
    rejection of that pass's measurement or scroll. *)
Theorem autoScroll_exit_explained :
  exists st why,
    (forall extra,
        autoScroll scrollHeight scrollDown maxScrolls shouldStop
                   (S maxScrolls + extra) = Some (st, why))
    /\ scrolled st = i st
    /\ passes_done scrollHeight scrollDown shouldStop (i st) (measured st)
    /\ exit_explained scrollHeight scrollDown shouldStop maxScrolls st why.
Proof.
  destruct (autoScroll_comes_to_an_end scrollHeight scrollDown maxScrolls shouldStop)
    as (st & why & Hrun).
  exists st, why. split; [exact Hrun|].
  apply (loop_exit_explained (S maxScrolls + 0) loop_init);
    [cbn; lia|reflexivity|reflexivity| |exact (Hrun 0)].
  intros k Hk. cbn in Hk. lia.
Qed.

End PaginationExits.

Section PaginationConvergence.
Import Js Fs Scraper Props MoreProps.
Local Open Scope nat_scope.

Variable scrollHeight : nat -> Completion Z.
Variable scrollDown : nat -> Completion unit.
Variable maxScrolls : nat.
Variable shouldStop : option (nat -> bool).

Lemma previous_of_track ms :
  (0%Z :: ms) !! length ms = Some (fst (track ms)).
Proof.
  induction ms as [|x ms' _] using rev_ind; [reflexivity|].
  rewrite length_app, Nat.add_comm. cbn [length Nat.add lookup list_lookup].
  rewrite track_snoc, fst_observe. now apply list_lookup_middle.
Qed.

Lemma no_change_at_app ms more j :
  no_change_at ms j -> no_change_at (ms ++ more) j.
Proof.
  intros (a & Hj & Hprev). exists a. split.
  - now apply lookup_app_l_Some.
  - change (0%Z :: ms ++ more) with ((0%Z :: ms) ++ more).
    now apply lookup_app_l_Some.
Qed.

(** A count of [S n] comes from a last measurement that changed nothing,
    after measurements that had brought the count to [n]. *)
Lemma streak_last ms n :
  S n <= snd (track ms) ->
  exists ms' h,
    ms = ms' ++ [h] /\ no_change_at ms (length ms') /\ n <= snd (track ms').
Proof.
  destruct ms as [|x ms0 _] using rev_ind; [cbn; lia|].
  rewrite track_snoc. unfold observe.
  destruct (Z.eqb_spec x (fst (track ms0))) as [Heq|Hne]; cbn [snd]; [|lia].
  intros Hn. exists ms0, x. split; [reflexivity|]. split; [|lia].
  exists x. split; [now apply list_lookup_middle|].
  change (0%Z :: ms0 ++ [x]) with ((0%Z :: ms0) ++ [x]).
  apply lookup_app_l_Some. rewrite Heq. apply previous_of_track.
Qed.

(** X7.  [autoScroll] reports convergence only when the page stood still:
    if it ends with "No more posts to load", it took at least three
    measurements and each of the last three found the height of the
    measurement before it. *)
Theorem autoScroll_convergence_sound :
  exists st why,
    (forall extra,
        autoScroll scrollHeight scrollDown maxScrolls shouldStop
                   (S maxScrolls + extra) = Some (st, why))
    /\ (why = NoMorePosts ->
        exists j,
          length (measured st) = S (S (S j))
          /\ no_change_at (measured st) j
          /\ no_change_at (measured st) (S j)
          /\ no_change_at (measured st) (S (S j))).
Proof.
  destruct (autoScroll_comes_to_an_end scrollHeight scrollDown maxScrolls shouldStop)
    as (st & why & Hrun).
  exists st, why. split; [exact Hrun|]. intros ->.
  pose proof (Hrun 0) as H0. unfold autoScroll in H0.
  destruct (loop_final _ _ _ _ _ _ _ _ loop_init_invariant H0) as [_ (H3 & _)].
  destruct (streak_last _ _ H3) as (ms2 & h3 & E3 & N3 & H2).
  destruct (streak_last _ _ H2) as (ms1 & h2 & E2 & N2 & H1).
  destruct (streak_last _ _ H1) as (ms0 & h1 & E1 & N1 & _).
  exists (length ms0).
  assert (L1 : length ms1 = S (length ms0))
    by (rewrite E1, length_app; cbn; lia).
  assert (L2 : length ms2 = S (S (length ms0)))
    by (rewrite E2, length_app; cbn; lia).
  rewrite L2 in N3. rewrite L1 in N2.
  split; [rewrite E3, length_app; cbn; lia|].
  rewrite E3. split; [|split].
  - apply no_change_at_app. rewrite E2. now apply no_change_at_app.
  - apply no_change_at_app. exact N2.
  - rewrite <- E3. exact N3.
Qed.

(** X8.  A page whose height changes at every measurement is scrolled to
    the cap: when each of the first [maxScrolls] measurements succeeds and
    differs from the one before it (the first from 0), each scroll succeeds
    and [shouldStop] never answers true, [autoScroll] makes exactly
    [maxScrolls] measurements and scrolls and ends with "Reached max
    scrolls". *)
Theorem autoScroll_changing_page_reaches_cap :
  forall h : nat -> Z,
    (forall k, k < maxScrolls ->
       scrollHeight k = Normal (h k)
       /\ scrollDown k = Normal tt
       /\ stop_requested shouldStop k = false) ->
    h 0 <> 0%Z ->
    (forall k, S k < maxScrolls -> h (S k) <> h k) ->
    forall extra,
    exists st,
      autoScroll scrollHeight scrollDown maxScrolls shouldStop
                 (S maxScrolls + extra) = Some (st, ReachedMaxScrolls)
      /\ measured st = map h (seq 0 maxScrolls)
      /\ scrolled st = maxScrolls.
Proof.
  intros h Hpage H0 Hchange extra.
  assert (Hgen : forall n st,
    i st + n = maxScrolls ->
    (i st = 0 -> previousHeight st = 0%Z) ->
    (forall k, i st = S k -> previousHeight st = h k) ->
    exists st',
      loop scrollHeight scrollDown maxScrolls shouldStop (S n + extra) st
      = Some (st', ReachedMaxScrolls)
      /\ measured st' = measured st ++ map h (seq (i st) n)
      /\ scrolled st' = scrolled st + n).
  { induction n as [|n IH]; intros st Hn Hfirst Hlater; cbn [Nat.add loop];
      unfold iteration.
    - destruct (Nat.ltb_spec (i st) maxScrolls) as [Hlt|Hge]; [lia|].
      exists st. cbn. rewrite app_nil_r. auto.
    - destruct (Nat.ltb_spec (i st) maxScrolls) as [Hlt|Hge]; [|lia].
      destruct (Hpage (i st) Hlt) as (-> & -> & ->).
      assert (Hne : (h (i st) =? previousHeight st)%Z = false).
      { apply Z.eqb_neq. destruct (i st) as [|k] eqn:Ei.
        - now rewrite (Hfirst eq_refl).
        - rewrite (Hlater k eq_refl). apply Hchange. lia. }
      rewrite Hne.
      destruct (IH (mkLoop (S (i st)) (h (i st)) 0 (measured st ++ [h (i st)])
                           (S (scrolled st))))
        as (st' & Hrun & Hm & Hs); cbn [i previousHeight]; try lia.
      + intros k [= <-]. reflexivity.
      + exists st'. split; [exact Hrun|]. cbn [measured scrolled i] in Hm, Hs.
        rewrite Hm, Hs, <- app_assoc. cbn. split; [reflexivity|lia]. }
  destruct (Hgen maxScrolls loop_init eq_refl) as (st & Hrun & Hm & Hs).
  - reflexivity.
  - intros k [=].
  - exists st. split; [exact Hrun|]. cbn in Hm, Hs. auto.
Qed.

End PaginationConvergence.

Section PaginationExitRuns.
Import Js Fs Scraper Props MoreProps.
Local Open Scope nat_scope.

Lemma autoScroll_convergence_sound_witness :
  exists st why,
    autoScroll (fun _ => Normal 100%Z) (fun _ => Normal tt) 10 None 11
    = Some (st, why)
    /\ why = NoMorePosts
    /\ exists j,
         length (measured st) = S (S (S j))
         /\ no_change_at (measured st) j
         /\ no_change_at (measured st) (S j)
         /\ no_change_at (measured st) (S (S j)).
Proof.
  destruct (autoScroll_convergence_sound
              (fun _ => Normal 100%Z) (fun _ => Normal tt) 10 None)
    as (st & why & Hrun & Hsound).
  exists st, why. pose proof (Hrun 0) as H0. vm_compute in H0.
  injection H0 as <- <-.
  split; [reflexivity|]. split; [reflexivity|]. exact (Hsound eq_refl).
Defined.

Lemma autoScroll_changing_page_reaches_cap_witness :
  exists st,
    autoScroll (fun n => Normal (Z.of_nat (S n) * 100)%Z) (fun _ => Normal tt)
               4 None 5
    = Some (st, ReachedMaxScrolls)
    /\ measured st = [100; 200; 300; 400]%Z
    /\ scrolled st = 4.
Proof.
  apply (autoScroll_changing_page_reaches_cap
           (fun n => Normal (Z.of_nat (S n) * 100)%Z) (fun _ => Normal tt) 4 None
           (fun n => (Z.of_nat (S n) * 100)%Z)).
  - intros k Hk. auto.
  - cbn. lia.
  - intros k Hk. lia.
Defined.

End PaginationExitRuns.

(* ===================================================================== *)
(** ** The merge: order, empty runs, first runs *)
(* ===================================================================== *)

Section MergeOrder.
Import Js Fs Scraper Props MoreProps.
Implicit Types (m : JsMap string LinkedInPost) (P N posts : list LinkedInPost).

Lemma set_all_of_records posts :
  List.NoDup (map id posts) ->
  set_all posts map_new = map (fun p => (id p, p)) posts.
Proof.
  intros Hnd.
  assert (Hvalues : map_values (map (fun p => (id p, p)) posts) = posts).
  { unfold map_values. rewrite map_map. apply map_id. }
  rewrite <- Hvalues at 1.
  rewrite (set_all_values (map (fun p => (id p, p)) posts) map_new).
  - reflexivity.
  - intros e He. apply in_map_iff in He as (p & <- & _). reflexivity.
  - unfold map_keys. now rewrite map_map.
  - intros k _ [].
Qed.

(** X9.  A run that found nothing leaves a file of distinct records as it
    is, and a file that holds an empty array takes the records of the run as
    they are. *)
Theorem mergePosts_empty_side :
  forall posts : list LinkedInPost,
    List.NoDup (map id posts) ->
    mergePosts (FileJson posts) [] = posts
    /\ mergePosts (FileJson []) posts = posts.
Proof.
  intros posts Hnd. unfold mergePosts. cbn [existsSync readJson set_all fold_left].
  change (fold_left (fun m p => map_set String.eqb (id p) p m) posts map_new)
    with (set_all posts map_new).
  rewrite (set_all_of_records posts Hnd). unfold map_values. rewrite map_map.
  split; apply map_id.
Qed.

Lemma mergePosts_empty_side_witness :
  mergePosts (FileJson second_run) [] = second_run
  /\ mergePosts (FileJson []) second_run = second_run.
Proof.
  apply mergePosts_empty_side. repeat constructor; cbn; intuition discriminate.
Defined.

Lemma set_all_keys_prefix posts : forall m,
  exists added, map_keys (set_all posts m) = map_keys m ++ added.
Proof.
  induction posts as [|p posts IH]; intros m.
  - exists []. now rewrite app_nil_r.
  - change (set_all (p :: posts) m)
      with (set_all posts (map_set String.eqb (id p) p m)).
    destruct (IH (map_set String.eqb (id p) p m)) as [added ->].
    destruct (in_dec String.string_dec (id p) (map_keys m)) as [Hin|Hout].
    + rewrite map_set_keys_present by exact Hin. now exists added.
    + rewrite map_set_absent by exact Hout. unfold map_keys. rewrite map_app.
      cbn. exists (id p :: added). now rewrite <- app_assoc.
Qed.

(** X10.  Merging never reorders the file: the records of a file of distinct
    records keep their places at the head of the merged collection, and the
    identifiers that are new come after them, each once. *)
Theorem mergePosts_keeps_order :
  forall P N : list LinkedInPost,
    List.NoDup (map id P) ->
    exists added,
      map id (mergePosts (FileJson P) N) = map id P ++ added
      /\ List.NoDup added
      /\ forall k, In k added <-> In k (map id N) /\ ~ In k (map id P).
Proof.
  intros P N Hnd. unfold mergePosts. cbn [existsSync readJson].
  destruct (merged_map_wf P N) as [Hkeyed HndM].
  rewrite (keyed_ids _ Hkeyed).
  assert (HP : map_keys (set_all P map_new) = map id P).
  { rewrite (set_all_of_records P Hnd). unfold map_keys. now rewrite map_map. }
  destruct (set_all_keys_prefix N (set_all P map_new)) as [added Hadded].
  rewrite HP in Hadded. exists added. split; [exact Hadded|].
  rewrite Hadded in HndM.
  split; [now apply List.NoDup_app_remove_l in HndM|].
  intros k. pose proof (set_all_keys_in N (set_all P map_new) k) as Hin.
  rewrite Hadded, HP, in_app_iff in Hin.
  split.
  - intros Hk. assert (Hout : ~ In k (map id P)).
    { intros HkP. revert HndM. clear -Hk HkP.
      induction (map id P) as [|x l IH]; [destruct HkP|].
      cbn. intros Hnd. apply List.NoDup_cons_iff in Hnd as [Hx Hl].
      destruct HkP as [->|HkP]; [apply Hx, in_or_app; now right|now apply IH]. }
    split; [|exact Hout]. destruct (proj1 Hin (or_intror Hk)); tauto.
  - intros [HkN Hout]. destruct (proj2 Hin (or_intror HkN)); tauto.
Qed.

Lemma mergePosts_keeps_order_witness :
  exists added,
    map id (mergePosts (FileJson first_run) second_run) = map id first_run ++ added
    /\ List.NoDup added
    /\ forall k, In k added <-> In k (map id second_run) /\ ~ In k (map id first_run).
Proof.
  apply mergePosts_keeps_order. repeat constructor. intros [].
Defined.

Lemma first_run_merge_idempotent_witness :
  mergePosts (FileJson (mergePosts FileMissing
                          (newPosts_of (accumulate [voyager commentary_payload])
                                       (Some 5%nat))))
             (newPosts_of (accumulate [voyager commentary_payload]) (Some 5%nat))
  = mergePosts FileMissing
      (newPosts_of (accumulate [voyager commentary_payload]) (Some 5%nat)).
Proof.
  apply (first_run_merge_idempotent [voyager commentary_payload] (Some 5%nat)
           FileMissing).
  left. reflexivity.
Defined.

End MergeOrder.

(* ===================================================================== *)
(** ** The token authority: what a refresh leaves behind *)
(* ===================================================================== *)

Section RefreshOutcome.
Import Js Fs Auth Props.

(** What a successful refresh leaves behind, for the proofs below. *)
Lemma refreshAccessToken_stored :
  forall (env : Env) (creds updated : Credentials) (w : World),
    fst (refreshAccessToken env creds w) = Normal updated ->
    credentialsFile (snd (refreshAccessToken env creds w)) = FileJson (Some updated)
    /\ personId updated = personId creds.
Proof.
  intros env creds updated w.
  unfold refreshAccessToken, bind, log, throw, post_form, now_seconds,
    saveCredentials, ret.
  cbn [trace credentialsFile clock_reads posts_sent].
  destruct (str_truthy (refreshToken creds)); cbn [negb fst]; [|discriminate].
  destruct (httpsPost env _ _ _) as [resp|e]; cbn [fst]; [|discriminate].
  destruct (parse_tokens env (body resp)) as [tokens|e]; cbn [fst];
    [|discriminate].
  destruct (str_truthy (access_token tokens)); cbn [negb fst snd];
    [|discriminate].
  intros [= <-]. cbn. split; reflexivity.
Qed.

(** X12.  A refresh that succeeds stores exactly the record it returns.  That
    record keeps the client identifier, the client secret and the person
    identifier of the record it was made from, its access token and its
    refresh token are not empty, and one request was sent to obtain it. *)
Theorem refreshAccessToken_success :
  forall (env : Env) (creds updated : Credentials) (w : World),
    fst (refreshAccessToken env creds w) = Normal updated ->
    credentialsFile (snd (refreshAccessToken env creds w)) = FileJson (Some updated)
    /\ clientId updated = clientId creds
    /\ clientSecret updated = clientSecret creds
    /\ personId updated = personId creds
    /\ str_truthy (accessToken updated) = true
    /\ str_truthy (refreshToken updated) = true
    /\ posts_sent (snd (refreshAccessToken env creds w)) = S (posts_sent w).
Proof.
  intros env creds updated w.
  unfold refreshAccessToken, bind, log, throw, post_form, now_seconds,
    saveCredentials, ret.
  cbn [trace credentialsFile clock_reads posts_sent].
  destruct (str_truthy (refreshToken creds)) eqn:Hr; cbn [negb fst];
    [|discriminate].
  destruct (httpsPost env _ _ _) as [resp|e]; cbn [fst]; [|discriminate].
  destruct (parse_tokens env (body resp)) as [tokens|e]; cbn [fst];
    [|discriminate].
  destruct (str_truthy (access_token tokens)) eqn:Ha; cbn [negb fst snd];
    [|discriminate].
  intros [= <-]. cbn. repeat split; auto.
  unfold str_or. now destruct (str_truthy (refresh_token tokens)) eqn:E.
Qed.

Lemma refreshAccessToken_success_witness :
  credentialsFile (snd (refreshAccessToken granting_env creds_near
                          (world_of creds_near)))
  = FileJson (Some (mkCredentials "client" "secret" "AQX-new" "AQR" "person"
                                  1705184000)).
Proof.
  apply (refreshAccessToken_success granting_env creds_near
           (mkCredentials "client" "secret" "AQX-new" "AQR" "person" 1705184000)
           (world_of creds_near)).
  reflexivity.
Defined.



(** X14.  A record just refreshed is served as it is: when the refresh
    succeeded and the new expiry is a day or more after the next reading of
    the clock, [getValidCredentials] returns the refreshed record, without a
    refresh and without a request. *)
Theorem getValidCredentials_after_refresh :
  forall (env : Env) (creds updated : Credentials) (w w' : World),
    refreshAccessToken env creds w = (Normal updated, w') ->
    date_now env (clock_reads w') / 1000 + 86400 <= expiresAt updated ->
    fst (getValidCredentials env w') = Normal updated
    /\ trace (snd (getValidCredentials env w')) = trace w'
    /\ posts_sent (snd (getValidCredentials env w')) = posts_sent w'
    /\ credentialsFile (snd (getValidCredentials env w')) = FileJson (Some updated).
Proof.
  intros env creds updated w w' Hrun Hclock.
  assert (Hfile : credentialsFile w' = FileJson (Some updated)).
  { pose proof (refreshAccessToken_stored env creds updated w) as H.
    rewrite Hrun in H. now apply H. }
  unfold getValidCredentials, bind, load. rewrite Hfile.
  cbn [loadCredentials existsSync readJson negb now_seconds].
  destruct (Z.ltb_spec (expiresAt updated)
              (date_now env (clock_reads w') / 1000 + 86400)) as [Hlt|_]; [lia|].
  cbn. now rewrite Hfile.
Qed.

Lemma getValidCredentials_after_refresh_witness :
  fst (getValidCredentials granting_env
         (snd (refreshAccessToken granting_env creds_near (world_of creds_near))))
  = Normal (mkCredentials "client" "secret" "AQX-new" "AQR" "person" 1705184000).
Proof.
  apply (getValidCredentials_after_refresh granting_env creds_near
           (mkCredentials "client" "secret" "AQX-new" "AQR" "person" 1705184000)
           (world_of creds_near)
           (snd (refreshAccessToken granting_env creds_near (world_of creds_near)))).
  - reflexivity.
  - vm_compute. intros Hc. discriminate Hc.
Defined.

End RefreshOutcome.

(* ===================================================================== *)
(** ** Profile URLs *)
(* ===================================================================== *)

Section ProfileUrls.
Import Js Fs Scraper Sync RunProps.

Lemma strip_prefix_some p : forall s rest,
  strip_prefix p s = Some rest <-> s = p +:+ rest.
Proof.
  induction p as [|a p IH]; intros s rest; cbn [strip_prefix].
  - change ("" +:+ rest) with rest. split; [intros [= ->]|intros ->]; reflexivity.
  - change (String a p +:+ rest) with (String a (p +:+ rest)).
    destruct s as [|b s]; [split; discriminate|].
    destruct (Ascii.eqb_spec a b) as [->|Hne].
    + rewrite IH. split; [intros ->; reflexivity|intros [= ->]; reflexivity].
    + split; [discriminate|intros [= Hab _]; congruence].
Qed.

Lemma take_name_split s :
  exists rest,
    s = take_name s +:+ rest
    /\ all_name_chars (take_name s) = true
    /\ no_leading_name_char rest = true.
Proof.
  induction s as [|c s (rest & Hs & Hall & Hrest)]; cbn [take_name].
  - exists EmptyString. repeat split.
  - destruct (is_name_char c) eqn:Hc.
    + exists rest. change (String c (take_name s) +:+ rest)
        with (String c (take_name s +:+ rest)).
      rewrite <- Hs. cbn [all_name_chars]. rewrite Hc, Hall. repeat split.
      exact Hrest.
    + exists (String c s). cbn [no_leading_name_char]. rewrite Hc. repeat split.
Qed.

Lemma take_name_run name rest :
  all_name_chars name = true -> no_leading_name_char rest = true ->
  take_name (name +:+ rest) = name.
Proof.
  intros Hall Hrest. induction name as [|c name IH].
  - change ("" +:+ rest) with rest. destruct rest as [|r rest']; [reflexivity|].
    cbn [no_leading_name_char] in Hrest. cbn [take_name].
    destruct (is_name_char r); [discriminate Hrest|reflexivity].
  - cbn [all_name_chars] in Hall. apply andb_prop in Hall as [Hc Hn].
    change (String c name +:+ rest) with (String c (name +:+ rest)).
    cbn [take_name]. rewrite Hc. now rewrite IH.
Qed.

Lemma drop_final_slash_name name :
  all_name_chars name = true -> drop_final_slash name = name.
Proof.
  induction name as [|c name IH]; [reflexivity|].
  cbn [all_name_chars]. intros Hall. apply andb_prop in Hall as [Hc Hn].
  cbn [drop_final_slash]. destruct name as [|d name'].
  - unfold is_name_char in Hc. destruct (Ascii.eqb c "/"); [discriminate Hc|].
    reflexivity.
  - now rewrite (IH Hn).
Qed.

Lemma match_profile_unfold s :
  match_profile s
  = match profile_here s with
    | Some name => Some name
    | None =>
        match s with
        | EmptyString => None
        | String _ s' => match_profile s'
        end
    end.
Proof. destruct s; reflexivity. Qed.

Lemma profile_here_some s name :
  profile_here s = Some name ->
  str_truthy name = true /\ all_name_chars name = true
  /\ exists rest, s = "linkedin.com/in/" +:+ name +:+ rest
                  /\ no_leading_name_char rest = true.
Proof.
  unfold profile_here.
  destruct (strip_prefix "linkedin.com/in/" s) as [tail|] eqn:Hp; [|discriminate].
  apply strip_prefix_some in Hp.
  destruct (take_name_split tail) as (rest & Htail & Hall & Hrest).
  destruct (take_name tail) as [|c n] eqn:Hn; [discriminate|].
  intros [= <-]. split; [reflexivity|]. split; [exact Hall|].
  exists rest. split; [|exact Hrest]. rewrite Hp. now rewrite Htail at 1.
Qed.

Lemma match_profile_some s : forall name,
  match_profile s = Some name ->
  str_truthy name = true /\ all_name_chars name = true
  /\ exists pre rest, s = pre +:+ "linkedin.com/in/" +:+ name +:+ rest
                      /\ no_leading_name_char rest = true.
Proof.
  induction s as [|c s IH]; intros name; rewrite match_profile_unfold.
  - destruct (profile_here "") eqn:E; [|discriminate]. intros [= <-].
    destruct (profile_here_some _ _ E) as (H1 & H2 & rest & Hs & Hr).
    repeat split; auto. exists EmptyString, rest. auto.
  - destruct (profile_here (String c s)) eqn:E.
    + intros [= <-].
      destruct (profile_here_some _ _ E) as (H1 & H2 & rest & Hs & Hr).
      repeat split; auto. exists EmptyString, rest. auto.
    + intros Hm. destruct (IH _ Hm) as (H1 & H2 & pre & rest & Hs & Hr).
      repeat split; auto. exists (String c pre), rest. split; [|exact Hr].
      change (String c pre +:+ "linkedin.com/in/" +:+ name +:+ rest)
        with (String c (pre +:+ "linkedin.com/in/" +:+ name +:+ rest)).
      now rewrite <- Hs.
Qed.

Lemma match_profile_complete pre : forall c tail,
  is_name_char c = true ->
  exists name, match_profile (pre +:+ "linkedin.com/in/" +:+ String c tail) = Some name.
Proof.
  induction pre as [|p pre IH]; intros c tail Hc; rewrite match_profile_unfold.
  - change ("" +:+ "linkedin.com/in/" +:+ String c tail)
      with ("linkedin.com/in/" +:+ String c tail).
    unfold profile_here.
    rewrite (proj2 (strip_prefix_some "linkedin.com/in/" _ (String c tail)) eq_refl).
    cbn [take_name]. rewrite Hc. eauto.
  - destruct (profile_here _) as [name|]; [eauto|].
    change (String p pre +:+ "linkedin.com/in/" +:+ String c tail)
      with (String p (pre +:+ "linkedin.com/in/" +:+ String c tail)).
    now apply IH.
Qed.

(** X15.  [extractUsernameFromUrl] finds a user name exactly when the URL
    holds [linkedin.com/in/] followed by a character other than [/] and [?].
    The name it returns is not empty, holds neither [/] nor [?], and stands
    in the URL right after [linkedin.com/in/], up to the next [/] or [?] or
    the end; without such a place it throws, naming the URL. *)
Theorem extractUsernameFromUrl_spec :
  forall profileUrl : string,
    match extractUsernameFromUrl profileUrl with
    | Normal name =>
        str_truthy name = true /\ all_name_chars name = true
        /\ exists pre rest,
             profileUrl = pre +:+ "linkedin.com/in/" +:+ name +:+ rest
             /\ no_leading_name_char rest = true
    | Thrown e =>
        e = Error ("Invalid LinkedIn profile URL: " +:+ profileUrl)
        /\ forall pre c tail,
             is_name_char c = true ->
             profileUrl <> pre +:+ "linkedin.com/in/" +:+ String c tail
    end.
Proof.
  intros profileUrl. unfold extractUsernameFromUrl.
  destruct (match_profile profileUrl) as [name|] eqn:Hm.
  - destruct (match_profile_some _ _ Hm) as (H1 & H2 & Hex).
    rewrite (drop_final_slash_name _ H2). auto.
  - split; [reflexivity|]. intros pre c tail Hc ->.
    destruct (match_profile_complete pre c tail Hc) as [name Hname]. congruence.
Qed.

Lemma extractUsernameFromUrl_spec_witness :
  "https://example.com/jane" <> "https://" +:+ "linkedin.com/in/" +:+ String "j" "ane".
Proof.
  pose proof (extractUsernameFromUrl_spec "https://example.com/jane") as H.
  assert (E : extractUsernameFromUrl "https://example.com/jane"
              = Thrown (Error ("Invalid LinkedIn profile URL: "
                               +:+ "https://example.com/jane")))
    by reflexivity.
  rewrite E in H. destruct H as [_ H]. apply (H "https://" "j"%char "ane").
  reflexivity.
Defined.

Lemma match_profile_skip_scheme t :
  match_profile ("https://www." +:+ t) = match_profile t.
Proof.
  cbv [String.append].
  do 12 (rewrite match_profile_unfold;
         cbn [profile_here strip_prefix Ascii.eqb Bool.eqb]).
  reflexivity.
Qed.

(** X16.  A profile URL gives back its user name: for a name that is not
    empty and holds neither [/] nor [?], the URL
    [https://www.linkedin.com/in/<name>], bare or followed by a path or a
    query, is read as [<name>].  The activity URL that [getLinkedInPosts]
    builds from a user name is such a URL. *)
Theorem extractUsernameFromUrl_roundtrip :
  forall name rest : string,
    str_truthy name = true ->
    all_name_chars name = true ->
    no_leading_name_char rest = true ->
    extractUsernameFromUrl ("https://www.linkedin.com/in/" +:+ name +:+ rest)
    = Normal name.
Proof.
  intros name rest Hne Hall Hrest. unfold extractUsernameFromUrl.
  change ("https://www.linkedin.com/in/" +:+ name +:+ rest)
    with ("https://www." +:+ ("linkedin.com/in/" +:+ (name +:+ rest))).
  rewrite match_profile_skip_scheme, match_profile_unfold.
  unfold profile_here.
  rewrite (proj2 (strip_prefix_some "linkedin.com/in/" _ (name +:+ rest)) eq_refl).
  rewrite (take_name_run _ _ Hall Hrest).
  destruct name as [|c n]; [discriminate Hne|].
  now rewrite (drop_final_slash_name _ Hall).
Qed.

Lemma extractUsernameFromUrl_roundtrip_witness :
  extractUsernameFromUrl (activityUrl "jane-doe-42") = Normal "jane-doe-42".
Proof.
  apply (extractUsernameFromUrl_roundtrip "jane-doe-42" "/recent-activity/all/");
    reflexivity.
Defined.

End ProfileUrls.

(* ===================================================================== *)
(** ** The records of a run *)
(* ===================================================================== *)

Section RunRecords.
Import Js Fs Scraper Props MoreProps Sync RunProps.
Local Open Scope nat_scope.

Lemma extractPosts_emits json posts :
  extractPosts json = Normal posts -> Forall emitted_record posts.
Proof.
  unfold extractPosts, extractPosts_try.
  destruct (get "included" (Some json)) as [[| | | |included|]|];
    try (intros [= <-]; constructor).
  pose proof (commentary_loop_emits (build_countsMap included) included []
                (List.Forall_nil _)) as H.
  destruct (commentary_loop (build_countsMap included) included [])
    as [ps [u|e]]; intros [= <-]; exact H.
Qed.

Lemma map_set_values_Forall (P : LinkedInPost -> Prop) k v
    (m : JsMap string LinkedInPost) :
  Forall P (map_values m) -> P v ->
  Forall P (map_values (map_set String.eqb k v m)).
Proof.
  intros Hm Hv. induction m as [|[k' v'] rest IH]; cbn.
  - repeat constructor. exact Hv.
  - cbn in Hm. apply Forall_cons in Hm as [Hv' Hrest].
    destruct (String.eqb k' k); cbn; constructor; auto.
Qed.

Lemma collect_emits posts : forall allPosts,
  Forall emitted_record posts ->
  Forall emitted_record (map_values allPosts) ->
  Forall emitted_record (map_values (fst (collect posts allPosts))).
Proof.
  induction posts as [|post posts IH]; intros allPosts Hposts Hall; cbn [collect];
    [exact Hall|].
  apply Forall_cons in Hposts as [Hpost Hposts].
  destruct (_ && _); [|now apply IH].
  destruct (text_substring (text post)).
  - apply IH; [exact Hposts|]. now apply map_set_values_Forall.
  - cbn [fst]. now apply map_set_values_Forall.
Qed.

Lemma accumulate_emits responses :
  Forall emitted_record (map_values (accumulate responses)).
Proof.
  unfold accumulate.
  assert (H0 : Forall emitted_record (map_values (@map_new string LinkedInPost)))
    by constructor.
  revert H0. generalize (@map_new string LinkedInPost).
  induction responses as [|r responses IH]; intros m Hm; cbn [fold_left];
    [exact Hm|].
  apply IH. unfold onResponse.
  destruct (includes "/voyager/api" _); [|exact Hm].
  destruct (includes "json" _); [|exact Hm].
  destruct (resp_json r) as [json|e]; [|exact Hm].
  destruct (extractPosts json) as [posts|e] eqn:E; [|exact Hm].
  apply collect_emits; [now apply (extractPosts_emits json)|exact Hm].
Qed.

(** X17.  The new records of a run, whatever responses were seen and
    whatever the limit: their identifiers are distinct, each has the shape of
    an extracted record, and they are the first records of the accumulator in
    the order of their arrival, all of them without a limit and at most
    [postLimit] with one. *)
Theorem newPosts_of_run :
  forall (responses : list Response) (postLimit : option nat),
    let N := newPosts_of (accumulate responses) postLimit in
    List.NoDup (map id N)
    /\ Forall emitted_record N
    /\ (exists rest, map_values (accumulate responses) = N ++ rest)
    /\ match postLimit with
       | Some (S n) => length N = min (S n) (map_size (accumulate responses))
       | _ => N = map_values (accumulate responses)
       end.
Proof.
  intros responses postLimit N.
  destruct (newPosts_of_values responses postLimit) as (X & HX & Hk & Hnd).
  fold N in HX.
  assert (Hprefix : exists rest, map_values (accumulate responses) = N ++ rest).
  { subst N. unfold newPosts_of. destruct postLimit as [[|n]|].
    - exists []. now rewrite app_nil_r.
    - exists (drop (S n) (map_values (accumulate responses))).
      now rewrite take_drop.
    - exists []. now rewrite app_nil_r. }
  split; [rewrite HX, (keyed_ids _ Hk); exact Hnd|].
  split.
  { destruct Hprefix as [rest Hrest].
    pose proof (accumulate_emits responses) as Hall. rewrite Hrest in Hall.
    now apply Forall_app in Hall as [HN _]. }
  split; [exact Hprefix|].
  subst N. unfold newPosts_of, map_size, map_values.
  destruct postLimit as [[|n]|]; try reflexivity.
  rewrite length_take, length_map. reflexivity.
Qed.

(** X18.  When the scroll loop ends because the post limit was reached, the
    run returns exactly [postLimit] new records, and they are the first
    [postLimit] records that the accumulator held at that moment: what
    arrives afterwards, while the run waits before it takes [newPosts],
    changes nothing. *)
Theorem collectNewPosts_post_limit :
  forall (scrollHeight : nat -> Completion Z) (scrollDown : nat -> Completion unit)
         (maxScrolls : option nat) (n : nat) (a : Arrivals),
    exists result st why,
      (forall extra,
          collectNewPosts scrollHeight scrollDown maxScrolls (Some (S n)) a
                          (S (maxScrolls_of maxScrolls) + extra)
          = Some (result, st, why))
      /\ (why = ReachedPostLimit ->
          result = Normal (take (S n) (map_values (allPosts_at a (i st))))
          /\ length (take (S n) (map_values (allPosts_at a (i st)))) = S n).
Proof.
  intros scrollHeight scrollDown maxScrolls n a.
  destruct (autoScroll_comes_to_an_end scrollHeight scrollDown
              (maxScrolls_of maxScrolls) (shouldStop_of a (Some (S n))))
    as (st & why & Hrun).
  exists (match why with
          | Failed e => Thrown e
          | _ => Normal (newPosts_of (accumulate (processed a)) (Some (S n)))
          end), st, why.
  split.
  { intros extra. unfold collectNewPosts. rewrite Hrun. now destruct why. }
  intros ->.
  assert (Hexit : exit_explained scrollHeight scrollDown
                    (shouldStop_of a (Some (S n))) (maxScrolls_of maxScrolls)
                    st ReachedPostLimit).
  { apply (loop_exit_explained scrollHeight scrollDown (maxScrolls_of maxScrolls)
             (shouldStop_of a (Some (S n)))
             (S (maxScrolls_of maxScrolls) + 0) loop_init);
      [cbn; lia|reflexivity|reflexivity| |exact (Hrun 0)].
    intros k Hk. cbn in Hk. lia. }
  destruct Hexit as (_ & Hstop & _). cbn [stop_requested shouldStop_of] in Hstop.
  apply Nat.leb_le in Hstop. unfold map_size in Hstop.
  assert (Hsplit : exists added,
            accumulate (processed a) = allPosts_at a (i st) ++ added).
  { destruct (fold_onResponse_appends (drop (seen_by a (i st)) (processed a))
                (allPosts_at a (i st))) as [added Hadded].
    exists added. rewrite <- Hadded. unfold allPosts_at, accumulate.
    now rewrite <- fold_left_app, take_drop. }
  destruct Hsplit as [added Hadded].
  assert (Hlen : S n <= length (map_values (allPosts_at a (i st)))).
  { unfold map_values. now rewrite length_map. }
  split.
  - unfold newPosts_of. rewrite Hadded. unfold map_values. rewrite map_app.
    f_equal. apply take_app_le. unfold map_values in Hlen. exact Hlen.
  - rewrite length_take. lia.
Qed.

Lemma collectNewPosts_post_limit_witness :
  exists result st why,
    collectNewPosts (fun _ => Normal 100%Z) (fun _ => Normal tt) (Some 10) (Some 1)
                    one_arrival 11
    = Some (result, st, why)
    /\ why = ReachedPostLimit
    /\ result = Normal (take 1 (map_values (allPosts_at one_arrival (i st))))
    /\ length (take 1 (map_values (allPosts_at one_arrival (i st)))) = 1.
Proof.
  destruct (collectNewPosts_post_limit
              (fun _ => Normal 100%Z) (fun _ => Normal tt) (Some 10) 0 one_arrival)
    as (result & st & why & Hrun & Hlimit).
  exists result, st, why. pose proof (Hrun 0) as H0.
  split; [exact H0|].
  vm_compute in H0. injection H0 as <- <- <-.
  split; [reflexivity|]. exact (Hlimit eq_refl).
Defined.

End RunRecords.

(* ===================================================================== *)
(** ** The first authorization *)
(* ===================================================================== *)

Section FirstAuthorization.
Import Js Fs Auth Authorize Props RunProps.







(** A request for [//] that arrives first: nothing is answered, and the code
    that follows it is never seen. *)
Example authenticate_bad_target_first :
  serve [Callback (mkQuery None None None); BadTarget;
         Callback (mkQuery (Some "AQCODE") None None)]
  = (Crashed (TypeError "Invalid URL"), [404])
  /\ authenticate granting_auth_env "client" "secret"
       [Callback (mkQuery None None None); BadTarget;
        Callback (mkQuery (Some "AQCODE") None None)] fresh_world
     = None.
Proof. split; reflexivity. Qed.





End FirstAuthorization.

(* ===================================================================== *)
(** ** The retrying executor: every path *)
(* ===================================================================== *)

Section ExecutorPaths.
Import Js Fs Auth Poster Props Operations OperationProps.
Local Open Scope nat_scope.

(** X22.  A response other than 401 is never retried: once
    [getValidCredentials] has given a record, a first response whose status
    is not 401 ends [withRetry] after that one call, with [onSuccess] of the
    response when its status is in 200..299 and else with a failure that
    carries its status and body; no refresh is made and the credentials file
    is left as [getValidCredentials] left it. *)
Theorem withRetry_other_status_not_retried :
  forall (env : Env) (fn : CallFn) (onSuccess : Response -> PostResult)
         (w w1 : World) (c1 : Credentials) (r1 : Response),
    getValidCredentials env w = (Normal c1, w1) ->
    fn (count_calls (trace w1)) c1 = Normal r1 ->
    status r1 <> 401%Z ->
    withRetry env fn onSuccess w
    = (Normal (outcome_of onSuccess r1),
       mkWorld (credentialsFile w1) (clock_reads w1) (posts_sent w1)
               (trace w1 ++ [EvCall (count_calls (trace w1)) c1])).
Proof.
  intros env fn onSuccess w w1 c1 r1 Hget Hr1 Hs.
  unfold withRetry, bind. rewrite Hget. unfold call at 1. rewrite Hr1.
  apply Z.eqb_neq in Hs. rewrite Hs. unfold ret, outcome_of, is_2xx, failure_of.
  now destruct (_ && _).
Qed.

Lemma withRetry_other_status_not_retried_witness :
  withRetry granting_env (fun _ _ => Normal (mkResponse 403 "denied" []))
            report_ok (world_of creds_fresh)
  = (Normal (failure_of (mkResponse 403 "denied" [])),
     mkWorld (FileJson (Some creds_fresh)) 1 0 [EvCall 0 creds_fresh]).
Proof.
  apply (withRetry_other_status_not_retried granting_env
           (fun _ _ => Normal (mkResponse 403 "denied" [])) report_ok
           (world_of creds_fresh)
           (mkWorld (FileJson (Some creds_fresh)) 1 0 []) creds_fresh
           (mkResponse 403 "denied" [])).
  - reflexivity.
  - reflexivity.
  - discriminate.
Defined.

(** X23.  The retried call is final and is made with the record that is
    now stored: after a first 401 and a refresh that succeeds, [withRetry]
    calls once more with the refreshed record, which is the record in the
    credentials file, and ends on that second response whatever its status,
    a second 401 included; there is no third call. *)
Theorem withRetry_retry_is_final :
  forall (env : Env) (fn : CallFn) (onSuccess : Response -> PostResult)
         (w w1 w3 : World) (c1 c2 : Credentials) (r1 r2 : Response),
    getValidCredentials env w = (Normal c1, w1) ->
    fn (count_calls (trace w1)) c1 = Normal r1 ->
    status r1 = 401%Z ->
    refreshAccessToken env c1 (snd (call fn c1 w1)) = (Normal c2, w3) ->
    fn (count_calls (trace w3)) c2 = Normal r2 ->
    fst (withRetry env fn onSuccess w) = Normal (outcome_of onSuccess r2)
    /\ trace (snd (withRetry env fn onSuccess w))
       = trace w3 ++ [EvCall (count_calls (trace w3)) c2]
    /\ credentialsFile (snd (withRetry env fn onSuccess w)) = FileJson (Some c2)
    /\ count_calls (trace (snd (withRetry env fn onSuccess w)))
       = count_calls (trace w) + 2.
Proof.
  intros env fn onSuccess w w1 w3 c1 c2 r1 r2 Hget Hr1 Hs1 Href Hr2.
  assert (Hfile : credentialsFile w3 = FileJson (Some c2)).
  { pose proof (refreshAccessToken_stored env c1 c2 (snd (call fn c1 w1))) as H.
    rewrite Href in H. now apply H. }
  assert (Hcalls : count_calls (trace w3) = S (count_calls (trace w))).
  { pose proof (proj2 (refreshAccessToken_counts env c1 (snd (call fn c1 w1)))) as H.
    rewrite Href in H. cbn [snd] in H. rewrite H. cbn [call snd trace].
    rewrite count_calls_app. pose proof (getValidCredentials_calls env w) as Hg.
    rewrite Hget in Hg. cbn [snd] in Hg. rewrite Hg. cbn. lia. }
  assert (Hrun : withRetry env fn onSuccess w
                 = (Normal (outcome_of onSuccess r2),
                    mkWorld (credentialsFile w3) (clock_reads w3) (posts_sent w3)
                            (trace w3 ++ [EvCall (count_calls (trace w3)) c2]))).
  { unfold withRetry, bind. rewrite Hget.
    destruct (call fn c1 w1) as [o1 w2] eqn:Hcall1.
    assert (Ho1 : o1 = Normal r1).
    { pose proof (proj1 (call_trace fn c1 w1)) as H. rewrite Hcall1 in H.
      cbn in H. now rewrite H. }
    subst o1. rewrite Hs1. cbn [Z.eqb Pos.eqb]. cbn [snd] in Href. rewrite Href.
    unfold call. rewrite Hr2. unfold ret, outcome_of, is_2xx, failure_of.
    now destruct (_ && _). }
  rewrite Hrun. cbn [fst snd trace credentialsFile].
  repeat split; auto. rewrite count_calls_app, Hcalls. cbn. lia.
Qed.

Lemma withRetry_retry_is_final_witness :
  fst (withRetry granting_env (fun _ _ => Normal (mkResponse 401 "no" []))
                 report_ok (world_of creds_fresh))
  = Normal (failure_of (mkResponse 401 "no" [])).
Proof.
  apply (withRetry_retry_is_final granting_env
           (fun _ _ => Normal (mkResponse 401 "no" [])) report_ok
           (world_of creds_fresh)
           (mkWorld (FileJson (Some creds_fresh)) 1 0 [])
           (snd (refreshAccessToken granting_env creds_fresh
                   (mkWorld (FileJson (Some creds_fresh)) 1 0
                            [EvCall 0 creds_fresh])))
           creds_fresh
           (mkCredentials "client" "secret" "AQX-new" "AQR" "person" 1705184000)
           (mkResponse 401 "no" []) (mkResponse 401 "no" []));
    reflexivity.
Defined.

Lemma withRetry_outcome :
  forall (env : Env) (fn : CallFn) (onSuccess : Response -> PostResult)
         (w : World),
    match fst (withRetry env fn onSuccess w) with
    | Normal result =>
        exists n creds resp,
          fn n creds = Normal resp
          /\ result = outcome_of onSuccess resp
          /\ (n < count_calls (trace w) + 2)
    | Thrown _ => True
    end.
Proof.
  intros env fn onSuccess w.
  pose proof (getValidCredentials_calls env w) as Hget.
  unfold withRetry, bind.
  destruct (getValidCredentials env w) as [[c1|e] w1]; cbn [snd fst] in *;
    [|exact I].
  unfold call at 1.
  destruct (fn (count_calls (trace w1)) c1) as [r1|e] eqn:Hr1; cbn [fst];
    [|exact I].
  destruct (status r1 =? 401)%Z.
  - match goal with
    | |- context [refreshAccessToken env c1 ?w2] =>
        pose proof (proj2 (refreshAccessToken_counts env c1 w2)) as Href;
        destruct (refreshAccessToken env c1 w2) as [[c2|e] w3]
    end; cbn [snd trace fst] in *; [|exact I].
    unfold call, ret.
    destruct (fn (count_calls (trace w3)) c2) as [r2|e] eqn:Hr2; cbn [fst];
      [|exact I].
    assert (Hbound : count_calls (trace w3) < count_calls (trace w) + 2).
    { rewrite Href, count_calls_app, Hget. cbn. lia. }
    destruct ((200 <=? status r2)%Z && (status r2 <? 300)%Z) eqn:E; cbn [fst];
      exists (count_calls (trace w3)), c2, r2;
      (split; [exact Hr2|]); (split; [|exact Hbound]);
      unfold outcome_of, is_2xx, failure_of; now rewrite E.
  - unfold ret.
    assert (Hbound : count_calls (trace w1) < count_calls (trace w) + 2) by lia.
    destruct ((200 <=? status r1)%Z && (status r1 <? 300)%Z) eqn:E; cbn [fst];
      exists (count_calls (trace w1)), c1, r1;
      (split; [exact Hr1|]); (split; [|exact Hbound]);
      unfold outcome_of, is_2xx, failure_of; now rewrite E.
Qed.

(** X24.  Whatever the world and the call-function, a result that
    [withRetry] returns comes from a response it received in its first or
    second call: [onSuccess] of a response with a status in 200..299, or the
    failure that carries the status and the body of a response with another
    status. *)
Theorem withRetry_result_from_response :
  forall (env : Env) (fn : CallFn) (onSuccess : Response -> PostResult)
         (w : World) (result : PostResult),
    fst (withRetry env fn onSuccess w) = Normal result ->
    exists n creds resp,
      fn n creds = Normal resp
      /\ result = outcome_of onSuccess resp
      /\ n < count_calls (trace w) + 2.
Proof.
  intros env fn onSuccess w result Hrun.
  pose proof (withRetry_outcome env fn onSuccess w) as H.
  now rewrite Hrun in H.
Qed.

Lemma withRetry_result_from_response_witness :
  exists n creds resp,
    unauthorized_once n creds = Normal resp
    /\ report_ok (mkResponse 200 "" []) = outcome_of report_ok resp
    /\ n < 0 + 2.
Proof.
  apply (withRetry_result_from_response granting_env unauthorized_once report_ok
           (world_of creds_fresh)).
  reflexivity.
Defined.

End ExecutorPaths.

(* ===================================================================== *)
(** ** The requests of the three operations *)
(* ===================================================================== *)

Section OperationRequests.
Import Js Fs Auth Poster Props Operations OperationProps.
Local Open Scope nat_scope.

Lemma encode_byte_safe (c : ascii) (rest : string) :
  url_safe (encode_byte c +:+ rest) = url_safe rest.
Proof.
  destruct c as [[] [] [] [] [] [] [] []]; reflexivity.
Qed.

Lemma encode_byte_decode (c : ascii) (rest : string) :
  percent_decode (encode_byte c +:+ rest) = String c (percent_decode rest).
Proof.
  destruct c as [[] [] [] [] [] [] [] []]; reflexivity.
Qed.

Lemma encodeURIComponent_safe (s : string) :
  url_safe (encodeURIComponent s) = true.
Proof.
  induction s as [|c s IH]; [reflexivity|].
  cbn [encodeURIComponent]. now rewrite encode_byte_safe.
Qed.

Lemma encodeURIComponent_decode (s : string) :
  percent_decode (encodeURIComponent s) = s.
Proof.
  induction s as [|c s IH]; [reflexivity|].
  cbn [encodeURIComponent]. now rewrite encode_byte_decode, IH.
Qed.

Lemma split_on_nonempty sep s : split_on sep s <> [].
Proof.
  destruct s as [|c s]; cbn [split_on]; [discriminate|].
  destruct (Ascii.eqb c sep); [discriminate|].
  destruct (split_on sep s); discriminate.
Qed.

Lemma split_on_app sep a b :
  split_on sep (a +:+ String sep b) = split_on sep a ++ split_on sep b.
Proof.
  induction a as [|c a IH].
  - change ("" +:+ String sep b) with (String sep b).
    cbn [split_on app]. now rewrite Ascii.eqb_refl.
  - change (String c a +:+ String sep b) with (String c (a +:+ String sep b)).
    cbn [split_on]. rewrite IH.
    destruct (Ascii.eqb c sep); [reflexivity|].
    pose proof (split_on_nonempty sep a) as Hne.
    destruct (split_on sep a) as [|seg rest]; [now contradiction Hne|reflexivity].
Qed.

Lemma split_on_url_safe s : url_safe s = true -> split_on "/" s = [s].
Proof.
  induction s as [|c s IH]; [reflexivity|].
  cbn [url_safe split_on]. intros H. apply andb_prop in H as [Hc Hs].
  rewrite (IH Hs).
  destruct (Ascii.eqb_spec c "/") as [->|_]; [discriminate Hc|reflexivity].
Qed.

(** A segment that [encodeURIComponent] gives is a dot segment only for the
    identifiers [.] and [..]: a dot is never escaped, and a percent sign
    always is. *)
Lemma encoded_not_dot_segment id :
  id <> "." -> id <> ".." ->
  is_single_dot (encodeURIComponent id) = false
  /\ is_double_dot (encodeURIComponent id) = false.
Proof.
  intros H1 H2.
  assert (Hno : forall s,
             percent_decode s = "." \/ percent_decode s = ".."
             \/ encodeURIComponent (percent_decode s) <> s ->
             String.eqb (encodeURIComponent id) s = false).
  { intros s Hs. apply String.eqb_neq. intros E.
    pose proof (f_equal percent_decode E) as D.
    rewrite encodeURIComponent_decode in D.
    destruct Hs as [Hs|[Hs|Hs]]; [congruence|congruence|].
    apply Hs. now rewrite <- D. }
  unfold is_single_dot, is_double_dot. cbn [existsb].
  rewrite !Hno; [split; reflexivity|..];
    first [ left; reflexivity
          | right; left; reflexivity
          | right; right; vm_compute; discriminate ].
Qed.

Lemma requested_posts_segment segment :
  url_safe segment = true ->
  is_single_dot segment = false ->
  is_double_dot segment = false ->
  requested ("https://api.linkedin.com/rest/posts/" +:+ segment)
  = "https://api.linkedin.com/rest/posts/" +:+ segment.
Proof.
  intros Hsafe Hsd Hdd. unfold requested.
  change (strip_prefix "https://" ("https://api.linkedin.com/rest/posts/" +:+ segment))
    with (Some ("api.linkedin.com/rest/posts" +:+ String "/" segment)).
  cbv beta iota.
  rewrite split_on_app, (split_on_url_safe _ Hsafe).
  change (split_on "/" "api.linkedin.com/rest/posts")
    with ["api.linkedin.com"; "rest"; "posts"].
  cbn [app].
  change (path_state ["rest"; "posts"; segment] [])
    with (path_state [segment] ["rest"; "posts"]).
  cbn [path_state]. rewrite Hdd, Hsd. reflexivity.
Qed.

(** X25.  Where an edit and a delete go.  Both go to the same address.  For
    an identifier other than [.] and [..] it is the posts collection
    followed by one segment: the segment holds unreserved characters and
    percent signs only, so no slash, question mark or hash of the identifier
    reaches the address, and decoding the segment gives the identifier back,
    so two such identifiers never share an address.  The identifiers [.] and
    [..] are dot segments, which the URL parser resolves: the request for
    [.] goes to the collection itself, as the request for the empty
    identifier does, and the request for [..] goes to the parent of the
    collection. *)
Theorem edit_delete_address :
  forall (id new_text : string) (creds : Credentials),
    req_url (edit_request (mkEditOptions id new_text) creds)
    = req_url (delete_request id creds)
    /\ (id <> "." -> id <> ".." ->
        exists segment : string,
          req_url (delete_request id creds)
          = "https://api.linkedin.com/rest/posts/" +:+ segment
          /\ url_safe segment = true
          /\ percent_decode segment = id)
    /\ (id = "." \/ id = "" ->
        req_url (delete_request id creds) = "https://api.linkedin.com/rest/posts/")
    /\ (id = ".." ->
        req_url (delete_request id creds) = "https://api.linkedin.com/rest/").
Proof.
  intros id new_text creds. split; [reflexivity|]. split; [|split].
  - intros H1 H2. exists (encodeURIComponent id).
    destruct (encoded_not_dot_segment id H1 H2) as [Hsd Hdd].
    split; [|split].
    + cbn [delete_request httpsRequest req_url].
      apply requested_posts_segment; [apply encodeURIComponent_safe|exact Hsd|exact Hdd].
    + apply encodeURIComponent_safe.
    + apply encodeURIComponent_decode.
  - intros [->| ->]; reflexivity.
  - intros ->. reflexivity.
Qed.

Lemma edit_delete_address_witness :
  exists segment : string,
    req_url (delete_request "urn:li:share:7/1?x" creds_fresh)
    = "https://api.linkedin.com/rest/posts/" +:+ segment
    /\ url_safe segment = true
    /\ percent_decode segment = "urn:li:share:7/1?x".
Proof.
  apply (proj1 (proj2 (edit_delete_address "urn:li:share:7/1?x" "" creds_fresh)));
    discriminate.
Defined.

(** X26.  The request of a retried create is the first request with the
    headers made from the refreshed access token: a refresh that succeeds
    keeps the person identifier, so address, method and body (author, text,
    link) are those of the first request.  The same holds for an edit and a
    delete. *)
Theorem requests_after_refresh :
  forall (env : Env) (c1 c2 : Credentials) (w : World),
    fst (refreshAccessToken env c1 w) = Normal c2 ->
    (forall options : PostOptions,
        post_request options c2
        = mkRequest (req_url (post_request options c1))
                    (req_method (post_request options c1))
                    (makeHeaders (accessToken c2))
                    (req_data (post_request options c1)))
    /\ (forall options : EditOptions,
           edit_request options c2
           = mkRequest (req_url (edit_request options c1))
                       (req_method (edit_request options c1))
                       (makeHeaders (accessToken c2))
                       (req_data (edit_request options c1)))
    /\ (forall id : string,
           delete_request id c2
           = mkRequest (req_url (delete_request id c1))
                       (req_method (delete_request id c1))
                       (makeHeaders (accessToken c2))
                       (req_data (delete_request id c1))).
Proof.
  intros env c1 c2 w Hrun.
  destruct (refreshAccessToken_stored env c1 c2 w Hrun) as [_ Hperson].
  split; [|split; reflexivity].
  intros options. unfold post_request, post_body. cbn [req_url req_method req_data].
  now rewrite Hperson.
Qed.

Lemma requests_after_refresh_witness :
  req_data (post_request (mkPostOptions "hello" None)
              (mkCredentials "client" "secret" "AQX-new" "AQR" "person" 1705184000))
  = req_data (post_request (mkPostOptions "hello" None) creds_near).
Proof.
  destruct (requests_after_refresh granting_env creds_near
              (mkCredentials "client" "secret" "AQX-new" "AQR" "person" 1705184000)
              (world_of creds_near) eq_refl) as [Hpost _].
  now rewrite (Hpost (mkPostOptions "hello" None)).
Defined.

(** X27.  What the three operations report.  A result they return was made
    from a response the API gave to a request of that very operation.  When
    the response has a status in 200..299 the result is a success that names
    the post: the [x-restli-id] header of the response for a create (the
    empty string when there is none), the identifier that was passed in for
    an edit and a delete.  Otherwise the result is a failure without a post
    identifier, with the status and the body as its error. *)
Theorem operations_report :
  forall (env : Env) (net : Net) (w : World),
    (forall options : PostOptions,
        match fst (postToLinkedIn env net options w) with
        | Normal result =>
            exists n creds resp,
              net n (post_request options creds) = Normal resp
              /\ result
                 = if is_2xx resp
                   then mkResult true
                          (Some (header_or_empty "x-restli-id" (headers resp))) None
                   else failure_of resp
        | Thrown _ => True
        end)
    /\ (forall options : EditOptions,
           match fst (editLinkedInPost env net options w) with
           | Normal result =>
               exists n creds resp,
                 net n (edit_request options creds) = Normal resp
                 /\ result
                    = if is_2xx resp
                      then mkResult true (Some (edit_postId options)) None
                      else failure_of resp
           | Thrown _ => True
           end)
    /\ (forall id : string,
           match fst (deleteLinkedInPost env net id w) with
           | Normal result =>
               exists n creds resp,
                 net n (delete_request id creds) = Normal resp
                 /\ result
                    = if is_2xx resp then mkResult true (Some id) None
                      else failure_of resp
           | Thrown _ => True
           end).
Proof.
  intros env net w.
  split; [|split]; intros x.
  - pose proof (withRetry_outcome env (fun n creds => net n (post_request x creds))
                  (fun resp => mkResult true
                     (Some (header_or_empty "x-restli-id" (headers resp))) None) w)
      as H.
    unfold postToLinkedIn.
    destruct (fst (withRetry _ _ _ _)) as [result|e]; [|exact I].
    destruct H as (n & creds & resp & Hresp & Hres & _).
    exists n, creds, resp. split; [exact Hresp|exact Hres].
  - pose proof (withRetry_outcome env (fun n creds => net n (edit_request x creds))
                  (fun _ => mkResult true (Some (edit_postId x)) None) w) as H.
    unfold editLinkedInPost.
    destruct (fst (withRetry _ _ _ _)) as [result|e]; [|exact I].
    destruct H as (n & creds & resp & Hresp & Hres & _).
    exists n, creds, resp. split; [exact Hresp|exact Hres].
  - pose proof (withRetry_outcome env (fun n creds => net n (delete_request x creds))
                  (fun _ => mkResult true (Some x) None) w) as H.
    unfold deleteLinkedInPost.
    destruct (fst (withRetry _ _ _ _)) as [result|e]; [|exact I].
    destruct H as (n & creds & resp & Hresp & Hres & _).
    exists n, creds, resp. split; [exact Hresp|exact Hres].
Qed.

End OperationRequests.

(* ===================================================================== *)
(** ** The delete command *)
(* ===================================================================== *)

Section DeleteCommand.
Import Js Fs Auth Poster Props Operations OperationProps Cli CliProps.
Local Open Scope nat_scope.

Lemma parseDeleteArgs_from_shape :
  forall (n : nat) (args : list string) (p : option string) (j : bool)
         (opts : DeleteArgs),
    length args <= n ->
    parseDeleteArgs_from args p j = Parsed opts ->
    (del_postId opts = p
     /\ exists k, args = repeat "--json" k /\ del_json opts = j || negb (k =? 0))
    \/ (exists id, del_postId opts = Some id /\ str_truthy id = true
                   /\ names_post args id).
Proof.
  induction n as [|n IH]; intros args p j opts Hlen.
  - destruct args; [|cbn in Hlen; lia].
    cbn. intros [= <-]. left. split; [reflexivity|]. exists 0. cbn.
    now rewrite orb_false_r.
  - destruct args as [|a rest].
    { cbn. intros [= <-]. left. split; [reflexivity|]. exists 0. cbn.
      now rewrite orb_false_r. }
    cbn [parseDeleteArgs_from length] in *.
    destruct (String.eqb a "-h" || String.eqb a "--help"); [discriminate|].
    destruct (String.eqb_spec a "--id") as [->|_].
    + destruct rest as [|v rest']; [discriminate|].
      destruct (str_truthy v) eqn:Hv; cbn [negb]; [|discriminate].
      intros Hrun. right.
      destruct (IH rest' (Some v) j opts ltac:(cbn [length] in Hlen; lia) Hrun)
        as [(Hid & k & -> & _)|(id & Hid & Ht & pre & k & ->)].
      * exists v. split; [exact Hid|]. split; [exact Hv|]. now exists [], k.
      * exists id. split; [exact Hid|]. split; [exact Ht|].
        now exists ("--id" :: v :: pre), k.
    + destruct (String.eqb_spec a "--json") as [->|_]; [|discriminate].
      intros Hrun.
      destruct (IH rest p true opts ltac:(lia) Hrun)
        as [(Hid & k & -> & Hj)|(id & Hid & Ht & pre & k & ->)].
      * left. split; [exact Hid|]. exists (S k). split; [reflexivity|].
        rewrite Hj. cbn. now rewrite orb_true_r.
      * right. exists id. split; [exact Hid|]. split; [exact Ht|].
        now exists ("--json" :: pre), k.
Qed.

Lemma parseDeleteArgs_from_help :
  forall (n : nat) (args : list string) (p : option string) (j : bool)
         (lines : list Line),
    length args <= n ->
    parseDeleteArgs_from args p j = Stopped 0 lines ->
    lines = [DeleteHelp].
Proof.
  induction n as [|n IH]; intros args p j lines Hlen.
  - destruct args; [discriminate|cbn in Hlen; lia].
  - destruct args as [|a rest]; [discriminate|].
    cbn [parseDeleteArgs_from length] in *.
    destruct (String.eqb a "-h" || String.eqb a "--help"); [now intros [= <-]|].
    destruct (String.eqb a "--id").
    + destruct rest as [|v rest']; [discriminate|].
      destruct (str_truthy v); cbn [negb]; [|discriminate].
      apply IH. cbn [length] in Hlen. lia.
    + destruct (String.eqb a "--json"); [|discriminate].
      apply IH. lia.
Qed.

Lemma parseDeleteArgs_named :
  forall (args : list string) (opts : DeleteArgs) (id : string),
    parseDeleteArgs args = Parsed opts ->
    del_postId opts = Some id ->
    str_truthy id = true /\ names_post args id.
Proof.
  intros args opts id Hrun Hid.
  destruct (parseDeleteArgs_from_shape (length args) args None false opts
              (le_n _) Hrun)
    as [(Hnone & _)|(id' & Hid' & Ht & Hnames)]; [congruence|].
  assert (id' = id) as -> by congruence. now split.
Qed.

(** X28.  What [parseDeleteArgs] accepts.  When it returns an identifier,
    the identifier is not empty and the arguments are: anything, then [--id]
    and the identifier, then only [--json]; so the last [--id] is the one
    that counts, and whatever follows [--id] is taken for its value.  When
    it returns no identifier, every argument is [--json], and the JSON flag
    is set exactly when there is an argument. *)
Theorem parseDeleteArgs_shape :
  forall (args : list string) (opts : DeleteArgs),
    parseDeleteArgs args = Parsed opts ->
    match del_postId opts with
    | Some id => str_truthy id = true /\ names_post args id
    | None => exists k, args = repeat "--json" k /\ del_json opts = negb (k =? 0)
    end.
Proof.
  intros args opts Hrun.
  destruct (parseDeleteArgs_from_shape (length args) args None false opts
              (le_n _) Hrun)
    as [(Hid & k & Hargs & Hj)|(id & Hid & Ht & Hnames)].
  - rewrite Hid. exists k. split; [exact Hargs|exact Hj].
  - rewrite Hid. split; [exact Ht|exact Hnames].
Qed.

Lemma parseDeleteArgs_shape_witness :
  str_truthy "--json" = true
  /\ names_post ["--id"; "urn:li:share:1"; "--json"; "--id"; "--json"] "--json".
Proof.
  exact (parseDeleteArgs_shape
           ["--id"; "urn:li:share:1"; "--json"; "--id"; "--json"]
           (mkDeleteArgs (Some "--json") true) eq_refl).
Defined.

(** X29.  Status 0 is earned.  When the delete command ends with status 0,
    either it printed the help and left the world as it was, or the
    arguments name a post and the API answered a delete request for that
    post with a status in 200..299. *)
Theorem main_delete_status_zero :
  forall (env : Env) (net : Net) (args : list string) (w w' : World)
         (lines : list Line),
    main_delete env net args w = ((0%Z, lines), w') ->
    (lines = [DeleteHelp] /\ w' = w)
    \/ (exists id n creds resp,
          names_post args id
          /\ net n (delete_request id creds) = Normal resp
          /\ is_2xx resp = true).
Proof.
  intros env net args w w' lines.
  unfold main_delete, handleDelete.
  destruct (parseDeleteArgs args) as [opts|code plines] eqn:Hparse.
  2:{ intros [= -> <- <-]. left. split; [|reflexivity].
      exact (parseDeleteArgs_from_help (length args) args None false plines
               (le_n _) Hparse). }
  destruct (loadCredentials (credentialsFile w)) as [[c|]|e];
    [|discriminate|discriminate].
  destruct (del_postId opts) as [id|] eqn:Hid; [|discriminate].
  destruct (parseDeleteArgs_named args opts id Hparse Hid) as [Ht Hnames].
  rewrite Ht. cbn [negb].
  pose proof (withRetry_outcome env (fun n creds => net n (delete_request id creds))
                (fun _ => mkResult true (Some id) None) w) as Hout.
  unfold deleteLinkedInPost.
  destruct (withRetry _ _ _ w) as [[result|e] w1]; cbn [fst] in Hout;
    [|discriminate].
  destruct Hout as (n & creds & resp & Hresp & Hres & _).
  unfold outcome_of in Hres.
  destruct (is_2xx resp) eqn:H2.
  - intros _. right. exists id, n, creds, resp. auto.
  - subst result. unfold outputResult, failure_of. cbn [success negb].
    destruct (del_json opts); discriminate.
Qed.

Lemma main_delete_status_zero_witness :
  ([Out (newline +:+ "🗑️ Deleting post urn:li:share:1...");
    Out (newline +:+ "✅ Post deleted successfully!")] = [DeleteHelp]
   /\ mkWorld (FileJson (Some creds_fresh)) 1 0 [EvCall 0 creds_fresh]
      = world_of creds_fresh)
  \/ (exists id n creds resp,
        names_post ["--id"; "urn:li:share:1"] id
        /\ net_always 204 n (delete_request id creds) = Normal resp
        /\ is_2xx resp = true).
Proof.
  apply (main_delete_status_zero granting_env (net_always 204)
           ["--id"; "urn:li:share:1"] (world_of creds_fresh)).
  reflexivity.
Defined.

(** X30.  Nothing is sent without an identifier or without credentials.
    When the arguments give no identifier to delete, or no credentials can
    be loaded, the delete command leaves the world as it was (no request, no
    refresh, no write) and ends with status 1, unless it printed the help. *)
Theorem main_delete_nothing_sent :
  forall (env : Env) (net : Net) (args : list string) (w : World),
    parsed_id args = None \/ loadCredentials (credentialsFile w) = Normal None ->
    snd (main_delete env net args w) = w
    /\ (fst (fst (main_delete env net args w)) = 1%Z
        \/ fst (main_delete env net args w) = (0%Z, [DeleteHelp])).
Proof.
  intros env net args w Hno.
  unfold parsed_id in Hno. unfold main_delete, handleDelete.
  destruct (parseDeleteArgs args) as [opts|code plines] eqn:Hparse.
  - destruct (loadCredentials (credentialsFile w)) as [[c|]|e] eqn:Hload.
    + destruct Hno as [Hnone|Hc]; [|discriminate]. rewrite Hnone.
      cbn. split; [reflexivity|now left].
    + cbn. split; [reflexivity|now left].
    + cbn. split; [reflexivity|now left].
  - cbn [snd fst]. split; [reflexivity|].
    destruct (Z.eq_dec code 0%Z) as [->|Hcode].
    + right. f_equal.
      exact (parseDeleteArgs_from_help (length args) args None false plines
               (le_n _) Hparse).
    + left.
      assert (Hone : forall n l p j, length l <= n ->
                parseDeleteArgs_from l p j = Stopped code plines -> code = 1%Z).
      { clear -Hcode. induction n as [|n IH]; intros l p j Hlen.
        - destruct l; [discriminate|cbn in Hlen; lia].
        - destruct l as [|a rest]; [discriminate|].
          cbn [parseDeleteArgs_from length] in *.
          destruct (String.eqb a "-h" || String.eqb a "--help").
          { intros [= <- _]. now contradiction Hcode. }
          destruct (String.eqb a "--id").
          + destruct rest as [|v rest']; [now intros [= <- _]|].
            destruct (str_truthy v); cbn [negb]; [|now intros [= <- _]].
            apply IH. cbn [length] in Hlen. lia.
          + destruct (String.eqb a "--json"); [|now intros [= <- _]].
            apply IH. lia. }
      exact (Hone (length args) args None false (le_n _) Hparse).
Qed.

Lemma main_delete_nothing_sent_witness :
  snd (main_delete granting_env (net_always 204) ["--json"] (world_of creds_fresh))
  = world_of creds_fresh
  /\ (fst (fst (main_delete granting_env (net_always 204) ["--json"]
                  (world_of creds_fresh))) = 1%Z
      \/ fst (main_delete granting_env (net_always 204) ["--json"]
                (world_of creds_fresh)) = (0%Z, [DeleteHelp])).
Proof.
  apply (main_delete_nothing_sent granting_env (net_always 204) ["--json"]
           (world_of creds_fresh)).
  left. reflexivity.
Defined.

End DeleteCommand.
